(* ===== verification/_CoqProject ===== *)
-Q . S2P
Prelude.v
JsValue.v
Numbers.v
Stream.v
Operators.v
Control.v
BatchBy.v
Partition.v
Invariant.v
Machine.v
Simulation.v
Consumer.v
Protocol.v
GroupSpec.v
SamePattern.v
Callbacks.v
SameProperty.v
Explicit.v
Typing.v
Store.v
Abstraction.v
Heap.v
OpenWorld.v
Allocation.v
Scenarios.v
PolicyScenarios.v
ConsumerScenarios.v
InvariantScenarios.v
HeapScenarios.v
