(* ===== verification/Prelude.v ===== *)
(** * highland-batch-by: a verification development

    The program is the library [highland-batch-by]
    (src/libs/highland-batch-by/src/lib/highland-batch-by.ts, 117 lines): a
    transform over Highland streams that groups the consecutive entries of
    a stream into batches, as a batching policy decides.

    ** The program

    - [Control] (lines 3-7) is the policy interface: [beginWith] gives the
      first batch, [forEachEntry] folds one entry into the batch and may hand
      over a batch to push, [end] may hand over a last batch.
    - [batchBy(control)(object_stream)] (lines 9-30) creates an output
      stream, folds the input with [scan] and a callback that writes what
      [forEachEntry] pushes, takes the last batch with [last], gives it to
      [end] in a [map] callback that writes what [end] pushes, and ends the
      output in the callback of [done].  A batch is written if it is truthy.
    - [samePattern] (lines 38-80) is the policy that keeps in a batch the
      consecutive entries with the same pattern; the batch
      [TBatchSamePattern] (lines 33-36) holds the pattern and the items.
    - [sameProperty] (lines 82-89) is [samePattern] with the pattern read
      from a property and compared with [===]; [batchByProp] (line 117) is
      [batchBy] of it.
    - The doc comment of lines 91-116 gives an example and its output; the
      unit test (highland-batch-by.spec.ts) runs the same input.

    ** The files

    The program itself:

    - [Prelude] (this file): [result], a call that returns or throws;
      [eff], a computation over a world; their notations, tactics and laws.
    - [JsValue]: the JavaScript values the program tests: [value],
      [to_boolean] (lines 14, 22), [strict_eq] (lines 50, 87), [get_prop]
      (line 86).  Numbers are IEEE 754 doubles ([spec_float] of the
      standard library) compared as the standard says: [NaN] equals
      nothing, the two zeros are equal.  The classes [Truthy] and
      [Nullable] are what the generic code asks of its type parameters.
    - [Numbers]: the integer literals of the test and of the example as
      doubles ([of_Z]), the safe integers ([is_safe_integer]) and the
      integer read back from a double ([to_Z]).
    - [Control]: the record [Control] and the results of its operations;
      the fold of a list of entries through a control ([fold_with]); the
      contract of the transform as the specification words it
      ([spec_run]).
    - [BatchBy]: the output stream as the ordered list of the calls made on
      it ([world], [write], [end_stream]); the callbacks [scan_callback],
      [map_callback], [done_callback]; the chain [chain] and the transform
      [batchBy]; the loop [drive] the chain amounts to; what a consumer
      that collects the output into a promise gets ([collect_to_promise]).
    - [Machine]: the transform as a transition relation ([step], [steps])
      on the phases of the chain ([Folding], [Finished], [Stopped]), its
      transition function ([next], [exec]), the items it never reads
      ([unread]) and its invariant ([consistent]).
    - [Protocol]: the interface and the transform once more, with
      operations that have effects on a world of the policy ([EControl],
      [e_scan_callback], [e_map_callback], [e_done_callback], [e_batchBy]);
      the calls the specification prescribes ([protocol]); the equivalence
      of policies whose operations agree, which [e_batchBy] respects.
    - [SamePattern]: [samePattern_beginWith], [samePattern_forEachEntry],
      [samePattern_end], [samePattern]; the batches it produces as runs
      ([grouped]); the instances of [Partitioning] and of [Preserves] (for
      the invariant [initial_or_filled] of section 3 of the specification);
      the class [PatternEquiv], what the specification asks of [same].
    - [Callbacks]: [samePattern] once more, over callbacks
      [extractPattern] and [same] with effects on a world of their own
      ([e_pattern_config], [e_joins], [e_samePattern_forEachEntry],
      [e_samePattern]), in the order of evaluation of lines 49-50; the
      calls of the callbacks the specification prescribes ([callbacks]).
    - [SameProperty]: [property_config], [sameProperty], [batchByProp];
      the unit test ([scenario_A], [should_work]) and the example of the
      doc comment of lines 97-111 ([doc_example], [scenario_A_output]).
    - [Typing]: the TypeScript types of the entries and the batches of
      [batchByProp] ([ty], [has_type], [entry_has_type],
      [batch_has_type]), and [sameProperty] as an instance of [Preserves]
      for them.
    - [Heap]: [samePattern] a third time, on objects in a store.  A batch
      is an object ([CBatch]) whose [items] is a reference to an array
      ([CArray]); the operations ([h_beginWith], [h_forEachEntry],
      [h_end], [h_samePattern]) evaluate the literals of lines 46-78 one
      by one ([alloc]), read properties ([get_accumulate_pattern],
      [get_items]) and spread the array ([spread]).  The batch pushed on
      lines 60-63 and the one pushed by [end] share the array of the batch
      they are made from.  [read_batch] is the batch of [SamePattern] a
      reference stands for in a store.
    - [Allocation]: the elements of the arrays of a store
      ([elements_stored]) and the number of them the policy writes for an
      input ([copies], [copies_of]).

    What surrounds it:

    - [Stream]: the Highland operators the program calls ([scan], [last],
      [map], [done], in [Module Highland]) as handlers with a state
      ([stage]), and their chaining ([pipe], [feed], [run]); the chain
      [scan], [last], [map], [done] for any callbacks ([chain_of]) and the
      loop it amounts to ([loop_of]).  Highland is an npm package and not
      in the repository: this file is written from the behaviour of the
      library, and it is the assumption on which the theorems about
      [batchBy] rest.
    - [Operators]: what those operators deliver for a whole array
      ([delivers], [scanl]), and the examples of the documentation of the
      library evaluated on the model.
    - [Store]: the objects of a JavaScript program.  A store is a finite
      map from references ([loc]) to objects, a literal takes a reference
      the store does not have ([alloc]), and code leaves alone the objects
      it has no reference to ([keeps]).
    - [OpenWorld]: the policy of [Heap] among other code: the consumer of
      the batches, and whatever runs between two operations of the policy.
      [among env ec] runs [env] before each operation of [ec]; the world
      holds the store and the set of the objects only the policy refers
      to, which [env] must leave as they are ([Confined]) while it may
      change or create any other; a batch is pushed as an [arrival], the
      reference with the store in which the consumer finds it.  Code that
      only creates objects, another transform for one, is confined
      ([extending_confined]).
    - [Consumer]: the output stream read while the chain runs.  A
      [consumer] is what is done with a value and with the end; [each_log]
      is [.each(console.log).done(() => {})] (lines 102-103) and [collect]
      is [.collect().toPromise(Promise)] (unit test, lines 12-13).  A
      [system] is the input still to come, the machine, the number of calls
      of [output_stream] the consumer has taken and the state of the
      consumer; [sys_step] lets the chain take an item or the consumer take
      the next waiting call, in any order.  A second transform that reads
      the output of the first is the consumer [downstream].

    The interfaces between the transform and its policies, each a class
    against which [batchBy] is proved and of which the policies are
    instances:

    - [Partition]: [Partitioning], the policies that keep the entries.
    - [Invariant]: [Preserves], the policies that keep an invariant of
      their batch on the entries of a domain ([entries_in]).
    - [Simulation]: [Simulates], two policies whose operations correspond
      through a relation between their batches.
    - [Abstraction]: [Implements], a policy with effects whose batches
      stand, in its world, for the batches of a policy without effects;
      what stands for what may depend on the world, which moves along a
      preorder.

    The specifications the program is compared with:

    - [GroupSpec]: what grouping means, without streams: the maximal runs
      ([runs]) of a list for a cut relation, their characterisation
      ([is_runs]) and its uniqueness.
    - [Explicit]: the policy with a state of two variants ([Empty],
      [Accumulating]) that section 9 of the specification describes
      ([explicit]), and the relation [represents] between a batch of the
      code and such a state.

    The theorems applied to concrete inputs, among them a control that
    fails in the middle of an input and a callback with a state:
    [Scenarios], [PolicyScenarios], [ConsumerScenarios],
    [InvariantScenarios], and, for the policy on objects, code that
    overwrites every object it can reach ([scramble]) and a second
    transform that runs on the same store between every two operations
    of the first ([other_run]), [HeapScenarios].

    ** Correspondence

    A call that may throw returns a [result E A]; [E], the type of thrown
    values, is a parameter.  [TPushedBatch | null] is an [option].  The
    callbacks of the chain mutate the output stream: they are computations
    in [eff (world E T)], where the world holds the calls made on
    [output_stream] in order and the error that escaped the chain, if any.
    An input stream is the finite list of the [item]s it delivers: values,
    errors and the end marker [Nil]; [Highland.of_array xs] is a stream that
    delivers [xs] and ends, [Highland.pending xs] one that has delivered
    [xs] and has not ended yet.  The chain is evaluated item by item, each
    item through the whole chain before the next one is read, as Highland
    does with a synchronous source; a handler that does not ask for the
    next item stops the chain.  An error that reaches [done] is emitted as
    an ['error'] event on the consumed stream; no listener is attached to
    it by the program, so it is thrown out of the chain ([escaped]) and the
    output stream neither receives it nor ends.

    ** The theorems

    - [BatchBy]: the chain is the loop [drive] on every input
      ([batchBy_is_loop]); on inputs without failure and with truthy
      batches the transform meets the contract ([batchBy_meets_contract]);
      in general it writes the truthy part of what the contract emits
      ([batchBy_writes_truthy]); after a failure of the control or an error
      of the input nothing more happens ([batchBy_failure_stops],
      [batchBy_source_error]); the calls on the output are writes followed
      by at most one end ([batchBy_calls_wellformed]); emission is
      incremental and bounded ([batchBy_pending], [batchBy_incremental],
      [batchBy_at_most_one_per_item]); after a failure the promise of a
      collecting consumer is never settled ([batchBy_failure_unsettled]).
    - [Partition], [Invariant], [Simulation]: over a policy that keeps the
      entries, what is written carries a prefix of the input, and all of it
      once the output has ended ([batchBy_partition],
      [batchBy_partition_pending]); over a policy that keeps an invariant,
      every batch written has the property the policy pushes with
      ([batchBy_preserves]); over two policies of which one simulates the
      other, the transform makes the same calls on its output
      ([batchBy_simulation]), and the two machines match each other's
      transitions ([step_related]).  All three hold whether the policy
      throws or not.
    - [Machine]: the runs of [batchBy] are the runs of the machine
      ([batchBy_runs_machine], [machine_runs_batchBy]); the invariant holds
      in every reachable configuration, by induction on runs
      ([reachable_consistent]); the machine is deterministic, accepts every
      item while it folds and none afterwards ([step_deterministic],
      [step_progress]).
    - [Consumer]: every schedule of the chain and the consumer stops
      ([sys_terminates], with the bound [sys_steps_bounded]); the relation
      is locally confluent, hence confluent, so that every schedule ends in
      the same state, in which the consumer has been handed the calls of
      [batchBy] on the whole input, in order
      ([sys_schedule_independent]); before that it has been handed a
      prefix of them ([sys_reader_prefix]); the collecting consumer ends
      with the promise [collect_to_promise] computes
      ([collect_refines_promise]); two transforms in a row give what the
      second gives on the output of the first ([through_composes]);
      nothing makes the chain wait for the consumer ([sys_all_buffered]).
    - [Protocol]: effects of a policy are state passing: the output of
      [e_batchBy] is that of [batchBy] over the policy that carries the
      world in its batch ([e_batchBy_threaded]); a policy that observes
      its calls sees [beginWith], one [forEachEntry] per entry in order,
      each on the batch the previous one returned, and [end] once, and
      nothing after a failure ([e_batchBy_observed], [traced_complete],
      [traced_failure]).
    - [GroupSpec]: [runs] satisfies [is_runs], and is the only list that
      does; the left-to-right accumulation [runs_from] computes it.
    - [SamePattern]: the transform over the policy writes [grouped]
      ([samePattern_is_grouped]); the batches put end to end are the input
      ([samePattern_concat]), and a prefix of it when a callback throws
      ([samePattern_keeps_entries]); when [same] is an equivalence and no
      pattern is null, batches are uniform and maximal
      ([samePattern_batches_uniform], [samePattern_batches_maximal]); the
      grouping written is the only one into maximal runs
      ([samePattern_unique_grouping]); the pattern of a batch is that of
      its last entry ([samePattern_pattern_is_last]); while the entries
      delivered are a single run nothing is written, however many they
      are ([samePattern_holds_back]); the empty input gives
      one empty batch ([samePattern_empty_input]); when no pattern is null,
      the null pattern marks the batch without items
      ([samePattern_sentinel]).
    - [Explicit]: when [extractPattern] never returns [null], the code
      implements the policy with an explicit first state
      ([samePattern_refines_explicit]); when it does, the two differ
      ([explicit_null_key]).
    - [Callbacks]: the entries are kept whatever the callbacks do to
      their world and whatever they answer
      ([e_samePattern_keeps_entries]); callbacks that only observe their
      calls give the policy of [SamePattern] and hear the calls of the
      specification ([e_samePattern_observed]); [extractPattern] is called
      once per entry with the pattern of the entry before, and [same]
      right after it, on that pattern and the new one, unless the batch
      has no pattern ([callbacks_in_order]).
    - [Abstraction]: over a policy with effects that implements a policy
      without, the transform makes the calls of the transform over the
      implemented policy, each write on what stands, in the world at the
      end, for the batch written there ([e_batchBy_implements]).
    - [Heap]: each operation extends the store, makes the batch it
      returns of two new objects, and pushes a batch that has no object in
      common with it ([h_beginWith_spec], [h_forEachEntry_spec],
      [h_end_spec]); the policy on objects is an instance of [Implements]
      for [samePattern], with the inclusion of stores as the preorder, so
      that the references the transform writes stand at the end for the
      batches [batchBy] writes, no object that existed has been changed
      and no read of the policy has failed ([h_batchBy_refines]); a second
      transform on the same store leaves the batches of the first as
      they were ([h_batchBy_twice]).
    - [OpenWorld]: the policy among other code is an instance of
      [Implements] too: the objects of the batch in use are among those
      only the policy refers to, so that whatever that code does to the
      objects it can reach, every batch is, in the store in which it
      arrives, the batch [batchBy] writes ([h_batchBy_confined]); after
      that the store need not hold it any more ([scrambled_run]).
    - [Allocation]: each entry that joins a batch is copied with all the
      entries of the batch before it; the arrays the policy creates hold
      [k (k + 1) / 2] elements ([triangle]) for each batch of [k] entries
      it writes, between the length of the input and its triangle in all
      ([h_batchBy_copies], [one_batch_copies]).
    - [Numbers], [SameProperty]: the literal of a safe integer is a double
      from which the integer can be read back ([literal_round_trip]), so
      that on such keys [batchByProp] groups by the equality of the
      integers ([batchByProp_integer_keys]) and not beyond
      ([unsafe_ids_merge]); on property values other than [null] it writes
      the runs of values that are [===] ([batchByProp_runs]); the unit
      test and the scenarios of the specification ([should_work_resolves],
      [batchByProp_scenario_A], [batchByProp_single_batch],
      [batchByProp_distinct], [batchByProp_idempotent]); the example of the
      documentation prints the output it documents under every schedule
      ([doc_example_prints]); what happens on [null], [NaN] and the zeros
      ([null_key_merges], [nan_key_splits], [zero_signs_group]).
    - [Typing]: the batches [batchByProp] writes have the type its
      signature gives them ([batchByProp_well_typed]), and when [null] is
      not of the type of the property the null pattern marks the initial
      batch ([batchByProp_pattern_typed]).
    - [Operators]: [scan] delivers the intermediate values of the fold,
      [last] the last value, [map] the images, and [scan] followed by
      [last] the fold itself ([delivers_scan], [delivers_last],
      [delivers_map], [delivers_scan_last]).

    ** Where the code and its specification differ

    - A failure of the control does not reach the output stream: it is
      thrown out of the chain, and the output stream is never ended
      ([batchBy_failure_stops], [batchBy_failure_unsettled]); a failure of
      [beginWith] is thrown by [batchBy] itself ([batchBy_is_loop]).
    - A pushed batch is written when it is truthy, not when it is present
      ([batchBy_writes_truthy]).
    - The pattern of a batch is that of its last entry, not of its first
      ([samePattern_pattern_is_last]).
    - A pattern that is [null] is taken for the absence of a pattern
      ([null_key_merges], [samePattern_refines_explicit]); [NaN] is never
      the same as itself ([nan_key_splits], [batchByProp_runs]); integers
      from [2^53] on are grouped with their neighbours
      ([unsafe_ids_merge], [batchByProp_integer_keys]).
    - The result of [output_stream.write] is not looked at and the input
      is never paused: the batches written wait in the output stream
      without bound when the consumer is slow ([sys_all_buffered]), where
      the specification speaks of at most one pending emission.
    - The specification speaks of batches as values.  In the code a
      batch that is pushed is a new object with the array of the batch it
      was made from (lines 62 and 75): a consumer that changes the array
      of a batch it received changes the array of a batch of the policy,
      one that the policy does not read again ([scenario_A_store],
      [h_batchBy_confined]).
    - The specification gives no cost.  Line 55 builds a new array with
      all the entries of the batch for every entry that joins it, so a
      batch of [k] entries costs [k (k + 1) / 2] element writes, where
      appending to the array would cost [k] ([h_batchBy_copies]).

    ** Bounds

    All the definitions are structural recursions on the list of items or
    entries: there is no fuel, and every theorem about a result is about a
    total function.  Inputs are finite lists of any length; an input that
    never ends is the family of its finite prefixes ([Highland.pending]).
    Termination of the schedules of [Consumer] is strong normalisation of
    [sys_step], by the measure [sys_measure]: three for every item of the
    input still to come (an item makes the chain write at most two calls)
    plus the calls waiting in the output stream.  A store is a finite map
    with no bound on its size, and a reference is a natural number; no
    object is ever removed from it.  Numbers have the width
    of the language: 53 bits of mantissa and exponents below 1024; the
    theorems about integer keys say on which side of [2^53] they hold.

    ** Not modelled

    Highland beyond the four operators, the array source and the
    consumers the repository attaches: the protocol by which a Highland
    stream pauses its source (the program never uses it: line 15 drops the
    result of [write]), the timing of asynchronous sources other than the
    order in which items arrive (every interleaving with the consumer is a
    schedule of [sys_step]), the consumers the repository does not use,
    and a consumer whose callback throws while it is served inside
    [write] (the consumers of [Consumer] are total functions).
    TypeScript beyond the types of [Typing]: the checker, generics and
    structural subtyping.  JavaScript values beyond truthiness, [===] and
    the reading of an own property of an object literal: there are no
    prototypes, getters or coercions other than to a boolean, and no
    arithmetic on numbers.  Batches are objects in a store in [Heap] and
    [OpenWorld] only, and entries and patterns are values everywhere: code
    that changes an entry after the policy has read its pattern, and
    callbacks that keep a reference to a batch, are not modelled.  A read
    of a property of something that is not a batch, which the types of the
    source exclude, throws [type_error] in [Heap].  The Jest harness
    of the unit test ([describe], [it], [expect], the snapshot, which is
    not in the repository) is not modelled; the input of the test and the
    output the documentation gives for it are ([scenario_A],
    [scenario_A_output]).

    Of the 117 lines of the source, the 23 that no definition translates
    are the import of line 1, blank lines, and the prose and the
    delimiters of the doc comment of lines 90-116. *)

From stdpp Require Import prelude.

(** ** Thrown values

    A JavaScript call either returns a value or throws.  The program never
    inspects what was thrown, so the type [E] of thrown values is a
    parameter everywhere. *)

Inductive result (E A : Type) : Type :=
| Ok (a : A)
| Throw (e : E).

Arguments Ok {E A} a.
Arguments Throw {E A} e.

Definition res_bind {E A B} (m : result E A) (k : A -> result E B) : result E B :=
  match m with
  | Ok a => k a
  | Throw e => Throw e
  end.

Definition res_map {E A B} (f : A -> B) (m : result E A) : result E B :=
  match m with
  | Ok a => Ok (f a)
  | Throw e => Throw e
  end.

Definition is_ok {E A} (m : result E A) : bool :=
  match m with
  | Ok _ => true
  | Throw _ => false
  end.

(** The thrown value, if any. *)
Definition res_error {E A} (m : result E A) : option E :=
  match m with
  | Ok _ => None
  | Throw e => Some e
  end.

(** ** Effects: a computation that reads and updates a world [W] *)

Definition eff (W A : Type) : Type := W -> A * W.

Definition eff_ret {W A} (a : A) : eff W A := fun w => (a, w).

Definition eff_bind {W A B} (m : eff W A) (k : A -> eff W B) : eff W B :=
  fun w => let '(a, w') := m w in k a w'.

Definition eff_modify {W} (f : W -> W) : eff W unit := fun w => (tt, f w).

Declare Scope result_scope.
Delimit Scope result_scope with res.
Declare Scope eff_scope.
Delimit Scope eff_scope with eff.

Notation "x <- m ;; k" := (res_bind m (fun x => k))
  (at level 100, m at next level, right associativity) : result_scope.
Notation "x <- m ;; k" := (eff_bind m (fun x => k))
  (at level 100, m at next level, right associativity) : eff_scope.
Notation "m ;; k" := (eff_bind m (fun _ => k))
  (at level 100, right associativity) : eff_scope.

(** ** Tactics *)

(** Case analysis on the scrutinee of the first [match] on a [result]. *)
Ltac case_result :=
  match goal with
  | |- context [match ?r with Ok _ => _ | Throw _ => _ end] =>
      destruct r eqn:?
  | H : context [match ?r with Ok _ => _ | Throw _ => _ end] |- _ =>
      destruct r eqn:?
  end.

(** Unfold the two monads. *)
Ltac unfold_eff :=
  unfold eff_bind, eff_ret, eff_modify, res_bind, res_map, res_error in *.

Create HintDb batch discriminated.
Create Rewrite HintDb batch.

(** Normalise with the equations of the development (the rewrite database
    [batch]). *)
Ltac batch_simpl := autorewrite with batch.

(** Equations between closed terms, by evaluation of their left sides.
    The proof is the evaluation itself: nothing is compared before the
    kernel runs it. *)
Ltac evaluate :=
  hnf; split_and?;
  match goal with |- _ = ?b => vm_cast_no_check (@eq_refl _ b) end.

(** ** Monad laws *)

Section laws.
Context {E W : Type}.

Lemma res_bind_ok_l {A B} (a : A) (k : A -> result E B) :
  res_bind (Ok a) k = k a.
Proof. done. Qed.

Lemma res_bind_ok_r {A} (m : result E A) : res_bind m Ok = m.
Proof. by destruct m. Qed.

Lemma res_bind_assoc {A B C} (m : result E A)
    (k : A -> result E B) (h : B -> result E C) :
  res_bind (res_bind m k) h = res_bind m (fun a => res_bind (k a) h).
Proof. by destruct m. Qed.

Lemma res_bind_inv_ok {A B} (m : result E A) (k : A -> result E B) b :
  res_bind m k = Ok b -> exists a, m = Ok a /\ k a = Ok b.
Proof. destruct m as [a|e]; [by exists a | done]. Qed.

Lemma is_ok_true {A} (m : result E A) : is_ok m = true <-> exists a, m = Ok a.
Proof. destruct m as [a|e]; split; [by exists a | done | done | by intros [? ?]]. Qed.

Lemma eff_bind_ret_l {A B} (a : A) (k : A -> eff W B) w :
  eff_bind (eff_ret a) k w = k a w.
Proof. done. Qed.

Lemma eff_bind_ret_r {A} (m : eff W A) w : eff_bind m eff_ret w = m w.
Proof. unfold eff_bind, eff_ret. by destruct (m w). Qed.

Lemma eff_bind_assoc {A B C} (m : eff W A)
    (k : A -> eff W B) (h : B -> eff W C) w :
  eff_bind (eff_bind m k) h w = eff_bind m (fun a => eff_bind (k a) h) w.
Proof. unfold eff_bind. by destruct (m w). Qed.

End laws.

#[export] Hint Rewrite @res_bind_ok_l @res_bind_ok_r @eff_bind_ret_l : batch.

(** ** Lists *)

Section lists.
Context {A B : Type}.
Implicit Types f : A -> B.

Lemma fmap_concat f (ls : list (list A)) :
  f <$> concat ls = concat ((fmap f : list A -> list B) <$> ls).
Proof. induction ls as [|l ls IH]; cbn; [done|]. by rewrite fmap_app, IH. Qed.

Lemma concat_snoc (ls : list (list A)) l : concat (ls ++ [l]) = concat ls ++ l.
Proof. by rewrite concat_app; cbn; rewrite app_nil_r. Qed.

Lemma last_fmap f (l : list A) : last (f <$> l) = f <$> last l.
Proof.
  induction l as [|x l IH]; [done|]. destruct l as [|y l]; [done|].
  by rewrite fmap_cons, !last_cons_cons, <- IH.
Qed.

Lemma head_fmap f (l : list A) : head (f <$> l) = f <$> head l.
Proof. by destruct l. Qed.

End lists.

#[export] Hint Rewrite @concat_snoc @last_snoc @app_nil_r : batch.
