(* ===== verification/JsValue.v ===== *)
(** * JsValue: the fragment of JavaScript values the program observes

    [highland-batch-by.ts] is generic in the entry, batch and pattern types,
    but three of its lines look at run-time values: the truthiness tests of
    lines 14 and 22 ([if (result.batch_to_push)], [batch_to_push && ...]),
    the null test of line 50 ([accumulate_pattern === null]) and the
    property read and strict equality of lines 86-87.  This file gives those
    operators their JavaScript meaning on a type [value] of primitives and
    object references, and states the two interfaces through which the
    generic code uses them: [Truthy] and [Nullable].

    A number is an IEEE 754 double, in the representation of the standard
    library ([spec_float]): [===] on numbers is the comparison of the
    standard ([SFeqb]), for which [NaN] equals nothing and the two zeros
    are equal. *)

From Stdlib Require Import Floats.SpecFloat.
From stdpp Require Import prelude strings gmap.
From S2P Require Import Prelude.

(** ** Numbers

    The doubles are the [spec_float]s that are [valid_binary] for a
    precision of 53 bits and exponents below 1024: zeros and infinities of
    both signs, [NaN], and the finite numbers with a normalised mantissa. *)

Abbreviation number := spec_float.

#[export] Instance number_eq_dec : EqDecision number.
Proof. solve_decision. Defined.

(** The double of an integer literal (the nearest one, beyond 53 bits). *)
Definition of_Z (z : Z) : number := binary_normalize 53 1024 z 0 false.

Definition is_zero (x : number) : bool :=
  match x with
  | S754_zero _ => true
  | _ => false
  end.

(** ** Values

    The eight types of the language.  An object (a function, an array) is
    seen through its reference and a symbol through its identity, as [===]
    sees them. *)

Inductive value : Type :=
| VUndefined
| VNull
| VBool (b : bool)
| VNumber (x : number)
| VBigInt (z : Z)
| VString (s : string)
| VSymbol (id : nat)
| VObject (r : nat).

Abbreviation VNaN := (VNumber S754_nan).
Abbreviation VZero := (VNumber (S754_zero false)).
Abbreviation VNegZero := (VNumber (S754_zero true)).
Abbreviation VInfinity negative := (VNumber (S754_infinity negative)).

(** An integer literal. *)
Abbreviation VInt z := (VNumber (of_Z z)).

#[export] Instance value_eq_dec : EqDecision value.
Proof. solve_decision. Defined.

#[export] Instance value_inhabited : Inhabited value := populate VUndefined.

(** [ToBoolean]: what [if (v)] and [v && ...] test. *)
Definition to_boolean (v : value) : bool :=
  match v with
  | VUndefined | VNull => false
  | VBool b => b
  | VNumber (S754_zero _ | S754_nan) => false
  | VNumber _ => true
  | VBigInt z => negb (Z.eqb z 0)
  | VString s => negb (String.eqb s EmptyString)
  | VSymbol _ | VObject _ => true
  end.

(** [a === b]: numbers are compared as doubles, the other values are equal
    when they are the same value. *)
Definition strict_eq (a b : value) : bool :=
  match a, b with
  | VNumber x, VNumber y => SFeqb x y
  | _, _ => bool_decide (a = b)
  end.

(** An object literal: its own properties by name. *)
Abbreviation object := (gmap string value).

(** [o[k]]: the property's value, [undefined] when [o] has no such property. *)
Definition get_prop (o : object) (k : string) : value :=
  default VUndefined (o !! k).

(** ** The interfaces of the generic code *)

(** Truthiness of the values of a type: what [if (x)] tests. *)
Class Truthy (T : Type) : Type := truthy : T -> bool.
#[global] Hint Mode Truthy ! : typeclass_instances.

#[export] Instance value_truthy : Truthy value := to_boolean.

(** [x | null]: [None] is [null], which is falsy. *)
#[export] Instance option_truthy `{Truthy T} : Truthy (option T) :=
  fun o => match o with Some x => truthy x | None => false end.

(** An array is an object: truthy, the empty one too. *)
#[export] Instance list_truthy {A} : Truthy (list A) := fun _ => true.

(** A type whose values are all objects: every one is truthy. *)
Class AlwaysTruthy (T : Type) `{Truthy T} : Prop :=
  always_truthy : forall x : T, truthy x = true.

#[export] Instance list_always_truthy {A} : AlwaysTruthy (list A).
Proof. by intros ?. Qed.

(** A type [T | null] with its [x === null] test. *)
Class Nullable (P : Type) : Type := {
  null : P;
  is_null : P -> bool;
  is_null_spec : forall p, is_null p = true <-> p = null
}.
#[global] Hint Mode Nullable ! : typeclass_instances.

Lemma value_is_null_spec v : strict_eq v VNull = true <-> v = VNull.
Proof. destruct v; cbn; split; try done; by case_bool_decide. Qed.

#[export] Instance value_nullable : Nullable value := {|
  null := VNull;
  is_null v := strict_eq v VNull;
  is_null_spec := value_is_null_spec
|}.

Lemma option_is_null_spec {T} (o : option T) :
  match o with None => true | Some _ => false end = true <-> o = None.
Proof. by destruct o. Qed.

#[export] Instance option_nullable {T} : Nullable (option T) := {|
  null := None;
  is_null o := match o with None => true | Some _ => false end;
  is_null_spec := option_is_null_spec
|}.

(** ** Strict equality *)

(** The comparison of doubles holds of two equal numbers other than [NaN],
    and of two zeros. *)
Lemma SFeqb_spec (x y : number) :
  SFeqb x y = true <-> (x = y /\ x <> S754_nan) \/ (is_zero x = true /\ is_zero y = true).
Proof.
  unfold SFeqb, SFcompare.
  destruct x as [s|s| |s m e], y as [s'|s'| |s' m' e']; cbn;
    try solve [repeat case_match; naive_solver].
  change (PosDef.Pos.compare_cont Eq m m') with (m ?= m')%positive.
  destruct s, s', (Z.compare_spec e e'), (Pos.compare_spec m m'); cbn;
    naive_solver lia.
Qed.

Lemma strict_eq_spec a b :
  strict_eq a b = true <->
  (a = b /\ a <> VNaN) \/
  (exists s s', a = VNumber (S754_zero s) /\ b = VNumber (S754_zero s')).
Proof.
  destruct a as [| |?|x|?|?|?|?], b as [| |?|y|?|?|?|?]; cbn;
    try (rewrite bool_decide_eq_true; naive_solver).
  rewrite SFeqb_spec. destruct x, y; naive_solver.
Qed.

Lemma strict_eq_refl a : a <> VNaN -> strict_eq a a = true.
Proof. intros. apply strict_eq_spec. by left. Qed.

Lemma strict_eq_nan_l b : strict_eq VNaN b = false.
Proof. by destruct b. Qed.

Lemma strict_eq_nan_r a : strict_eq a VNaN = false.
Proof. by destruct a as [| |?|[]|?|?|?|?]. Qed.

Lemma strict_eq_sym a b : strict_eq a b = strict_eq b a.
Proof. apply eq_true_iff_eq. rewrite !strict_eq_spec. naive_solver. Qed.

Lemma strict_eq_trans a b c :
  strict_eq a b = true -> strict_eq b c = true -> strict_eq a c = true.
Proof. rewrite !strict_eq_spec. naive_solver. Qed.

(** Two values that are [===] are the same value, or the two zeros. *)
Lemma strict_eq_eq a b :
  strict_eq a b = true -> to_boolean a = true -> a = b.
Proof. intros [[-> _]|(s & s' & -> & ->)]%strict_eq_spec; naive_solver. Qed.

(** Two values that are [===] are both truthy or both falsy, and the
    program cannot tell them apart in any other way. *)
Lemma strict_eq_to_boolean a b :
  strict_eq a b = true -> to_boolean a = to_boolean b.
Proof. by intros [[-> _]|(s & s' & -> & ->)]%strict_eq_spec. Qed.

(** ** Truthiness *)

(** The falsy values are exactly [undefined], [null], [false], the zeros,
    [NaN], [0n] and the empty string. *)
Lemma to_boolean_false v :
  to_boolean v = false <->
  v ∈ [VUndefined; VNull; VBool false; VZero; VNegZero; VNaN; VBigInt 0;
       VString EmptyString].
Proof.
  rewrite !elem_of_cons, elem_of_nil.
  destruct v as [| |[]|[[]|[]| |]|z|s| |]; cbn;
    rewrite ?negb_false_iff, ?Z.eqb_eq, ?String.eqb_eq; naive_solver.
Qed.

Lemma is_null_null `{Nullable P} : is_null (null : P) = true.
Proof. by apply is_null_spec. Qed.

Lemma is_null_false `{Nullable P} (p : P) : is_null p = false <-> p <> null.
Proof. rewrite <- not_true_iff_false. by rewrite is_null_spec. Qed.

Lemma get_prop_insert (o : object) k v : get_prop (<[k := v]> o) k = v.
Proof. unfold get_prop. by rewrite lookup_insert_eq. Qed.

Lemma get_prop_insert_ne (o : object) k k' v :
  k <> k' -> get_prop (<[k := v]> o) k' = get_prop o k'.
Proof. intros. unfold get_prop. by rewrite lookup_insert_ne. Qed.

Lemma get_prop_empty k : get_prop ∅ k = VUndefined.
Proof. done. Qed.

#[export] Hint Rewrite get_prop_insert get_prop_empty strict_eq_nan_l : batch.
#[export] Hint Resolve strict_eq_refl strict_eq_trans : batch.
