(* ===== verification/Numbers.v ===== *)
(** * Numbers: integer literals as doubles

    The keys of the unit test and of the documented example are integer
    literals ([order_id:1]).  A number literal denotes the double nearest to
    it ([of_Z], through [binary_normalize] of the standard library), and
    [===] compares doubles.  This file shows where that is the comparison
    of the integers and where it is not: an integer below [2^53] in
    absolute value is a double ([is_double]) from which the integer can be
    read back ([to_Z]), so that two such literals are [===] exactly when
    they are the same integer; from [2^53] on, different integers are the
    same double. *)

From Stdlib Require Import Floats.SpecFloat.
From stdpp Require Import prelude.
From S2P Require Import Prelude JsValue.

Local Open Scope Z_scope.

(** The doubles among the [spec_float]s: 53 bits of precision, exponents
    below 1024. *)
Definition is_double (x : number) : bool := valid_binary 53 1024 x.

(** [Number.isSafeInteger]. *)
Definition is_safe_integer (z : Z) : bool := bool_decide (Z.abs z < 2 ^ 53).

(** The integer a double is, when it is one ([Number.isInteger]). *)
Definition to_Z (x : number) : option Z :=
  match x with
  | S754_zero _ => Some 0
  | S754_finite s m e =>
      let n := if s then Z.neg m else Z.pos m in
      if 0 <=? e then Some (n * 2 ^ e)
      else if n mod 2 ^ (- e) =? 0 then Some (n / 2 ^ (- e)) else None
  | S754_infinity _ | S754_nan => None
  end.

(** ** Mantissas *)

Lemma iter_xO_Z (m k : positive) : Z.pos (Pos.iter xO m k) = Z.pos m * 2 ^ Z.pos k.
Proof.
  induction k as [|k IH] using Pos.peano_ind; [cbn; lia|].
  rewrite Pos.iter_succ, Pos2Z.inj_xO, IH, Pos2Z.inj_succ, Z.pow_succ_r; lia.
Qed.

Lemma digits2_pos_iter_xO (m k : positive) :
  digits2_pos (Pos.iter xO m k) = (digits2_pos m + k)%positive.
Proof.
  induction k as [|k IH] using Pos.peano_ind; [cbn; lia|].
  rewrite Pos.iter_succ. cbn. rewrite IH. lia.
Qed.

(** A mantissa of [d] digits is at least [2^(d-1)] and less than [2^d]. *)
Lemma digits2_pos_bounds (m : positive) :
  2 ^ (Z.pos (digits2_pos m) - 1) <= Z.pos m < 2 ^ Z.pos (digits2_pos m).
Proof.
  induction m as [m IH|m IH|]; cbn [digits2_pos]; [..|cbn; lia];
    rewrite Pos2Z.inj_succ, Z.pow_succ_r by lia;
    replace (Z.succ (Z.pos (digits2_pos m)) - 1) with (Z.succ (Z.pos (digits2_pos m) - 1))
      by lia;
    rewrite Z.pow_succ_r by lia; lia.
Qed.

Lemma digits2_pos_le (m : positive) n :
  0 <= n -> Z.pos m < 2 ^ n -> Z.pos (digits2_pos m) <= n.
Proof.
  intros Hn Hm. destruct (digits2_pos_bounds m) as [Hlow _].
  destruct (decide (Z.pos (digits2_pos m) <= n)) as [|Hgt]; [done|].
  assert (2 ^ n <= 2 ^ (Z.pos (digits2_pos m) - 1)); [|lia].
  apply Z.pow_le_mono_r; lia.
Qed.

(** ** The double of a safe integer *)

(** A mantissa below [2^53] is shifted left to 53 digits, exactly. *)
Lemma shl_align_safe (m : positive) :
  Z.pos m < 2 ^ 53 ->
  let d := Z.pos (digits2_pos m) in
  exists mz, shl_align m 0 (d - 53) = (mz, d - 53) /\
    Z.pos (digits2_pos mz) = 53 /\ Z.pos mz = Z.pos m * 2 ^ (53 - d).
Proof.
  intros Hm d. pose proof (digits2_pos_le m 53 ltac:(lia) Hm) as Hd. fold d in Hd.
  unfold shl_align. destruct (d - 53 - 0) as [|k|k] eqn:Hk; [|lia|].
  - exists m. replace (d - 53) with 0 by lia. replace (53 - d) with 0 by lia.
    split_and!; [done|lia|lia].
  - exists (Pos.iter xO m k). rewrite digits2_pos_iter_xO, iter_xO_Z.
    replace (53 - d) with (Z.pos k) by lia. split_and!; [done|lia|done].
Qed.

(** A mantissa of 53 digits with an exponent in range needs no rounding. *)
Lemma binary_round_aux_exact sx (mz : positive) ez :
  Z.pos (digits2_pos mz) = 53 -> -1074 <= ez <= 971 ->
  binary_round_aux 53 1024 sx (Z.pos mz) ez loc_Exact = S754_finite sx mz ez.
Proof.
  intros Hd He. unfold binary_round_aux, shr_fexp, fexp, emin. cbn [Zdigits2 shr_record_of_loc].
  rewrite Hd. replace (Z.max (53 + ez - 53) (3 - 1024 - 53) - ez) with 0 by lia.
  cbn [shr shr_m loc_of_shr_record round_nearest_even Zdigits2]. rewrite Hd.
  replace (Z.max (53 + ez - 53) (3 - 1024 - 53) - ez) with 0 by lia.
  cbn [shr shr_m]. by rewrite (proj2 (Z.leb_le ez (1024 - 53))) by lia.
Qed.

(** The double of a non-zero integer below [2^53]: its sign, a mantissa of
    53 digits and the exponent that makes it the integer. *)
Lemma binary_round_safe sx (m : positive) :
  Z.pos m < 2 ^ 53 ->
  exists mz e, binary_round 53 1024 sx m 0 = S754_finite sx mz e /\
    Z.pos (digits2_pos mz) = 53 /\ -52 <= e <= 0 /\ Z.pos mz = Z.pos m * 2 ^ (- e).
Proof.
  intros Hm. destruct (shl_align_safe m Hm) as (mz & Halign & Hd & Hmz).
  pose proof (digits2_pos_le m 53 ltac:(lia) Hm).
  exists mz, (Z.pos (digits2_pos m) - 53). unfold binary_round, fexp, emin.
  replace (Z.max (Z.pos (digits2_pos m) + 0 - 53) (3 - 1024 - 53))
    with (Z.pos (digits2_pos m) - 53) by lia.
  rewrite Halign, binary_round_aux_exact by lia.
  split_and!; [done..|lia|lia|]. rewrite Hmz. f_equal. f_equal. lia.
Qed.

Lemma of_Z_safe z :
  is_safe_integer z = true -> z <> 0 ->
  exists mz e, of_Z z = S754_finite (z <? 0) mz e /\
    Z.pos (digits2_pos mz) = 53 /\ -52 <= e <= 0 /\ Z.pos mz = Z.abs z * 2 ^ (- e).
Proof.
  intros Hz%bool_decide_eq_true Hnz. unfold of_Z, binary_normalize.
  destruct z as [|m|m]; [done|..]; by apply binary_round_safe.
Qed.

Lemma of_Z_0 : of_Z 0 = S754_zero false.
Proof. done. Qed.

(** The literal of a safe integer is a double. *)
Lemma of_Z_double z : is_safe_integer z = true -> is_double (of_Z z) = true.
Proof.
  intros Hz. destruct (decide (z = 0)) as [->|Hnz]; [done|].
  destruct (of_Z_safe z Hz Hnz) as (mz & e & -> & Hd & He & _).
  unfold is_double, valid_binary, bounded, canonical_mantissa, fexp, emin.
  rewrite Hd. apply andb_true_iff. split; [apply Z.eqb_eq|apply Z.leb_le]; lia.
Qed.

(** The integer can be read back from its literal. *)
Lemma to_Z_of_Z z : is_safe_integer z = true -> to_Z (of_Z z) = Some z.
Proof.
  intros Hz. destruct (decide (z = 0)) as [->|Hnz]; [done|].
  destruct (of_Z_safe z Hz Hnz) as (mz & e & -> & _ & He & Hmz).
  assert (0 < 2 ^ (- e)) by (apply Z.pow_pos_nonneg; lia).
  assert ((if z <? 0 then Z.neg mz else Z.pos mz) = z * 2 ^ (- e)) as Hn.
  { destruct (Z.ltb_spec z 0); [rewrite <- Pos2Z.opp_pos|]; lia. }
  unfold to_Z. rewrite Hn. destruct (Z.leb_spec 0 e).
  - replace e with 0 by lia. f_equal. lia.
  - by rewrite Z.mod_mul, Z.div_mul by lia.
Qed.

(** Two safe integers with the same literal are the same integer. *)
Lemma of_Z_inj a b :
  is_safe_integer a = true -> is_safe_integer b = true -> of_Z a = of_Z b -> a = b.
Proof.
  intros Ha%to_Z_of_Z Hb%to_Z_of_Z Heq. rewrite Heq, Hb in Ha. by injection Ha.
Qed.

Lemma of_Z_zero z : is_safe_integer z = true -> is_zero (of_Z z) = bool_decide (z = 0).
Proof.
  intros Hz. destruct (decide (z = 0)) as [->|Hnz]; [done|].
  destruct (of_Z_safe z Hz Hnz) as (mz & e & -> & _). by rewrite bool_decide_eq_false_2.
Qed.

(** On the literals of safe integers, [===] is the equality of the
    integers. *)
Lemma strict_eq_VInt a b :
  is_safe_integer a = true -> is_safe_integer b = true ->
  strict_eq (VInt a) (VInt b) = bool_decide (a = b).
Proof.
  intros Ha Hb. apply eq_true_iff_eq. rewrite strict_eq_spec, bool_decide_eq_true. split.
  - intros [[[= Heq] _]|(s & s' & [= Hza] & [= Hzb])]; [by apply of_Z_inj|].
    pose proof (of_Z_zero a Ha) as Hza'. pose proof (of_Z_zero b Hb) as Hzb'.
    rewrite Hza in Hza'. rewrite Hzb in Hzb'.
    apply eq_sym, bool_decide_eq_true in Hza', Hzb'. congruence.
  - intros ->. left. split; [done|]. intros [= Hnan].
    pose proof (of_Z_double b Hb) as Hd. destruct (decide (b = 0)) as [->|Hnz]; [done|].
    by destruct (of_Z_safe b Hb Hnz) as (mz & e & Hfin & _); rewrite Hfin in Hnan.
Qed.

(** A safe integer is truthy unless it is zero. *)
Lemma to_boolean_VInt z :
  is_safe_integer z = true -> to_boolean (VInt z) = negb (bool_decide (z = 0)).
Proof.
  intros Hz. destruct (decide (z = 0)) as [->|Hnz]; [done|].
  destruct (of_Z_safe z Hz Hnz) as (mz & e & -> & _). by rewrite bool_decide_eq_false_2.
Qed.

(** From [2^53] on, different integers have the same literal: [2^53 + 1]
    is not a double, and its literal is the double [2^53]. *)
Lemma of_Z_unsafe : of_Z (2 ^ 53 + 1) = of_Z (2 ^ 53).
Proof. evaluate. Qed.

