(* ===== verification/Stream.v ===== *)
(** * Stream: the Highland operators the transform is built from

    [batchBy] (highland-batch-by.ts, lines 11-26) is a chain of Highland
    stream operators: [scan], [last], [map] and [done] over the input
    stream, with callbacks that write to a second stream.  Highland itself
    is an npm dependency and not part of the repository; this file models
    the operators the code calls, from the library's documented behaviour:

    - a stream delivers [item]s: values, errors, and [nil] at its end;
    - every operator is a [consume] handler: it is given one item, pushes
      zero or more items downstream, and either asks for the next item or
      does not ([resume]);
    - streams are lazy: nothing upstream runs unless the consumer at the end
      of the chain asks for the next item, so when one operator stops, the
      whole chain stops and what was pushed but not delivered stays in a
      buffer for ever.

    A [stage] is such a handler with its private state; [pipe] chains two
    stages; [run] drives a chain over the items of a source.  Callbacks run
    in [eff W], where the world [W] holds whatever they mutate.

    The chain the program builds, [scan], [last], [map], [done], is
    [chain_of] for any three callbacks; [run_chain_of] proves that it is
    the loop [loop_of], which reads the source one item at a time. *)

From stdpp Require Import prelude.
From S2P Require Import Prelude.

(** What a Highland stream delivers: [(null, x)], [(err)] or [(null, nil)]. *)
Inductive item (E A : Type) : Type :=
| Val (a : A)
| Err (e : E)
| Nil.

Arguments Val {E A} a.
Arguments Err {E A} e.
Arguments Nil {E A}.

(** What a handler did with one item: the items it pushed, in order, and its
    next state if it called [next()], [None] if it did not. *)
Record reaction (E S B : Type) : Type := Reaction {
  pushed : list (item E B);
  resume : option S
}.

Arguments Reaction {E S B} pushed resume.
Arguments pushed {E S B} r.
Arguments resume {E S B} r.

(** An operator: what it does when the chain is started, and its handler. *)
Record stage (E W S A B : Type) : Type := Stage {
  start : eff W (reaction E S B);
  on_item : S -> item E A -> eff W (reaction E S B)
}.

Arguments Stage {E W S A B} start on_item.
Arguments start {E W S A B} s.
Arguments on_item {E W S A B} s.

(** Where an error that reaches the end of a chain goes: Highland emits an
    ['error'] event on the consumed stream, and with no listener Node throws
    it out of the chain. *)
Class ErrorSink (E W : Type) : Type := emit_error : E -> eff W unit.
#[global] Hint Mode ErrorSink - ! : typeclass_instances.

Section chains.
Context {E W : Type}.
Local Open Scope eff_scope.

Definition react {S B} (ps : list (item E B)) (s : option S) : eff W (reaction E S B) :=
  eff_ret (Reaction ps s).

(** ** Chains *)

(** Deliver items to a stage one by one, for as long as it asks for more. *)
Fixpoint feed {S A B} (st : stage E W S A B) (s : S) (its : list (item E A))
    : eff W (reaction E S B) :=
  match its with
  | [] => react [] (Some s)
  | i :: its' =>
      r <- on_item st s i ;;
      match resume r with
      | None => eff_ret r
      | Some s' =>
          r' <- feed st s' its' ;;
          react (pushed r ++ pushed r') (resume r')
      end
  end.

(** Both stages go on only if both asked for more. *)
Definition both {S1 S2} (o1 : option S1) (o2 : option S2) : option (S1 * S2) :=
  match o1, o2 with
  | Some s1, Some s2 => Some (s1, s2)
  | _, _ => None
  end.

(** [up] consumed by [down].  A push is a synchronous call in Highland: an
    item [up] pushes runs through everything downstream before [up] pushes
    its next one, and when the end of the chain stops asking, what [up] has
    still to push is never delivered.  So [down] stands for the whole rest
    of the chain: a chain [a.b().c().d()] is [pipe a (pipe b (pipe c d))]. *)
Definition pipe {S1 S2 A B C} (up : stage E W S1 A B) (down : stage E W S2 B C)
    : stage E W (S1 * S2) A C :=
  {| start :=
       r1 <- start up ;;
       r2 <- start down ;;
       match resume r2 with
       | None => react (pushed r2) None
       | Some s2 =>
           r2' <- feed down s2 (pushed r1) ;;
           react (pushed r2 ++ pushed r2') (both (resume r1) (resume r2'))
       end;
     on_item s i :=
       r1 <- on_item up s.1 i ;;
       r2 <- feed down s.2 (pushed r1) ;;
       react (pushed r2) (both (resume r1) (resume r2)) |}.

(** Start a chain and deliver the items of a source to it. *)
Definition run {S A B} (st : stage E W S A B) (src : list (item E A))
    : eff W (reaction E S B) :=
  r <- start st ;;
  match resume r with
  | None => eff_ret r
  | Some s =>
      r' <- feed st s src ;;
      react (pushed r ++ pushed r') (resume r')
  end.

End chains.

(** ** The operators

    They keep Highland's names, in a module of their own ([last] and [map]
    are also functions on lists). *)

Module Highland.
Section operators.
Context {E W : Type}.
Local Open Scope eff_scope.

(** [s.scan(z, f)]: emits [z], then every intermediate value of the fold.
    When [f] throws, the error is pushed followed by [nil], and the source
    is not read further. *)
Definition scan {A B} (z : B) (f : B -> A -> eff W (result E B)) : stage E W B A B :=
  {| start := react [Val z] (Some z);
     on_item memo i :=
       match i with
       | Nil => react [Nil] None
       | Err e => react [Err e] (Some memo)
       | Val x =>
           r <- f memo x ;;
           match r with
           | Ok memo' => react [Val memo'] (Some memo')
           | Throw e => react [Err e; Nil] None
           end
       end |}.

(** [s.last()]: holds the latest value and emits it at the end; errors pass. *)
Definition last {A} : stage E W (option A) A A :=
  {| start := react [] (Some None);
     on_item prev i :=
       match i with
       | Err e => react [Err e] (Some prev)
       | Nil => react (match prev with Some x => [Val x] | None => [] end ++ [Nil]) None
       | Val x => react [] (Some (Some x))
       end |}.

(** [s.map(f)]: applies [f] to every value; an exception of [f] becomes an
    error of the stream and the stream goes on. *)
Definition map {A B} (f : A -> eff W (result E B)) : stage E W unit A B :=
  {| start := react [] (Some tt);
     on_item _ i :=
       match i with
       | Err e => react [Err e] (Some tt)
       | Nil => react [Nil] None
       | Val x =>
           r <- f x ;;
           match r with
           | Ok y => react [Val y] (Some tt)
           | Throw e => react [Err e] (Some tt)
           end
       end |}.

(** [s.done(f)]: consumes the stream and calls [f] at its end.  The first
    error that arrives is emitted as an ['error'] event and nothing more is
    consumed: [f] is then never called. *)
Definition done `{ErrorSink E W} {A} (f : eff W unit) : stage E W unit A Empty_set :=
  {| start := react [] (Some tt);
     on_item _ i :=
       match i with
       | Err e => emit_error e ;; react [] None
       | Nil => f ;; react [] None
       | Val _ => react [] (Some tt)
       end |}.

(** A stream that has delivered the values [xs] and has not ended. *)
Definition pending {A} (xs : list A) : list (item E A) := Val <$> xs.

(** [highland(xs)]: the stream of the elements of an array, then [nil]. *)
Definition of_array {A} (xs : list A) : list (item E A) :=
  pending xs ++ [Nil].

(** [s.through(f)]: [f] applied to the stream. *)
Definition through {S T : Type} (f : S -> T) (s : S) : T := f s.

End operators.
End Highland.

(** Run a chain of concrete stages on one item: unfolds the stages and the
    plumbing between them, and stops at the callbacks. *)
Ltac stream_norm :=
  cbv beta iota zeta delta
    [on_item start pipe feed run eff_bind eff_ret eff_modify react resume pushed
     both fst snd app Highland.scan Highland.last Highland.map Highland.done].

(** ** The chain [scan], [last], [map], [done]

    The chain [s.scan(init, f).last().map(g).done(h)], for any three
    callbacks, and the loop it amounts to. *)

Section scan_last_map_done.
Context {E W TBatch TEntry : Type} `{!ErrorSink E W}.
Context (scan_cb : TBatch -> TEntry -> eff W (result E TBatch)).
Context (map_cb : TBatch -> eff W (result E unit)).
Context (done_cb : eff W unit).

Definition chain_of (init : TBatch) :=
  pipe (Highland.scan init scan_cb)
    (pipe Highland.last
       (pipe (Highland.map map_cb)
          (Highland.done done_cb))).

(** The state of the chain between two items: [scan] holds the batch, and
    [last] holds the same batch. *)
Definition between (batch : TBatch) : TBatch * (option TBatch * (unit * unit)) :=
  (batch, (Some batch, (tt, tt))).

(** One item at a time: fold a value with [scan_cb]; at an error of the
    source, or when a callback throws, emit the error and stop; at the end
    of the source run [map_cb] on the last value and then [done_cb]. *)
Fixpoint loop_of (batch : TBatch) (its : list (item E TEntry)) (w : W) : W :=
  match its with
  | [] => w
  | Val x :: its' =>
      let '(r, w1) := scan_cb batch x w in
      match r with
      | Ok batch' => loop_of batch' its' w1
      | Throw e => (emit_error e w1).2
      end
  | Err e :: _ => (emit_error e w).2
  | Nil :: _ =>
      let '(r, w1) := map_cb batch w in
      match r with
      | Ok _ => (done_cb w1).2
      | Throw e => (emit_error e w1).2
      end
  end.

End scan_last_map_done.

(** ** Laws of chains *)

Section laws.
Context {E W : Type}.
Implicit Types w : W.

Lemma feed_nil {S A B} (st : stage E W S A B) s w :
  feed st s [] w = (Reaction [] (Some s), w).
Proof. done. Qed.

(** Delivering one item. *)
Lemma feed_cons {S A B} (st : stage E W S A B) s i its w :
  feed st s (i :: its) w =
    let '(r, w1) := on_item st s i w in
    match resume r with
    | None => (r, w1)
    | Some s' =>
        let '(r', w2) := feed st s' its w1 in
        (Reaction (pushed r ++ pushed r') (resume r'), w2)
    end.
Proof.
  cbn. unfold eff_bind. destruct (on_item st s i w) as [r w1].
  destruct (resume r); [|done]. by destruct (feed st _ its w1).
Qed.

(** Delivering [its1 ++ its2] is delivering [its1], then [its2] if the
    stage still asks for more. *)
Lemma feed_app {S A B} (st : stage E W S A B) s its1 its2 w :
  feed st s (its1 ++ its2) w =
    let '(r, w1) := feed st s its1 w in
    match resume r with
    | None => (r, w1)
    | Some s' =>
        let '(r', w2) := feed st s' its2 w1 in
        (Reaction (pushed r ++ pushed r') (resume r'), w2)
    end.
Proof.
  revert s w. induction its1 as [|i its1 IH]; intros s w.
  - cbn. unfold react, eff_ret. by destruct (feed st s its2 w) as [[] ?].
  - rewrite <- app_comm_cons, !feed_cons.
    destruct (on_item st s i w) as [r w1].
    destruct (resume r) as [s'|] eqn:Hr; [|by rewrite Hr].
    rewrite IH. destruct (feed st s' its1 w1) as [r1 w2].
    destruct (resume r1) as [s''|] eqn:Hr1; cbn; [|by rewrite Hr1].
    destruct (feed st s'' its2 w2) as [r2 w3]. cbn. by rewrite app_assoc.
Qed.

(** A stage that has stopped stays stopped: the rest of the source is never
    looked at. *)
Lemma feed_stops {S A B} (st : stage E W S A B) s its1 its2 w r w' :
  feed st s its1 w = (r, w') -> resume r = None ->
  feed st s (its1 ++ its2) w = (r, w').
Proof. intros Hf Hr. by rewrite feed_app, Hf, Hr. Qed.

End laws.

(** ** The chain is the loop *)

Section chain_is_loop.
Context {E W TBatch TEntry : Type} `{!ErrorSink E W}.
Context (scan_cb : TBatch -> TEntry -> eff W (result E TBatch)).
Context (map_cb : TBatch -> eff W (result E unit)).
Context (done_cb : eff W unit).
Implicit Types w : W.

Local Abbreviation chain := (chain_of scan_cb map_cb done_cb).
Local Abbreviation loop := (loop_of scan_cb map_cb done_cb).

Lemma chain_of_start init w :
  start (chain init) w = (Reaction [] (Some (between init)), w).
Proof. done. Qed.

(** A value: the callback of [scan] runs; its result waits in [last]. *)
Lemma chain_of_on_val init batch x w :
  on_item (chain init) (between batch) (Val x) w =
    let '(r, w1) := scan_cb batch x w in
    match r with
    | Ok batch' => (Reaction [] (Some (between batch')), w1)
    | Throw e => (Reaction [] None, (emit_error e w1).2)
    end.
Proof.
  unfold chain_of, between. stream_norm.
  destruct (scan_cb batch x w) as [[batch'|e] w1]; [done|].
  by destruct (emit_error e w1).
Qed.

(** An error of the source goes down to [done]. *)
Lemma chain_of_on_err init batch e w :
  on_item (chain init) (between batch) (Err e) w =
    (Reaction [] None, (emit_error e w).2).
Proof. unfold chain_of, between. stream_norm. by destruct (emit_error e w). Qed.

(** The end of the source: [last] releases the batch, the callback of
    [map] runs on it, then the callback of [done]. *)
Lemma chain_of_on_nil init batch w :
  on_item (chain init) (between batch) Nil w =
    let '(r, w1) := map_cb batch w in
    (Reaction [] None,
     match r with
     | Ok _ => (done_cb w1).2
     | Throw e => (emit_error e w1).2
     end).
Proof.
  unfold chain_of, between. stream_norm.
  destruct (map_cb batch w) as [[[]|e] w1].
  - by destruct (done_cb w1).
  - by destruct (emit_error e w1).
Qed.

Lemma feed_chain_of init batch its w :
  (feed (chain init) (between batch) its w).2 = loop batch its w.
Proof.
  revert batch w. induction its as [|[x|e|] its IH]; intros batch w;
    [done|rewrite feed_cons..].
  - rewrite chain_of_on_val. cbn.
    destruct (scan_cb batch x w) as [[batch'|e] w1]; cbn; [|done].
    rewrite <- IH. by destruct (feed _ _ its _).
  - by rewrite chain_of_on_err.
  - rewrite chain_of_on_nil. cbn. by destruct (map_cb batch w) as [[] ?].
Qed.

(** The chain of stream operators computes what the loop computes, on every
    input and for every callback. *)
Lemma run_chain_of init its w :
  (run (chain init) its w).2 = loop init its w.
Proof.
  unfold run, eff_bind. rewrite chain_of_start. cbn.
  rewrite <- feed_chain_of with (init := init). by destruct (feed _ _ its _).
Qed.

End chain_is_loop.
