(* ===== verification/Operators.v ===== *)
(** * Operators: what the Highland operators compute

    The operators of [Stream] are handlers: they say what is pushed for one
    item.  This file says what each of them delivers for a whole array
    source when its callback is a function that does not throw, as the
    documentation of the library does:

    - [scan(z, f)] delivers [z] and then every intermediate value of the
      fold of [f] ([scanl]);
    - [last()] delivers the last value, if there is one;
    - [map(f)] delivers the image of every value;
    - [scan(z, f).last()] delivers the fold of [f] from [z], and [z] itself
      on an empty source,

    each followed by the end of the stream.  The examples of the
    documentation evaluate to the outputs it gives.  This is the behaviour
    [batchBy] relies on when it gives the value of [scan().last()] to
    [control.end]. *)

From stdpp Require Import prelude.
From S2P Require Import Prelude Stream.

(** The values a fold goes through, the first one included. *)
Fixpoint scanl {A B} (f : B -> A -> B) (z : B) (xs : list A) : list B :=
  z :: match xs with
       | [] => []
       | x :: xs' => scanl f (f z x) xs'
       end.

Section delivered.
Context {E W : Type}.
Implicit Types w : W.

(** A callback that is a function and does not throw. *)
Definition pure1 {A B} (f : A -> B) : A -> eff W (result E B) :=
  fun x => eff_ret (Ok (f x)).

Definition pure2 {A B} (f : B -> A -> B) : B -> A -> eff W (result E B) :=
  fun b x => eff_ret (Ok (f b x)).

(** What a chain pushes for a source, from the world [w]. *)
Definition delivers {S A B} (st : stage E W S A B) (src : list (item E A)) w
    : list (item E B) :=
  pushed (run st src w).1.

Lemma feed_scan {A B} (f : B -> A -> B) z (xs : list A) w :
  feed (Highland.scan z (pure2 f)) z (Highland.of_array xs) w =
    (Reaction ((Val <$> tail (scanl f z xs)) ++ [Nil]) None, w).
Proof.
  assert (forall memo, feed (Highland.scan z (pure2 f)) memo (Highland.of_array xs) w =
            (Reaction ((Val <$> tail (scanl f memo xs)) ++ [Nil]) None, w)) as Hfeed; [|done].
  induction xs as [|x xs IH]; intros memo; [done|].
  change (Highland.of_array (x :: xs)) with (Val (E := E) x :: Highland.of_array xs).
  rewrite feed_cons. cbn [on_item Highland.scan]. unfold pure2 at 1, react. unfold_eff.
  cbn [resume pushed]. rewrite IH. by destruct xs.
Qed.

Lemma feed_last {A} (prev : option A) (xs : list A) w :
  feed (Highland.last (E := E)) prev (Highland.of_array xs) w =
    (Reaction ((Val <$> option_list (last (option_list prev ++ xs))) ++ [Nil]) None, w).
Proof.
  revert prev. induction xs as [|x xs IH]; intros prev; [by destruct prev|].
  change (Highland.of_array (x :: xs)) with (Val (E := E) x :: Highland.of_array xs).
  rewrite feed_cons. cbn [on_item Highland.last]. unfold react, eff_ret.
  cbn [resume pushed app]. by rewrite IH, last_app_cons.
Qed.

Lemma feed_map {A B} (f : A -> B) (xs : list A) w :
  feed (Highland.map (pure1 f)) tt (Highland.of_array xs) w =
    (Reaction ((Val <$> (f <$> xs)) ++ [Nil]) None, w).
Proof.
  induction xs as [|x xs IH]; [done|].
  change (Highland.of_array (x :: xs)) with (Val (E := E) x :: Highland.of_array xs).
  rewrite feed_cons. cbn [on_item Highland.map]. unfold pure1 at 1, react. unfold_eff.
  cbn [resume pushed]. by rewrite IH.
Qed.

(** [highland(xs).scan(z, f)]. *)
Lemma delivers_scan {A B} (f : B -> A -> B) z (xs : list A) w :
  delivers (Highland.scan z (pure2 f)) (Highland.of_array xs) w =
    (Val <$> scanl f z xs) ++ [Nil].
Proof.
  unfold delivers, run. cbn [start Highland.scan]. unfold react. unfold_eff. cbn [resume pushed].
  rewrite feed_scan. by destruct xs.
Qed.

(** [highland(xs).last()]. *)
Lemma delivers_last {A} (xs : list A) w :
  delivers (Highland.last (E := E)) (Highland.of_array xs) w =
    (Val <$> option_list (last xs)) ++ [Nil].
Proof.
  unfold delivers, run. cbn [start Highland.last]. unfold react. unfold_eff. cbn [resume pushed].
  by rewrite feed_last.
Qed.

(** [highland(xs).map(f)]. *)
Lemma delivers_map {A B} (f : A -> B) (xs : list A) w :
  delivers (Highland.map (pure1 f)) (Highland.of_array xs) w = (Val <$> (f <$> xs)) ++ [Nil].
Proof.
  unfold delivers, run. cbn [start Highland.map]. unfold react. unfold_eff. cbn [resume pushed].
  by rewrite feed_map.
Qed.

(** [highland(xs).scan(z, f).last()]: the fold. *)
Lemma feed_scan_last {A B} (f : B -> A -> B) z memo (xs : list A) w :
  feed (pipe (Highland.scan z (pure2 f)) Highland.last) (memo, Some memo)
    (Highland.of_array xs) w =
    (Reaction [Val (foldl f memo xs); Nil] None, w).
Proof.
  revert memo. induction xs as [|x xs IH]; intros memo; [done|].
  change (Highland.of_array (x :: xs)) with (Val (E := E) x :: Highland.of_array xs).
  rewrite feed_cons.
  change (on_item (pipe (Highland.scan z (pure2 f)) Highland.last) (memo, Some memo) (Val x) w)
    with (Reaction (B := B) (E := E) [] (Some (f memo x, Some (f memo x))), w).
  cbn [resume pushed app]. by rewrite IH.
Qed.

Lemma delivers_scan_last {A B} (f : B -> A -> B) z (xs : list A) w :
  delivers (pipe (Highland.scan z (pure2 f)) Highland.last) (Highland.of_array xs) w =
    [Val (foldl f z xs); Nil].
Proof.
  unfold delivers, run.
  change (start (pipe (Highland.scan z (pure2 f)) Highland.last))
    with (eff_ret (W := W) (Reaction (E := E) (B := B) [] (Some (z, Some z)))).
  unfold_eff. cbn [resume pushed]. by rewrite feed_scan_last.
Qed.

End delivered.

(** ** The examples of the documentation of the library *)

(** [_([1, 2, 3, 4]).scan(0, add)] gives [0, 1, 3, 6, 10]. *)
Example scan_documented :
  delivers (E := Empty_set) (Highland.scan 0%Z (pure2 Z.add))
    (Highland.of_array [1; 2; 3; 4]%Z) tt =
    [Val 0; Val 1; Val 3; Val 6; Val 10; Nil]%Z.
Proof. reflexivity. Qed.

(** [_([1, 2, 3, 4]).last()] gives [4]. *)
Example last_documented :
  delivers (E := Empty_set) Highland.last (Highland.of_array [1; 2; 3; 4]%Z) tt =
    [Val 4; Nil]%Z.
Proof. reflexivity. Qed.

(** [_([1, 2, 3, 4]).map(x => x * 2)] gives [2, 4, 6, 8]. *)
Example map_documented :
  delivers (E := Empty_set) (Highland.map (pure1 (fun x => x * 2)%Z))
    (Highland.of_array [1; 2; 3; 4]%Z) tt =
    [Val 2; Val 4; Val 6; Val 8; Nil]%Z.
Proof. reflexivity. Qed.

(** ** Callbacks that throw *)

(** A callback that throws on the value [3]. *)
Definition add_but_3 (acc x : Z) : eff unit (result bool Z) :=
  eff_ret (if decide (x = 3%Z) then Throw true else Ok (acc + x)%Z).

(** [scan] delivers the error of its callback and ends the stream: the
    values after the one that made it throw are not folded. *)
Example scan_throws :
  delivers (Highland.scan 0%Z add_but_3) (Highland.of_array [1; 2; 3; 4]%Z) tt =
    [Val 0; Val 1; Val 3; Err true; Nil]%Z.
Proof. reflexivity. Qed.

(** [map] delivers the error of its callback and goes on. *)
Example map_throws :
  delivers (Highland.map (add_but_3 0)) (Highland.of_array [1; 2; 3; 4]%Z) tt =
    [Val 1; Val 2; Err true; Val 4; Nil]%Z.
Proof. reflexivity. Qed.

(** An error of the source passes through [scan] and [last], which go on. *)
Example source_error_passes :
  delivers (E := bool) (pipe (Highland.scan 0%Z (pure2 Z.add)) Highland.last)
    [Val 1; Err true; Val 2; Nil]%Z tt =
    [Err true; Val 3; Nil]%Z.
Proof. reflexivity. Qed.
