(* ===== verification/Control.v ===== *)
(** * Control: the batching policy contract

    [Control<TBatch, TEntry, TPushedBatch>] (highland-batch-by.ts, lines
    3-7) is the interface between the transform and a policy: three
    functions.  A JavaScript function may throw, so each returns a [result];
    [TPushedBatch | null] is an [option].

    The second half of the file is the contract of the transform as the
    specification words it (section 4.2): the sequence of batches a control
    asks to emit over a list of entries, in which a batch is emitted when it
    is present.  The transform ([BatchBy]) is compared with it. *)

From stdpp Require Import prelude.
From S2P Require Import Prelude.

(** The object [forEachEntry] returns (line 5). *)
Record step_result (TBatch TPushedBatch : Type) : Type := StepResult {
  batch_to_update : TBatch;
  batch_to_push : option TPushedBatch
}.

Arguments StepResult {TBatch TPushedBatch} batch_to_update batch_to_push.
Arguments batch_to_update {TBatch TPushedBatch} s.
Arguments batch_to_push {TBatch TPushedBatch} s.

(** The object [end] returns (line 6); its field is [batch_to_push] too. *)
Record end_result (TPushedBatch : Type) : Type := EndResult {
  end_batch_to_push : option TPushedBatch
}.

Arguments EndResult {TPushedBatch} end_batch_to_push.
Arguments end_batch_to_push {TPushedBatch} e.

(** The policy (lines 3-7).  [end_] is the source's [end]. *)
Record Control (E TBatch TEntry TPushedBatch : Type) : Type := {
  beginWith : unit -> result E TBatch;
  forEachEntry : TBatch -> TEntry -> result E (step_result TBatch TPushedBatch);
  end_ : TBatch -> result E (end_result TPushedBatch)
}.

Arguments beginWith {E TBatch TEntry TPushedBatch} c.
Arguments forEachEntry {E TBatch TEntry TPushedBatch} c.
Arguments end_ {E TBatch TEntry TPushedBatch} c.

(** ** Folding a list of entries through a control *)

Section fold.
Context {E TBatch TEntry TPushedBatch : Type}.
Implicit Types control : Control E TBatch TEntry TPushedBatch.

(** Fold the entries in order from a batch, collecting what [emit] makes of
    each [batch_to_push]; a failure of [forEachEntry] ends the fold.  The
    result is the collected batches and the last batch, or the failure. *)
Fixpoint fold_with (emit : option TPushedBatch -> list TPushedBatch)
    control (batch : TBatch) (entries : list TEntry)
    : list TPushedBatch * result E TBatch :=
  match entries with
  | [] => ([], Ok batch)
  | entry :: entries' =>
      match forEachEntry control batch entry with
      | Throw e => ([], Throw e)
      | Ok r =>
          let '(out, last) := fold_with emit control (batch_to_update r) entries' in
          (emit (batch_to_push r) ++ out, last)
      end
  end.

(** A control none of whose operations throws. *)
Definition total control : Prop :=
  is_ok (beginWith control tt) = true /\
  (forall b x, is_ok (forEachEntry control b x) = true) /\
  (forall b, is_ok (end_ control b) = true).

End fold.

(** ** The contract of the transform (specification, section 4.2) *)

(** What the output sequence carries in the end: the emitted batches in
    order, whether completion was signalled, and the failure on its error
    channel, if any. *)
Record outcome (E TPushedBatch : Type) : Type := Outcome {
  emitted : list TPushedBatch;
  completed : bool;
  failure : option E
}.

Arguments Outcome {E TPushedBatch} emitted completed failure.
Arguments emitted {E TPushedBatch} o.
Arguments completed {E TPushedBatch} o.
Arguments failure {E TPushedBatch} o.

Section contract.
Context {E TBatch TEntry TPushedBatch : Type}.
Implicit Types control : Control E TBatch TEntry TPushedBatch.

(** "If [batch_to_push] is present, emit it." *)
Definition present (o : option TPushedBatch) : list TPushedBatch :=
  match o with
  | Some b => [b]
  | None => []
  end.

(** Step 2: every entry in order, emitting what is present. *)
Definition spec_entries control (batch : TBatch) (entries : list TEntry)
    : list TPushedBatch * result E TBatch :=
  fold_with present control batch entries.

(** Steps 1-4 with the failure semantics: a failure goes to the error
    channel of the output, after the batches emitted before it. *)
Definition spec_run control (entries : list TEntry) : outcome E TPushedBatch :=
  match beginWith control tt with
  | Throw e => Outcome [] false (Some e)
  | Ok batch =>
      match spec_entries control batch entries with
      | (out, Throw e) => Outcome out false (Some e)
      | (out, Ok last) =>
          match end_ control last with
          | Throw e => Outcome out false (Some e)
          | Ok r => Outcome (out ++ present (end_batch_to_push r)) true None
          end
      end
  end.

End contract.

Section fold_laws.
Context {E TBatch TEntry TPushedBatch : Type}.
Context (emit : option TPushedBatch -> list TPushedBatch).
Implicit Types control : Control E TBatch TEntry TPushedBatch.

(** The fold over [xs ++ ys] is the fold over [xs], continued over [ys]. *)
Lemma fold_with_app control batch xs ys :
  fold_with emit control batch (xs ++ ys) =
    match fold_with emit control batch xs with
    | (out, Throw e) => (out, Throw e)
    | (out, Ok b) =>
        let '(out', last) := fold_with emit control b ys in (out ++ out', last)
    end.
Proof.
  revert batch. induction xs as [|x xs IH]; intros batch; cbn.
  - by destruct (fold_with emit control batch ys).
  - case_result; [|done].
    rewrite IH. destruct (fold_with emit control _ xs) as [out [b|e]]; [|done].
    destruct (fold_with emit control b ys). by rewrite app_assoc.
Qed.

(** Two ways of emitting that agree on every batch give the same fold. *)
Lemma fold_with_ext emit' control batch xs :
  (forall o, emit o = emit' o) ->
  fold_with emit control batch xs = fold_with emit' control batch xs.
Proof.
  intros Hemit. revert batch. induction xs as [|x xs IH]; intros batch; cbn; [done|].
  case_result; [|done]. by rewrite IH, Hemit.
Qed.

(** At most one batch per entry, when [emit] yields at most one. *)
Lemma fold_with_length control batch xs :
  (forall o, length (emit o) <= 1) ->
  length (fold_with emit control batch xs).1 <= length xs.
Proof.
  intros Hemit. revert batch. induction xs as [|x xs IH]; intros batch; cbn; [done|].
  destruct (forEachEntry control batch x) as [r|e]; cbn; [|lia].
  specialize (IH (batch_to_update r)).
  destruct (fold_with emit control (batch_to_update r) xs) as [out last]; cbn in *.
  rewrite length_app. specialize (Hemit (batch_to_push r)). lia.
Qed.

(** A total control never fails. *)
Lemma fold_with_total control batch xs :
  total control -> is_ok (fold_with emit control batch xs).2 = true.
Proof.
  intros (_ & Hstep & _). revert batch.
  induction xs as [|x xs IH]; intros batch; cbn; [done|].
  specialize (Hstep batch x). destruct (forEachEntry control batch x) as [r|e]; [|done].
  specialize (IH (batch_to_update r)).
  by destruct (fold_with emit control (batch_to_update r) xs).
Qed.

End fold_laws.

Lemma present_length {T} (o : option T) : length (present o) <= 1.
Proof. destruct o; cbn; lia. Qed.
