(* ===== verification/BatchBy.v ===== *)
(** * BatchBy: the transform

    [batchBy(control)] (highland-batch-by.ts, lines 9-30) creates an output
    stream, chains [scan], [last], [map] and [done] over the input stream
    and returns the output stream; the callbacks of the chain write to it.

    The model is the chain itself, built from the stages of [Stream] with
    the three callbacks of the source ([scan_callback], [map_callback],
    [done_callback]) running over a [world] that records the calls made on
    the output stream, in order.  The same code is modelled a second time
    as the loop it amounts to ([drive]), and the two are proved equal for
    every input ([run_chain], from the general fact [run_chain_of] of
    [Stream]): all later theorems go through the loop. *)

From stdpp Require Import prelude.
From S2P Require Import Prelude JsValue Stream Control.

(** A call on [output_stream]: [write(x)] or [end()]. *)
Inductive out_call (T : Type) : Type :=
| CallWrite (x : T)
| CallEnd.

Arguments CallWrite {T} x.
Arguments CallEnd {T}.

(** What the callbacks mutate: the calls on the output stream so far, and
    the error that escaped the chain, if one did. *)
Record world (E T : Type) : Type := World {
  calls : list (out_call T);
  escaped : option E
}.

Arguments World {E T} calls escaped.
Arguments calls {E T} w.
Arguments escaped {E T} w.

(** A promise, as its caller sees it in the end. *)
Inductive promise (T : Type) : Type :=
| Resolved (v : T)
| Unsettled.

Arguments Resolved {T} v.
Arguments Unsettled {T}.

Section world.
Context {E T : Type}.
Implicit Types w : world E T.

(** [const output_stream = highland()] (line 11). *)
Definition fresh : world E T := World [] None.

Definition call (c : out_call T) w : world E T :=
  World (calls w ++ [c]) (escaped w).

(** [output_stream.write(x)]. *)
Definition write (x : T) : eff (world E T) unit := eff_modify (call (CallWrite x)).

(** [output_stream.end()]. *)
Definition end_stream : eff (world E T) unit := eff_modify (call CallEnd).

(** An error that reaches [done]: nothing listens, so it escapes. *)
#[export] Instance world_sink : ErrorSink E (world E T) :=
  fun e => eff_modify (fun w => World (calls w) (Some e)).

(** The batches the output stream was given, in order. *)
Definition written w : list T :=
  omap (fun c => match c with CallWrite x => Some x | CallEnd => None end) (calls w).

(** Whether the output stream was ended. *)
Definition ended w : bool :=
  existsb (fun c => match c with CallEnd => true | CallWrite _ => false end) (calls w).

(** What [output_stream.collect().toPromise(Promise)] gives its caller: the
    promise resolves with the array of the values written once the stream
    has ended, and it is rejected by an error of the stream; the output
    stream is never given one, so until it ends the promise stays
    unsettled. *)
Definition collect_to_promise w : promise (list T) :=
  if ended w then Resolved (written w) else Unsettled.

End world.

Section batchBy.
Context {E TBatch TEntry TPushedBatch : Type} `{Truthy TPushedBatch}.
Implicit Types control : Control E TBatch TEntry TPushedBatch.
Implicit Types w : world E TPushedBatch.
Local Open Scope eff_scope.

(** [if (b) output_stream.write(b)] and [b && output_stream.write(b)]. *)
Definition write_if_truthy (b : option TPushedBatch) : eff (world E TPushedBatch) unit :=
  match b with
  | Some x => if truthy x then write x else eff_ret tt
  | None => eff_ret tt
  end.

(** The callback of [scan] (lines 12-18). *)
Definition scan_callback control (batch : TBatch) (entry : TEntry)
    : eff (world E TPushedBatch) (result E TBatch) :=
  match forEachEntry control batch entry with
  | Throw e => eff_ret (Throw e)
  | Ok result =>
      write_if_truthy (batch_to_push result) ;;
      eff_ret (Ok (batch_to_update result))
  end.

(** The callback of [map] (lines 20-23); it returns nothing. *)
Definition map_callback control (last_batch : TBatch)
    : eff (world E TPushedBatch) (result E unit) :=
  match end_ control last_batch with
  | Throw e => eff_ret (Throw e)
  | Ok result =>
      write_if_truthy (end_batch_to_push result) ;;
      eff_ret (Ok tt)
  end.

(** The callback of [done] (lines 24-26). *)
Definition done_callback : eff (world E TPushedBatch) unit := end_stream.

(** The chain of lines 12-26 over an initial batch. *)
Definition chain control (init : TBatch) :=
  pipe (Highland.scan init (scan_callback control))
    (pipe Highland.last
       (pipe (Highland.map (map_callback control))
          (Highland.done done_callback))).

(** [batchBy(control)(object_stream)] (lines 9-30): the world after the
    chain has run over what the input stream delivers.  [beginWith] is
    called while the chain is being built: if it throws, so does the
    transform. *)
Definition batchBy control (object_stream : list (item E TEntry))
    : result E (world E TPushedBatch) :=
  match beginWith control tt with
  | Throw e => Throw e
  | Ok init => Ok (run (chain control init) object_stream fresh).2
  end.

(** ** The same code as a loop *)

(** The batches a callback writes for one [batch_to_push]. *)
Definition truthy_batch (b : option TPushedBatch) : list TPushedBatch :=
  match b with
  | Some x => if truthy x then [x] else []
  | None => []
  end.

(** The writes of [bs], then [cs], appended to the calls of [w]. *)
Definition add_calls (bs : list TPushedBatch) (cs : list (out_call TPushedBatch))
    (err : option E) w : world E TPushedBatch :=
  World (calls w ++ (CallWrite <$> bs) ++ cs) (from_option Some (escaped w) err).

(** What the chain does with the items of the input, one at a time: fold a
    value into the batch and write what the control pushes; at an error, or
    when the control throws, let the error escape and stop; at the end of
    the input call [end], write what it pushes and end the output. *)
Fixpoint drive control (batch : TBatch) (its : list (item E TEntry)) w
    : world E TPushedBatch :=
  match its with
  | [] => w
  | Val entry :: its' =>
      match forEachEntry control batch entry with
      | Throw e => add_calls [] [] (Some e) w
      | Ok r =>
          drive control (batch_to_update r) its'
            (add_calls (truthy_batch (batch_to_push r)) [] None w)
      end
  | Err e :: _ => add_calls [] [] (Some e) w
  | Nil :: _ =>
      match end_ control batch with
      | Throw e => add_calls [] [] (Some e) w
      | Ok r => add_calls (truthy_batch (end_batch_to_push r)) [CallEnd] None w
      end
  end.

(** The fold [scan] performs with its callback (lines 12-18): the batches
    written along the way and the last batch, or the failure. *)
Definition fold_entries control (batch : TBatch) (entries : list TEntry)
    : list TPushedBatch * result E TBatch :=
  fold_with truthy_batch control batch entries.

End batchBy.

(** ** The chain is the loop *)

Section chain_is_loop.
Context {E TBatch TEntry TPushedBatch : Type} `{Truthy TPushedBatch}.
Implicit Types control : Control E TBatch TEntry TPushedBatch.
Implicit Types w : world E TPushedBatch.

Lemma add_calls_nil w : add_calls [] [] None w = w.
Proof. destruct w. unfold add_calls; cbn. by rewrite app_nil_r. Qed.

Lemma write_if_truthy_eq (b : option TPushedBatch) w :
  write_if_truthy b w = (tt, add_calls (truthy_batch b) [] None w).
Proof.
  destruct b as [x|]; cbn; [destruct (truthy x)|]; cbn;
    by rewrite ?add_calls_nil.
Qed.

Lemma scan_callback_eq control batch entry w :
  scan_callback control batch entry w =
    match forEachEntry control batch entry with
    | Throw e => (Throw e, w)
    | Ok r => (Ok (batch_to_update r), add_calls (truthy_batch (batch_to_push r)) [] None w)
    end.
Proof.
  unfold scan_callback. case_result; [|done].
  unfold_eff. by rewrite write_if_truthy_eq.
Qed.

Lemma map_callback_eq control batch w :
  map_callback control batch w =
    match end_ control batch with
    | Throw e => (Throw e, w)
    | Ok r => (Ok tt, add_calls (truthy_batch (end_batch_to_push r)) [] None w)
    end.
Proof.
  unfold map_callback. case_result; [|done].
  unfold_eff. by rewrite write_if_truthy_eq.
Qed.

(** An error that escapes, as the loop records it. *)
Lemma emit_error_eq e w : (emit_error e w).2 = add_calls [] [] (Some e) w.
Proof. unfold add_calls; cbn. by rewrite app_nil_r. Qed.

(** The loop of the chain ([loop_of]) with the callbacks of the source is
    [drive]. *)
Lemma loop_drive control batch its w :
  loop_of (scan_callback control) (map_callback control) done_callback batch its w =
    drive control batch its w.
Proof.
  revert batch w. induction its as [|[entry|e|] its IH]; intros batch w; cbn [loop_of drive].
  - done.
  - rewrite scan_callback_eq. case_result; [apply IH|apply emit_error_eq].
  - apply emit_error_eq.
  - rewrite map_callback_eq. case_result; [|apply emit_error_eq].
    unfold done_callback, end_stream, eff_modify, call, add_calls; cbn.
    by rewrite app_nil_r, <- app_assoc.
Qed.

(** The chain of stream operators computes what the loop computes, on every
    input and for every control. *)
Lemma run_chain control init its :
  (run (chain control init) its fresh).2 = drive control init its fresh.
Proof.
  change (chain control init)
    with (chain_of (scan_callback control) (map_callback control) done_callback init).
  by rewrite run_chain_of, loop_drive.
Qed.

End chain_is_loop.

(** ** The loop over a list of entries *)

Section loop.
Context {E TBatch TEntry TPushedBatch : Type} `{Truthy TPushedBatch}.
Implicit Types control : Control E TBatch TEntry TPushedBatch.
Implicit Types w : world E TPushedBatch.

Lemma add_calls_add_calls bs bs' cs err w :
  add_calls bs cs err (add_calls bs' [] None w) = add_calls (bs' ++ bs) cs err w.
Proof.
  unfold add_calls; cbn. by rewrite app_nil_r, fmap_app, <- !app_assoc.
Qed.

Lemma add_calls_fresh bs cs err :
  add_calls bs cs err (fresh : world E TPushedBatch) = World ((CallWrite <$> bs) ++ cs) err.
Proof. by destruct err. Qed.

Lemma truthy_batch_length (o : option TPushedBatch) : length (truthy_batch o) <= 1.
Proof. destruct o as [x|]; cbn; [destruct (truthy x)|]; cbn; lia. Qed.

(** When every value is an object, a batch is written as soon as it is
    present. *)
Lemma truthy_batch_present `{!AlwaysTruthy TPushedBatch} (o : option TPushedBatch) :
  truthy_batch o = present o.
Proof. destruct o as [x|]; cbn; [|done]. by rewrite always_truthy. Qed.

(** The loop over values, then the rest of the input. *)
Lemma drive_pending_app control batch xs its w :
  drive control batch (Highland.pending xs ++ its) w =
    match fold_entries control batch xs with
    | (out, Throw e) => add_calls out [] (Some e) w
    | (out, Ok last) => drive control last its (add_calls out [] None w)
    end.
Proof.
  unfold fold_entries. revert batch w.
  induction xs as [|x xs IH]; intros batch w; cbn.
  - by rewrite add_calls_nil.
  - destruct (forEachEntry control batch x) as [r|e]; [|done].
    rewrite IH. destruct (fold_with _ control (batch_to_update r) xs) as [out [b|e]];
      by rewrite add_calls_add_calls.
Qed.

Lemma drive_pending control batch xs w :
  drive control batch (Highland.pending xs) w =
    add_calls (fold_entries control batch xs).1 []
      (res_error (fold_entries control batch xs).2) w.
Proof.
  rewrite <- (app_nil_r (Highland.pending xs)), drive_pending_app.
  by destruct (fold_entries control batch xs) as [out [b|e]].
Qed.

Lemma drive_of_array control batch xs w :
  drive control batch (Highland.of_array xs) w =
    match fold_entries control batch xs with
    | (out, Throw e) => add_calls out [] (Some e) w
    | (out, Ok last) =>
        match end_ control last with
        | Throw e => add_calls out [] (Some e) w
        | Ok r => add_calls (out ++ truthy_batch (end_batch_to_push r)) [CallEnd] None w
        end
    end.
Proof.
  unfold Highland.of_array. rewrite drive_pending_app.
  destruct (fold_entries control batch xs) as [out [b|e]]; [|done]. cbn.
  destruct (end_ control b); by rewrite add_calls_add_calls, ?app_nil_r.
Qed.

(** On a run in which every batch the control asks to emit is truthy, the
    code's fold is the contract's. *)
Lemma fold_entries_spec control batch xs :
  Forall (fun b => truthy b = true) (spec_entries control batch xs).1 ->
  fold_entries control batch xs = spec_entries control batch xs.
Proof.
  unfold fold_entries, spec_entries. revert batch.
  induction xs as [|x xs IH]; intros batch; cbn; [done|].
  destruct (forEachEntry control batch x) as [r|e]; [|done].
  specialize (IH (batch_to_update r)).
  destruct (fold_with present control (batch_to_update r) xs) as [out last]; cbn in *.
  rewrite Forall_app. intros [Hr Hout]. rewrite (IH Hout). f_equal. f_equal.
  destruct (batch_to_push r) as [b|]; cbn in *; [|done].
  by rewrite (Forall_inv Hr).
Qed.

(** What is written for a [batch_to_push] is what is present and truthy. *)
Lemma truthy_batch_filter (o : option TPushedBatch) :
  truthy_batch o = filter (fun b => truthy b) (present o).
Proof.
  destruct o as [x|]; [|done]. unfold truthy_batch, present.
  rewrite filter_cons, filter_nil. by destruct (truthy x).
Qed.

(** In general the code's fold keeps the truthy batches of the contract's
    fold, and ends as it does. *)
Lemma fold_entries_filter control batch xs :
  fold_entries control batch xs =
    (filter (fun b => truthy b) (spec_entries control batch xs).1,
     (spec_entries control batch xs).2).
Proof.
  unfold fold_entries, spec_entries. revert batch.
  induction xs as [|x xs IH]; intros batch; cbn; [done|].
  destruct (forEachEntry control batch x) as [r|e]; [|done].
  rewrite IH. destruct (fold_with present control (batch_to_update r) xs) as [out last].
  cbn. by rewrite filter_app, truthy_batch_filter.
Qed.

End loop.

(** ** What the loop leaves in the world *)

Section shape.
Context {E TBatch TEntry TPushedBatch : Type} `{Truthy TPushedBatch}.
Implicit Types control : Control E TBatch TEntry TPushedBatch.
Implicit Types w : world E TPushedBatch.

Lemma written_add_calls bs err :
  written (World (CallWrite <$> bs) err : world E TPushedBatch) = bs.
Proof. unfold written; cbn. induction bs; cbn; by f_equal. Qed.

Lemma written_add_calls_end bs err :
  written (World ((CallWrite <$> bs) ++ [CallEnd]) err : world E TPushedBatch) = bs.
Proof.
  unfold written; cbn. rewrite omap_app; cbn. rewrite app_nil_r.
  apply (written_add_calls bs err).
Qed.

Lemma ended_add_calls bs err :
  ended (World (CallWrite <$> bs) err : world E TPushedBatch) = false.
Proof. unfold ended; cbn. by induction bs. Qed.

Lemma ended_add_calls_end bs err :
  ended (World ((CallWrite <$> bs) ++ [CallEnd]) err : world E TPushedBatch) = true.
Proof. unfold ended; cbn. rewrite existsb_app; cbn. apply orb_true_r. Qed.

(** Whatever the control and the input, the loop only adds to the world:
    some writes, at most one per item, and then either nothing more, or the
    end of the output and no error. *)
Lemma drive_adds control batch its w :
  exists bs cs err,
    drive control batch its w = add_calls bs cs err w /\
    length bs <= length its /\
    (cs = [] \/ cs = [CallEnd] /\ err = None).
Proof.
  revert batch w. induction its as [|[x|e|] its IH]; intros batch w; cbn.
  - exists [], [], None. rewrite add_calls_nil. auto.
  - destruct (forEachEntry control batch x) as [r|e].
    + destruct (IH (batch_to_update r)
        (add_calls (truthy_batch (batch_to_push r)) [] None w))
        as (bs & cs & err & -> & Hlen & Hcs).
      exists (truthy_batch (batch_to_push r) ++ bs), cs, err.
      rewrite add_calls_add_calls, length_app.
      pose proof (truthy_batch_length (batch_to_push r)). split_and!; [done|lia|done].
    + exists [], [], (Some e). cbn. split_and!; [done|lia|auto].
  - exists [], [], (Some e). cbn. split_and!; [done|lia|auto].
  - destruct (end_ control batch) as [r|e].
    + exists (truthy_batch (end_batch_to_push r)), [CallEnd], None.
      pose proof (truthy_batch_length (end_batch_to_push r)). cbn. split_and!; [done|lia|auto].
    + exists [], [], (Some e). cbn. split_and!; [done|lia|auto].
Qed.

(** The calls of the loop from a fresh output stream: writes, then at most
    one end, and then no error has escaped. *)
Lemma drive_wellformed control init its :
  let w := drive control init its fresh in
  calls w = (CallWrite <$> written w) ++ (if ended w then [CallEnd] else []) /\
  (ended w = true -> escaped w = None).
Proof.
  cbv zeta.
  destruct (drive_adds control init its fresh) as (bs & cs & err & -> & _ & Hcs).
  rewrite add_calls_fresh.
  destruct Hcs as [->|[-> ->]];
    by rewrite ?app_nil_r, ?written_add_calls, ?ended_add_calls, ?written_add_calls_end,
         ?ended_add_calls_end, ?app_nil_r.
Qed.

(** The transform succeeds exactly when [beginWith] does, and its world is
    then the loop's. *)
Lemma batchBy_ok control its init :
  beginWith control tt = Ok init ->
  batchBy control its = Ok (drive control init its fresh).
Proof. intros Hinit. unfold batchBy. by rewrite Hinit, run_chain. Qed.

Lemma batchBy_inv control its w :
  batchBy control its = Ok w ->
  exists init, beginWith control tt = Ok init /\ w = drive control init its fresh.
Proof.
  unfold batchBy. destruct (beginWith control tt) as [init|]; [|done].
  rewrite run_chain. intros [= <-]. by exists init.
Qed.

End shape.

#[export] Hint Rewrite @add_calls_nil @add_calls_fresh @add_calls_add_calls
  @written_add_calls @written_add_calls_end @ended_add_calls @ended_add_calls_end : batch.

(** ** Theorems about the transform *)

Section theorems.
Context {E TBatch TEntry TPushedBatch : Type} `{Truthy TPushedBatch}.
Implicit Types control : Control E TBatch TEntry TPushedBatch.
Implicit Types w : world E TPushedBatch.

(** C1.  The chain of Highland operators of lines 12-26 ([scan], [last],
    [map], [done] with their callbacks) is the sequential loop [drive]: for
    every control and every input, errors of the input and failures of the
    control included, [batchBy] leaves the output stream in the state the
    loop leaves it in, and throws when [beginWith] throws. *)
Theorem batchBy_is_loop control its :
  batchBy control its =
    res_map (fun init => drive control init its fresh) (beginWith control tt).
Proof.
  unfold batchBy, res_map. destruct (beginWith control tt); [|done].
  by rewrite run_chain.
Qed.

(** C3.  On a finite input on which no operation of the control fails and
    every batch it asks to emit is truthy, the transform meets the contract
    of the specification: the output stream is written the batches of
    [spec_run], in order, then ended, and no error escapes. *)
Theorem batchBy_meets_contract control xs :
  failure (spec_run control xs) = None ->
  Forall (fun b => truthy b = true) (emitted (spec_run control xs)) ->
  batchBy control (Highland.of_array xs) =
    Ok (World ((CallWrite <$> emitted (spec_run control xs)) ++ [CallEnd]) None).
Proof.
  unfold spec_run. destruct (beginWith control tt) as [init|] eqn:Hinit; [|done].
  rewrite (batchBy_ok _ _ _ Hinit), drive_of_array.
  destruct (spec_entries control init xs) as [out [last|]] eqn:Hspec; [|done].
  destruct (end_ control last) as [r|] eqn:Hend; [cbn|done].
  rewrite Forall_app. intros _ [Hout Hr].
  rewrite fold_entries_spec, Hspec, Hend by by rewrite Hspec.
  rewrite add_calls_fresh. do 4 f_equal.
  destruct (end_batch_to_push r) as [b|]; cbn in *; [|done].
  by rewrite (Forall_inv Hr).
Qed.

(** C6.  When an operation of the control fails after [beginWith], the
    batches written are those the contract emits before the failure and
    nothing is written after it; the output stream is not ended, and the
    failure is not delivered on the output stream: it escapes the chain. *)
Theorem batchBy_failure_stops control xs init e :
  beginWith control tt = Ok init ->
  failure (spec_run control xs) = Some e ->
  Forall (fun b => truthy b = true) (emitted (spec_run control xs)) ->
  batchBy control (Highland.of_array xs) =
    Ok (World (CallWrite <$> emitted (spec_run control xs)) (Some e)).
Proof.
  intros Hinit. rewrite (batchBy_ok _ _ _ Hinit), drive_of_array.
  unfold spec_run. rewrite Hinit.
  destruct (spec_entries control init xs) as [out [last|e']] eqn:Hspec.
  - destruct (end_ control last) as [r|e'] eqn:Hend; [done|]. cbn.
    intros [= ->] Hout. rewrite fold_entries_spec, Hspec, Hend by by rewrite Hspec.
    by rewrite add_calls_fresh, app_nil_r.
  - cbn. intros [= ->] Hout. rewrite fold_entries_spec, Hspec by by rewrite Hspec.
    by rewrite add_calls_fresh, app_nil_r.
Qed.

(** C9.  Whatever the control and the input, the calls on the output stream
    are writes followed by at most one [end()]: nothing is written after
    the end, the stream is ended at most once, and when it is ended no error
    has escaped. *)
Theorem batchBy_calls_wellformed control its w :
  batchBy control its = Ok w ->
  calls w = (CallWrite <$> written w) ++ (if ended w then [CallEnd] else []) /\
  (ended w = true -> escaped w = None).
Proof.
  intros (init & _ & ->)%batchBy_inv. apply drive_wellformed.
Qed.

(** C7.  A batch the control asks to emit is written only when it is truthy
    (lines 14 and 22 test the value, not its presence): on every finite
    input, failing or not, what is written is the truthy part of what the
    contract emits.  A pushed batch that is [0], the empty string, [false]
    or [NaN] is silently dropped. *)
Theorem batchBy_writes_truthy control xs w :
  batchBy control (Highland.of_array xs) = Ok w ->
  written w = filter (fun b => truthy b) (emitted (spec_run control xs)).
Proof.
  intros (init & Hinit & ->)%batchBy_inv. unfold spec_run. rewrite Hinit.
  rewrite drive_of_array, fold_entries_filter.
  destruct (spec_entries control init xs) as [out [last|e]]; cbn [fst snd].
  - case_result; cbn [emitted]; batch_simpl; [|done].
    by rewrite filter_app, truthy_batch_filter.
  - by batch_simpl.
Qed.

(** C36.  When [forEachEntry] or [end] throws, a caller that collects the
    output stream into a promise waits for ever: the promise is neither
    resolved nor rejected, whatever was written before the failure. *)
Theorem batchBy_failure_unsettled control xs init e :
  beginWith control tt = Ok init ->
  failure (spec_run control xs) = Some e ->
  res_map collect_to_promise (batchBy control (Highland.of_array xs)) = Ok Unsettled.
Proof.
  intros Hinit. rewrite (batchBy_ok _ _ _ Hinit), drive_of_array, fold_entries_filter.
  unfold spec_run, res_map, collect_to_promise. rewrite Hinit.
  destruct (spec_entries control init xs) as [out [last|e']]; cbn [fst snd].
  - case_result; [done|]. by batch_simpl.
  - by batch_simpl.
Qed.

(** At most one batch is written per item of the input: one per entry,
    and one at the end of the input. *)
Lemma batchBy_at_most_one_per_item control its w :
  batchBy control its = Ok w ->
  length (written w) <= length its.
Proof.
  intros (init & _ & ->)%batchBy_inv.
  destruct (drive_adds control init its fresh) as (bs & cs & err & -> & Hlen & Hcs).
  destruct Hcs as [->|[-> ->]]; by batch_simpl.
Qed.

(** C39.  As long as the input has not ended, the output is not ended and
    [end] has had no effect: what is written is exactly what [forEachEntry]
    pushed for the entries delivered so far. *)
Theorem batchBy_pending control xs w :
  batchBy control (Highland.pending xs) = Ok w ->
  ended w = false /\
  exists init, beginWith control tt = Ok init /\
    written w = (fold_entries control init xs).1.
Proof.
  intros (init & Hinit & ->)%batchBy_inv. rewrite drive_pending. batch_simpl. eauto.
Qed.

(** Emission is incremental: what has been written after a prefix of
    the input stays, in the same order, at the head of what is written
    after any continuation of the input. *)
Lemma batchBy_incremental control xs its w w' :
  batchBy control (Highland.pending xs) = Ok w ->
  batchBy control (Highland.pending xs ++ its) = Ok w' ->
  written w `prefix_of` written w'.
Proof.
  intros (init & Hinit & ->)%batchBy_inv (init' & Hinit' & ->)%batchBy_inv.
  assert (init' = init) as -> by congruence.
  rewrite drive_pending, drive_pending_app.
  destruct (fold_entries control init xs) as [out [last|e]]; [|done].
  destruct (drive_adds control last its (add_calls out [] None fresh))
    as (bs & cs & err & -> & _ & Hcs).
  cbn [fst snd res_error]. exists bs.
  destruct Hcs as [->|[-> ->]]; by batch_simpl.
Qed.

(** An error of the input stream stops the transform where it is: the
    entries after it are not folded, [end] is not called, the output is not
    ended, and the error escapes. *)
Lemma batchBy_source_error control xs e its init :
  beginWith control tt = Ok init ->
  is_ok (fold_entries control init xs).2 = true ->
  batchBy control (Highland.pending xs ++ Err e :: its) =
    Ok (World (CallWrite <$> (fold_entries control init xs).1) (Some e)).
Proof.
  intros Hinit Hfold. rewrite (batchBy_ok _ _ _ Hinit), drive_pending_app.
  destruct (fold_entries control init xs) as [out [last|e']]; [|done]. cbn.
  unfold add_calls; cbn. by rewrite !app_nil_r.
Qed.

End theorems.
