(* ===== verification/Partition.v ===== *)
(** * Partition: policies that lose no entry

    An interface between the transform and its policies.  A policy is
    [Partitioning] when its batch holds entries ([held]), its pushed
    batches carry entries ([content]), and its three operations move every
    entry from the input to the batch and from the batch to a pushed batch,
    without losing, duplicating or reordering any.  The theorems here are
    about [batchBy] over any such policy, whether its operations throw or
    not; [SamePattern] shows that [samePattern] is one. *)

From stdpp Require Import prelude.
From S2P Require Import Prelude JsValue Stream Control BatchBy.

(** What a policy promises, in terms of the contract ([present]). *)
Class Partitioning {E TBatch TEntry TPushedBatch : Type}
    (control : Control E TBatch TEntry TPushedBatch) : Type := {
  held : TBatch -> list TEntry;
  content : TPushedBatch -> list TEntry;
  partition_begin init :
    beginWith control tt = Ok init -> held init = [];
  partition_step batch x r :
    forEachEntry control batch x = Ok r ->
    concat (content <$> present (batch_to_push r)) ++ held (batch_to_update r)
      = held batch ++ [x];
  partition_end batch r :
    end_ control batch = Ok r ->
    concat (content <$> present (end_batch_to_push r)) = held batch
}.

Arguments held {E TBatch TEntry TPushedBatch} control {_} _.
Arguments content {E TBatch TEntry TPushedBatch} control {_} _.

Section partition.
Context {E TBatch TEntry TPushedBatch : Type}.
Context (control : Control E TBatch TEntry TPushedBatch) `{!Partitioning control}.
Implicit Types xs : list TEntry.

(** The entries carried by a list of pushed batches, in order. *)
Definition carried (bs : list TPushedBatch) : list TEntry :=
  concat (content control <$> bs).

Lemma carried_app bs bs' : carried (bs ++ bs') = carried bs ++ carried bs'.
Proof. unfold carried. by rewrite fmap_app, concat_app. Qed.

(** The fold of the contract keeps the entries: what was pushed followed
    by what the batch holds is what the batch held followed by the entries
    folded; when the fold fails, what was pushed is a prefix of that. *)
Lemma partition_fold batch xs :
  match fold_with present control batch xs with
  | (out, Ok last) => carried out ++ held control last = held control batch ++ xs
  | (out, Throw _) => carried out `prefix_of` held control batch ++ xs
  end.
Proof.
  revert batch. induction xs as [|x xs IH]; intros batch; cbn.
  - by rewrite app_nil_r.
  - destruct (forEachEntry control batch x) as [r|e] eqn:Hstep; [|by apply prefix_nil].
    apply partition_step in Hstep. specialize (IH (batch_to_update r)).
    destruct (fold_with present control (batch_to_update r) xs) as [out [last|e]];
      rewrite carried_app, (cons_middle x), (app_assoc (held control batch)), <- Hstep,
        <- !app_assoc.
    + by rewrite IH.
    + by apply prefix_app.
Qed.

End partition.

Section partition_batchBy.
Context {E TBatch TEntry TPushedBatch : Type} `{AlwaysTruthy TPushedBatch}.
Context (control : Control E TBatch TEntry TPushedBatch) `{!Partitioning control}.
Implicit Types xs : list TEntry.
Implicit Types w : world E TPushedBatch.

(** When every pushed batch is an object, the code's fold is the
    contract's. *)
Lemma fold_entries_always batch xs :
  fold_entries control batch xs = spec_entries control batch xs.
Proof. apply fold_with_ext, truthy_batch_present. Qed.

(** What the transform has written over a whole input. *)
Lemma partition_written xs w :
  batchBy control (Highland.of_array xs) = Ok w ->
  carried control (written w) `prefix_of` xs /\
  (ended w = true -> carried control (written w) = xs).
Proof.
  intros (init & Hinit & ->)%batchBy_inv. rewrite drive_of_array, fold_entries_always.
  pose proof (partition_fold control init xs) as Hfold. unfold spec_entries.
  rewrite (partition_begin _ Hinit) in Hfold.
  destruct (fold_with present control init xs) as [out [last|e]]; cbn in Hfold.
  - destruct (end_ control last) as [r|e] eqn:Hend; batch_simpl.
    + rewrite truthy_batch_present, carried_app.
      unfold carried at 2 4. by rewrite (partition_end _ _ Hend), Hfold.
    + split; [|done]. rewrite <- Hfold. by apply prefix_app_r.
  - by batch_simpl.
Qed.

(** C34.  Over a policy that keeps the entries ([Partitioning]) and pushes
    objects, the transform loses, duplicates and reorders nothing, whether
    the policy throws or not: the entries of the batches written, in order,
    are a prefix of the input, and the whole input when the output was
    ended. *)
Theorem batchBy_partition xs w :
  batchBy control (Highland.of_array xs) = Ok w ->
  carried control (written w) `prefix_of` xs /\
  (ended w = true -> carried control (written w) = xs).
Proof. apply partition_written. Qed.

(** While the input has not ended, the entries of the batches written
    so far are a prefix of the entries delivered so far. *)
Lemma batchBy_partition_pending xs w :
  batchBy control (Highland.pending xs) = Ok w ->
  carried control (written w) `prefix_of` xs.
Proof.
  intros (init & Hinit & ->)%batchBy_inv.
  rewrite drive_pending, fold_entries_always. batch_simpl.
  pose proof (partition_fold control init xs) as Hfold. unfold spec_entries.
  rewrite (partition_begin _ Hinit) in Hfold.
  destruct (fold_with present control init xs) as [out [last|e]]; cbn in *; [|done].
  rewrite <- Hfold. by apply prefix_app_r.
Qed.

End partition_batchBy.
