(* ===== verification/Invariant.v ===== *)
(** * Invariant: what a policy preserves, the transform preserves

    A second interface between the transform and its policies, for
    properties of the batches themselves.  A policy [Preserves] an
    invariant [I] of its batch when [beginWith] establishes it,
    [forEachEntry] keeps it on the entries in [D], and every batch the
    policy pushes from a batch in [I] is in [Q].  The transform over such a
    policy writes batches in [Q] only; [SamePattern] and [Typing] give
    instances. *)

From stdpp Require Import prelude.
From S2P Require Import Prelude JsValue Stream Control BatchBy.

Class Preserves {E TBatch TEntry TPushedBatch : Type}
    (control : Control E TBatch TEntry TPushedBatch)
    (I : TBatch -> Prop) (D : TEntry -> Prop) (Q : TPushedBatch -> Prop) : Prop := {
  preserves_begin init :
    beginWith control tt = Ok init -> I init;
  preserves_step batch x r :
    I batch -> D x -> forEachEntry control batch x = Ok r ->
    I (batch_to_update r) /\ Forall Q (present (batch_to_push r));
  preserves_end batch r :
    I batch -> end_ control batch = Ok r -> Forall Q (present (end_batch_to_push r))
}.

(** The entries among the items of a stream are in [D]. *)
Definition entries_in {E TEntry} (D : TEntry -> Prop) (its : list (item E TEntry)) : Prop :=
  Forall (fun i => match i with Val x => D x | _ => True end) its.

Section preserves.
Context {E TBatch TEntry TPushedBatch : Type} `{Truthy TPushedBatch}.
Context (control : Control E TBatch TEntry TPushedBatch).
Context (I : TBatch -> Prop) (D : TEntry -> Prop) (Q : TPushedBatch -> Prop).
Context `{!Preserves control I D Q}.
Implicit Types w : world E TPushedBatch.

(** What is written for a batch in [Q] is in [Q]. *)
Lemma truthy_batch_Forall o : Forall Q (present o) -> Forall Q (truthy_batch o).
Proof. destruct o as [x|]; cbn; [|done]. by destruct (truthy x). Qed.

(** The loop from a batch in [I] writes batches in [Q]. *)
Lemma drive_preserves batch its w :
  I batch -> entries_in D its ->
  exists bs cs err,
    drive control batch its w = add_calls bs cs err w /\
    Forall Q bs /\ (cs = [] \/ cs = [CallEnd]).
Proof.
  revert batch w. induction its as [|[x|e|] its IH]; intros batch w Hbatch Hits; cbn.
  - exists [], [], None. rewrite add_calls_nil. auto.
  - apply Forall_cons in Hits as [Hx Hits].
    destruct (forEachEntry control batch x) as [r|e] eqn:Hstep;
      [|exists [], [], (Some e); auto].
    destruct (preserves_step _ _ _ Hbatch Hx Hstep) as [Hbatch' Hpush].
    destruct (IH (batch_to_update r) (add_calls (truthy_batch (batch_to_push r)) [] None w))
      as (bs & cs & err & -> & Hbs & Hcs); [done..|].
    exists (truthy_batch (batch_to_push r) ++ bs), cs, err.
    rewrite add_calls_add_calls, Forall_app. auto using truthy_batch_Forall.
  - exists [], [], (Some e). auto.
  - destruct (end_ control batch) as [r|e] eqn:Hend; [|exists [], [], (Some e); auto].
    exists (truthy_batch (end_batch_to_push r)), [CallEnd], None.
    split_and!; [done| |by right].
    eapply truthy_batch_Forall, preserves_end; eauto.
Qed.

(** What the transform writes over a policy that preserves [I]. *)
Lemma preserves_written its w :
  entries_in D its -> batchBy control its = Ok w -> Forall Q (written w).
Proof.
  intros Hits (init & Hinit & ->)%batchBy_inv.
  destruct (drive_preserves init its fresh) as (bs & cs & err & -> & Hbs & Hcs);
    [by eapply preserves_begin|done|].
  destruct Hcs as [->| ->]; by batch_simpl.
Qed.


End preserves.
