(* ===== verification/Machine.v ===== *)
(** * Machine: the transform as a state machine

    Seen from the input stream, the chain of [batchBy] is a machine with
    three kinds of states: it is folding entries into a batch, it has
    finished (the input ended and the output was ended), or it has stopped
    on an error.  Each item of the input is one transition; no transition
    leaves the last two.  This file gives the transitions as a relation
    ([step]), proves its invariant by induction on runs, and shows that
    every run of [batchBy] is a run of the machine.  The transition
    function ([next], [exec]) and the items the machine never reads
    ([unread]) are what [Consumer] builds its schedules from. *)

From stdpp Require Import prelude.
From S2P Require Import Prelude JsValue Stream Control BatchBy.

(** Where the chain is. *)
Inductive phase (E TBatch : Type) : Type :=
| Folding (batch : TBatch)
| Finished
| Stopped (e : E).

Arguments Folding {E TBatch} batch.
Arguments Finished {E TBatch}.
Arguments Stopped {E TBatch} e.

(** The chain and the output stream. *)
Record config (E TBatch T : Type) : Type := Config {
  phase_of : phase E TBatch;
  output : world E T
}.

Arguments Config {E TBatch T} phase_of output.
Arguments phase_of {E TBatch T} c.
Arguments output {E TBatch T} c.

Section machine.
Context {E TBatch TEntry TPushedBatch : Type} `{Truthy TPushedBatch}.
Context (control : Control E TBatch TEntry TPushedBatch).
Implicit Types c : config E TBatch TPushedBatch.
Implicit Types w : world E TPushedBatch.
Implicit Types i : item E TEntry.

(** One item of the input through the chain (lines 12-26). *)
Inductive step : config E TBatch TPushedBatch -> item E TEntry ->
    config E TBatch TPushedBatch -> Prop :=
| step_entry batch x r w :
    forEachEntry control batch x = Ok r ->
    step (Config (Folding batch) w) (Val x)
      (Config (Folding (batch_to_update r))
         (add_calls (truthy_batch (batch_to_push r)) [] None w))
| step_entry_throws batch x e w :
    forEachEntry control batch x = Throw e ->
    step (Config (Folding batch) w) (Val x)
      (Config (Stopped e) (add_calls [] [] (Some e) w))
| step_error batch e w :
    step (Config (Folding batch) w) (Err e)
      (Config (Stopped e) (add_calls [] [] (Some e) w))
| step_end batch r w :
    end_ control batch = Ok r ->
    step (Config (Folding batch) w) Nil
      (Config Finished (add_calls (truthy_batch (end_batch_to_push r)) [CallEnd] None w))
| step_end_throws batch e w :
    end_ control batch = Throw e ->
    step (Config (Folding batch) w) Nil
      (Config (Stopped e) (add_calls [] [] (Some e) w)).

(** A run: the items consumed, in order. *)
Inductive steps : config E TBatch TPushedBatch -> list (item E TEntry) ->
    config E TBatch TPushedBatch -> Prop :=
| steps_nil c : steps c [] c
| steps_cons c i c' its c'' :
    step c i c' -> steps c' its c'' -> steps c (i :: its) c''.

(** The machine reads no more. *)
Definition halted c : bool :=
  match phase_of c with
  | Folding _ => false
  | Finished | Stopped _ => true
  end.

(** The transition as a function. *)
Definition next c i : option (config E TBatch TPushedBatch) :=
  match phase_of c with
  | Finished | Stopped _ => None
  | Folding batch =>
      Some match i with
           | Val x =>
               match forEachEntry control batch x with
               | Ok r =>
                   Config (Folding (batch_to_update r))
                     (add_calls (truthy_batch (batch_to_push r)) [] None (output c))
               | Throw e => Config (Stopped e) (add_calls [] [] (Some e) (output c))
               end
           | Err e => Config (Stopped e) (add_calls [] [] (Some e) (output c))
           | Nil =>
               match end_ control batch with
               | Ok r =>
                   Config Finished
                     (add_calls (truthy_batch (end_batch_to_push r)) [CallEnd] None (output c))
               | Throw e => Config (Stopped e) (add_calls [] [] (Some e) (output c))
               end
           end
  end.

(** Run the machine over the items, for as long as it reads. *)
Fixpoint exec c (its : list (item E TEntry)) : config E TBatch TPushedBatch :=
  match its with
  | [] => c
  | i :: its' =>
      match next c i with
      | Some c' => exec c' its'
      | None => c
      end
  end.

(** The items the machine never reads: those that follow the one at which
    it halted. *)
Fixpoint unread c (its : list (item E TEntry)) : list (item E TEntry) :=
  match its with
  | [] => []
  | i :: its' =>
      match next c i with
      | Some c' => unread c' its'
      | None => its
      end
  end.

(** What holds of the output stream in each phase. *)
Definition consistent c : Prop :=
  calls (output c) =
    (CallWrite <$> written (output c)) ++ (if ended (output c) then [CallEnd] else []) /\
  match phase_of c with
  | Folding _ => ended (output c) = false /\ escaped (output c) = None
  | Finished => ended (output c) = true /\ escaped (output c) = None
  | Stopped e => ended (output c) = false /\ escaped (output c) = Some e
  end.

(** The configurations the transform can be in. *)
Definition reachable c : Prop :=
  exists init its, beginWith control tt = Ok init /\ steps (Config (Folding init) fresh) its c.

(** ** The relation and the function *)

Lemma next_step c i c' : next c i = Some c' <-> step c i c'.
Proof.
  split.
  - destruct c as [[batch| |e] w]; [|done..]. unfold next; cbn. intros [= <-].
    destruct i as [x|e|]; [destruct (forEachEntry _ _ _) eqn:?| |destruct (end_ _ _) eqn:?];
      by constructor.
  - intros [batch x r w Hf|batch x e w Hf|batch e w|batch r w He|batch e w He];
      unfold next; cbn; by rewrite ?Hf, ?He.
Qed.

Lemma step_functional c i c1 c2 : step c i c1 -> step c i c2 -> c1 = c2.
Proof. intros H1%next_step H2%next_step. congruence. Qed.

Lemma next_None c i : next c i = None <-> halted c = true.
Proof. unfold next, halted. by destruct (phase_of c). Qed.

Lemma step_halted c i c' : step c i c' -> halted c = false.
Proof.
  intros Hstep%next_step. destruct (halted c) eqn:Hc; [|done].
  apply (next_None c i) in Hc. congruence.
Qed.

Lemma step_exists c i : halted c = false -> exists c', step c i c'.
Proof.
  intros Hc. destruct (next c i) as [c'|] eqn:Hnext.
  - exists c'. by apply next_step.
  - apply next_None in Hnext. congruence.
Qed.

Lemma exec_halted c its : halted c = true -> exec c its = c.
Proof. intros Hc. destruct its as [|i its]; [done|]. cbn. by rewrite (proj2 (next_None c i)). Qed.

(** A run of the relation is what the function computes. *)
Lemma steps_exec c its c' : steps c its c' -> exec c its = c'.
Proof. induction 1 as [|c i c' its c'' Hstep%next_step _ IH]; cbn; [done|]. by rewrite Hstep. Qed.

(** The function follows the relation over the items it consumes, up to
    the end of the items or to a halt. *)
Lemma exec_steps c its :
  exists consumed rest, its = consumed ++ rest /\ steps c consumed (exec c its) /\
    (rest = [] \/ halted (exec c its) = true).
Proof.
  revert c. induction its as [|i its IH]; intros c; cbn.
  - exists [], []. split_and!; [done|constructor|by left].
  - destruct (next c i) as [c'|] eqn:Hnext.
    + destruct (IH c') as (consumed & rest & -> & Hsteps & Hrest).
      exists (i :: consumed), rest. split_and!; [done| |done].
      econstructor; [by apply next_step|done].
    + exists [], (i :: its). split_and!; [done|constructor|right; by eapply next_None].
Qed.

(** What the machine leaves unread, it leaves because it halted. *)
Lemma unread_halted c its : unread c its = [] \/ halted (exec c its) = true.
Proof.
  revert c. induction its as [|i its IH]; intros c; cbn; [by left|].
  destruct (next c i) as [c'|] eqn:Hnext; [apply IH|right; by eapply next_None].
Qed.

(** The loop is the machine. *)
Lemma drive_exec batch its w :
  drive control batch its w = output (exec (Config (Folding batch) w) its).
Proof.
  revert batch w. induction its as [|[x|e|] its IH]; intros batch w; cbn; [done|..].
  - destruct (forEachEntry control batch x); [apply IH|by rewrite exec_halted].
  - by rewrite exec_halted.
  - destruct (end_ control batch); by rewrite exec_halted.
Qed.

(** ** The invariant *)

(** While the machine folds, the output holds writes only. *)
Lemma consistent_folding batch w :
  consistent (Config (Folding batch) w) -> w = World (CallWrite <$> written w) None.
Proof.
  destruct w as [cs err]. intros [Hcalls [Hended Hesc]]; cbn in *.
  by rewrite Hended, app_nil_r in Hcalls; rewrite Hesc, <- Hcalls.
Qed.

Lemma consistent_fresh init : consistent (Config (Folding init) (fresh : world E TPushedBatch)).
Proof. done. Qed.

Lemma step_consistent c i c' : consistent c -> step c i c' -> consistent c'.
Proof.
  intros Hc Hstep. destruct Hstep; apply consistent_folding in Hc as ->;
    unfold consistent, add_calls; cbn [calls escaped output phase_of from_option];
    rewrite ?app_nil_r, <- ?fmap_app, ?app_assoc, <- ?fmap_app;
    by batch_simpl.
Qed.

(** A transition only adds calls on the output stream, at most two of
    them: a write and the end. *)
Lemma step_calls c i c' :
  step c i c' ->
  exists cs, calls (output c') = calls (output c) ++ cs /\ length cs <= 2.
Proof.
  intros [batch x r w _|batch x e w _|batch e w|batch r w _|batch e w _]; cbn;
    eexists; (split; [done|]); rewrite ?length_app, ?length_fmap; cbn;
    try pose proof (truthy_batch_length (batch_to_push r));
    try pose proof (truthy_batch_length (end_batch_to_push r)); lia.
Qed.

(** The machine never takes back a call. *)
Lemma exec_calls_prefix c its :
  calls (output c) `prefix_of` calls (output (exec c its)).
Proof.
  revert c. induction its as [|i its IH]; intros c; cbn; [done|].
  destruct (next c i) as [c'|] eqn:Hnext; [|done].
  apply next_step, step_calls in Hnext as (cs & Hcs & _).
  etrans; [|apply IH]. rewrite Hcs. by apply prefix_app_r.
Qed.

Lemma steps_consistent c its c' : consistent c -> steps c its c' -> consistent c'.
Proof. intros Hc Hsteps. induction Hsteps; eauto using step_consistent. Qed.

End machine.

(** ** Theorems about the machine *)

Section machine_theorems.
Context {E TBatch TEntry TPushedBatch : Type} `{Truthy TPushedBatch}.
Context (control : Control E TBatch TEntry TPushedBatch).
Implicit Types c : config E TBatch TPushedBatch.
Implicit Types w : world E TPushedBatch.

(** C8.  Every run of the transform is a run of the machine: the world
    [batchBy] leaves is the output of a configuration the machine reaches
    from the initial batch by consuming a prefix of the input, and the
    machine consumed the whole input unless it halted. *)
Theorem batchBy_runs_machine its w :
  batchBy control its = Ok w ->
  exists init consumed rest c,
    beginWith control tt = Ok init /\ its = consumed ++ rest /\
    steps control (Config (Folding init) fresh) consumed c /\ output c = w /\
    (rest = [] \/ halted c = true).
Proof.
  intros (init & Hinit & ->)%batchBy_inv. rewrite drive_exec.
  destruct (exec_steps control (Config (Folding init) fresh) its)
    as (consumed & rest & Hits & Hsteps & Hrest).
  by exists init, consumed, rest, (exec control (Config (Folding init) fresh) its).
Qed.

(** Conversely, a run of the machine over the whole input from the
    batch of [beginWith] ends with the output [batchBy] produces. *)
Lemma machine_runs_batchBy init its c :
  beginWith control tt = Ok init ->
  steps control (Config (Folding init) fresh) its c ->
  batchBy control its = Ok (output c).
Proof.
  intros Hinit Hsteps%steps_exec. by rewrite (batchBy_ok _ _ _ Hinit), drive_exec, Hsteps.
Qed.

(** C35.  In every configuration the transform can reach, the calls on the
    output stream are writes followed by [end()] exactly when the machine
    has finished, and an error has escaped exactly when it has stopped. *)
Theorem reachable_consistent c : reachable control c -> consistent c.
Proof.
  intros (init & its & _ & Hsteps).
  eapply steps_consistent; [apply consistent_fresh|done].
Qed.

(** The machine is deterministic, and a machine that has finished or
    stopped makes no transition: the items that follow are never looked
    at. *)
Lemma step_deterministic c i c1 c2 :
  step control c i c1 -> step control c i c2 -> c1 = c2 /\ halted c = false.
Proof.
  intros H1 H2. split; [by eapply step_functional|by eapply step_halted].
Qed.

(** While it folds, the machine accepts every item: entries, errors
    and the end of the input all have a transition. *)
Lemma step_progress c (i : item E TEntry) :
  halted c = false -> exists c', step control c i c'.
Proof.
  apply step_exists.
Qed.

End machine_theorems.
