(* ===== verification/Simulation.v ===== *)
(** * Simulation: policies the transform cannot tell apart

    A third interface between the transform and its policies, for two
    policies at once.  A policy [c1] is simulated by a policy [c2] through
    a relation [R] between their batches when their [beginWith] give
    related batches, and on related batches their [forEachEntry] and their
    [end] push the same batch and leave related batches, or throw the same
    value.  The batches themselves may be of different types: this is how
    a policy is compared with another representation of its state.

    The transform over two such policies makes the same calls on its
    output stream; as machines ([Machine]), every transition of one is
    matched by a transition of the other. *)

From stdpp Require Import prelude.
From S2P Require Import Prelude JsValue Stream Control BatchBy Invariant Machine.

(** Two calls agree: both return, with related results, or both throw the
    same value. *)
Definition agree {E A B} (Q : A -> B -> Prop) (r1 : result E A) (r2 : result E B) : Prop :=
  match r1, r2 with
  | Ok a, Ok b => Q a b
  | Throw e1, Throw e2 => e1 = e2
  | _, _ => False
  end.

Class Simulates {E TBatch1 TBatch2 TEntry TPushedBatch : Type}
    (c1 : Control E TBatch1 TEntry TPushedBatch)
    (c2 : Control E TBatch2 TEntry TPushedBatch)
    (R : TBatch1 -> TBatch2 -> Prop) (D : TEntry -> Prop) : Prop := {
  simulates_begin : agree R (beginWith c1 tt) (beginWith c2 tt);
  simulates_step b1 b2 x :
    R b1 b2 -> D x ->
    agree (fun r1 r2 => R (batch_to_update r1) (batch_to_update r2) /\
                        batch_to_push r1 = batch_to_push r2)
      (forEachEntry c1 b1 x) (forEachEntry c2 b2 x);
  simulates_end b1 b2 :
    R b1 b2 ->
    agree (fun r1 r2 => end_batch_to_push r1 = end_batch_to_push r2)
      (end_ c1 b1) (end_ c2 b2)
}.

Section simulation.
Context {E TBatch1 TBatch2 TEntry TPushedBatch : Type} `{Truthy TPushedBatch}.
Context (c1 : Control E TBatch1 TEntry TPushedBatch).
Context (c2 : Control E TBatch2 TEntry TPushedBatch).
Context (R : TBatch1 -> TBatch2 -> Prop) (D : TEntry -> Prop).
Context `{!Simulates c1 c2 R D}.
Implicit Types w : world E TPushedBatch.

(** The configurations of the two machines that correspond: the same
    output stream, and the same phase with related batches. *)
Definition related (k1 : config E TBatch1 TPushedBatch)
    (k2 : config E TBatch2 TPushedBatch) : Prop :=
  output k1 = output k2 /\
  match phase_of k1, phase_of k2 with
  | Folding b1, Folding b2 => R b1 b2
  | Finished, Finished => True
  | Stopped e1, Stopped e2 => e1 = e2
  | _, _ => False
  end.

(** The items a policy accepts: the entries in [D], errors and the end. *)
Definition accepted (i : item E TEntry) : Prop :=
  match i with
  | Val x => D x
  | _ => True
  end.

(** The transition functions of the two machines commute with the
    relation. *)
Lemma next_related k1 k2 i :
  related k1 k2 -> accepted i ->
  match next c1 k1 i, next c2 k2 i with
  | Some k1', Some k2' => related k1' k2'
  | None, None => True
  | _, _ => False
  end.
Proof.
  destruct k1 as [[b1| |e1] w1], k2 as [[b2| |e2] w2]; intros [Hw Hb] Hi;
    cbn in Hw, Hb; try done; subst w2. unfold next; cbn [phase_of output].
  destruct i as [x|e|]; [|done|].
  - pose proof (simulates_step b1 b2 x Hb Hi) as Hstep.
    destruct (forEachEntry c1 b1 x) as [r1|], (forEachEntry c2 b2 x) as [r2|];
      cbn in Hstep; try done; [|by subst].
    destruct Hstep as [Hb' Hpush]. split; [by rewrite Hpush|done].
  - pose proof (simulates_end b1 b2 Hb) as Hend.
    destruct (end_ c1 b1) as [r1|], (end_ c2 b2) as [r2|]; cbn in Hend; try done;
      [by rewrite Hend|by subst].
Qed.

(** The diagram of a forward simulation: a transition of the first machine
    from a configuration is matched by a transition of the second from any
    related configuration, to a related configuration. *)
Lemma step_related k1 k2 i k1' :
  related k1 k2 -> accepted i -> step c1 k1 i k1' ->
  exists k2', step c2 k2 i k2' /\ related k1' k2'.
Proof.
  intros Hrel Hi Hstep%next_step. pose proof (next_related k1 k2 i Hrel Hi) as Hnext.
  rewrite Hstep in Hnext. destruct (next c2 k2 i) as [k2'|] eqn:Hnext2; [|done].
  exists k2'. split; [by apply next_step|done].
Qed.

Lemma exec_related k1 k2 its :
  related k1 k2 -> entries_in D its -> related (exec c1 k1 its) (exec c2 k2 its).
Proof.
  revert k1 k2. induction its as [|i its IH]; intros k1 k2 Hrel Hits; [done|].
  apply Forall_cons in Hits as [Hi Hits]. cbn [exec].
  pose proof (next_related k1 k2 i Hrel Hi) as Hnext.
  destruct (next c1 k1 i), (next c2 k2 i); try done. by apply IH.
Qed.

(** The loops of the transform over the two policies make the same calls. *)
Lemma drive_simulates b1 b2 its w :
  R b1 b2 -> entries_in D its -> drive c1 b1 its w = drive c2 b2 its w.
Proof.
  intros Hb Hits. rewrite !drive_exec.
  by apply (exec_related (Config (Folding b1) w) (Config (Folding b2) w)).
Qed.

Lemma simulates_batchBy its :
  entries_in D its -> batchBy c1 its = batchBy c2 its.
Proof.
  intros Hits. pose proof simulates_begin as Hbegin.
  destruct (beginWith c1 tt) as [b1|e1] eqn:H1, (beginWith c2 tt) as [b2|e2] eqn:H2;
    cbn in Hbegin; try done.
  - rewrite (batchBy_ok c1 _ b1), (batchBy_ok c2 _ b2) by done.
    f_equal. by apply drive_simulates.
  - unfold batchBy. by rewrite H1, H2, Hbegin.
Qed.


End simulation.
