(* ===== verification/Consumer.v ===== *)
(** * Consumer: the output stream and who reads it

    [batchBy] returns [output_stream] (line 28); a caller reads it with one
    of Highland's consumers.  The calls [write] and [end] put items in the
    stream, where they wait, in order, until the consumer takes them: the
    program never looks at what [write] returns, so nothing is ever held
    back or dropped.

    With a source that delivers its items over time, the chain and the
    consumer take turns in an order the program does not control.  The
    system here is the machine of [Machine] together with a consumer and
    the number of items it has taken; a step is either one item of the
    source through the chain, or one item of the output stream to the
    consumer, in any order.  The theorems are about every such order; a
    consumer that Highland serves inside the call of [write] is the order
    in which every step of the chain is followed by the steps of the
    consumer.  The last section takes a second transform as the consumer
    ([downstream]): two [through] in a row. *)

From stdpp Require Import prelude relations well_founded.
From S2P Require Import Prelude JsValue Stream Control BatchBy Machine.

(** A consumer: what it does with a value and with the end of the stream,
    on a state [S] of its own. *)
Record consumer (T S : Type) : Type := Consumer {
  on_value : T -> S -> S;
  on_end : S -> S
}.

Arguments Consumer {T S} on_value on_end.
Arguments on_value {T S} _.
Arguments on_end {T S} _.

(** The source, the chain with the output stream, and the consumer. *)
Record system (E TBatch TEntry T S : Type) : Type := System {
  source : list (item E TEntry);
  producer : config E TBatch T;
  received : nat;
  reader : S
}.

Arguments System {E TBatch TEntry T S} source producer received reader.
Arguments source {E TBatch TEntry T S} _.
Arguments producer {E TBatch TEntry T S} _.
Arguments received {E TBatch TEntry T S} _.
Arguments reader {E TBatch TEntry T S} _.

Section consumers.
Context {T S : Type} (k : consumer T S).

(** One item of the output stream to the consumer. *)
Definition deliver (c : out_call T) (s : S) : S :=
  match c with
  | CallWrite x => on_value k x s
  | CallEnd => on_end k s
  end.

(** The consumer after the items [cs], in order. *)
Definition delivered (cs : list (out_call T)) (s : S) : S :=
  foldl (fun s c => deliver c s) s cs.

End consumers.

(** ** Highland's consumers *)

(** [s.each(f)] with an [f] that records its argument ([console.log]),
    followed by [.done(g)] with a [g] that does nothing: the state is what
    was printed. *)
Definition each_log {T} : consumer T (list T) :=
  Consumer (fun x printed => printed ++ [x]) (fun printed => printed).

(** [s.collect().toPromise(Promise)]: the values are accumulated, and the
    promise resolves with them at the end of the stream. *)
Definition collect {T} : consumer T (list T * promise (list T)) :=
  Consumer (fun x s => (s.1 ++ [x], s.2)) (fun s => (s.1, Resolved s.1)).

Section system.
Context {E TBatch TEntry T S : Type} `{Truthy T}.
Context (control : Control E TBatch TEntry T) (k : consumer T S).
Implicit Types sys : system E TBatch TEntry T S.

(** What is in the output stream and not yet taken. *)
Definition buffered sys : list (out_call T) :=
  drop (received sys) (calls (output (producer sys))).

(** A step of the system: the chain takes the next item of the source, or
    the consumer takes the next item of the output stream. *)
Inductive sys_step : relation (system E TBatch TEntry T S) :=
| sys_produce i its c c' n s :
    step control c i c' ->
    sys_step (System (i :: its) c n s) (System its c' n s)
| sys_consume its c n s call :
    calls (output c) !! n = Some call ->
    sys_step (System its c n s) (System its c (Datatypes.S n) (deliver k call s)).

(** The system of [batchBy(control)(its)] read by [k] from the state [s]. *)
Definition sys_init (init : TBatch) (its : list (item E TEntry)) (s : S)
    : system E TBatch TEntry T S :=
  System its (Config (Folding init) fresh) 0 s.

(** The steps the system can still make, at most. *)
Definition sys_measure sys : nat :=
  3 * length (source sys) + (length (calls (output (producer sys))) - received sys).

(** Run the system to its end: the chain over the source for as long as
    it reads, then the consumer over what is in the output stream. *)
Definition sys_run sys : system E TBatch TEntry T S :=
  let c := exec control (producer sys) (source sys) in
  System (unread control (producer sys) (source sys)) c
    (length (calls (output c)))
    (delivered k (drop (received sys) (calls (output c))) (reader sys)).

End system.

(** ** Laws of consumers *)

Section consumer_laws.
Context {T S : Type} (k : consumer T S).

Lemma delivered_app cs cs' s :
  delivered k (cs ++ cs') s = delivered k cs' (delivered k cs s).
Proof. apply foldl_app. Qed.

Lemma delivered_snoc cs c s :
  delivered k (cs ++ [c]) s = deliver k c (delivered k cs s).
Proof. by rewrite delivered_app. Qed.

End consumer_laws.

(** What [each_log] has printed is what was written. *)
Lemma delivered_each_log {E T} (w : world E T) printed :
  delivered each_log (calls w) printed = printed ++ written w.
Proof.
  unfold written, delivered. revert printed.
  induction (calls w) as [|[x|] cs IH]; intros printed; cbn.
  - by rewrite app_nil_r.
  - by rewrite IH, <- app_assoc.
  - apply IH.
Qed.

(** ** Laws of the system *)

Section system_laws.
Context {E TBatch TEntry T S : Type} `{Truthy T}.
Context (control : Control E TBatch TEntry T) (k : consumer T S).
Implicit Types sys : system E TBatch TEntry T S.
Implicit Types c : config E TBatch T.

Local Abbreviation sstep := (sys_step control k).

(** Every step uses up some of the measure. *)
Lemma sys_step_measure sys sys' :
  sstep sys sys' -> sys_measure sys' < sys_measure sys.
Proof.
  intros [i its c c' n s (cs & Hcs & Hlen)%step_calls|its c n s call Hn%lookup_lt_Some];
    unfold sys_measure; cbn; [rewrite Hcs, length_app|]; lia.
Qed.

(** No schedule goes on for ever. *)
Lemma sys_sn sys : sn sstep sys.
Proof.
  apply (wf_projected (R1 := flip sstep) lt sys_measure); [|apply lt_wf].
  intros x y. apply sys_step_measure.
Qed.

(** The two kinds of step. *)
Lemma sys_step_inv sys sys' :
  sstep sys sys' ->
  (exists i its c', source sys = i :: its /\ step control (producer sys) i c' /\
     sys' = System its c' (received sys) (reader sys)) \/
  (exists call, calls (output (producer sys)) !! received sys = Some call /\
     sys' = System (source sys) (producer sys) (Datatypes.S (received sys))
              (deliver k call (reader sys))).
Proof. intros [i its c c' n s Hstep|its c n s call Hcall]; [left|right]; eauto 10. Qed.

(** What is in the output stream stays there when the chain moves. *)
Lemma step_lookup c i c' n call :
  step control c i c' -> calls (output c) !! n = Some call ->
  calls (output c') !! n = Some call.
Proof. intros (cs & -> & _)%step_calls ?. by apply lookup_app_l_Some. Qed.

(** The chain and the consumer do not disturb each other: two steps from
    the same state can be joined. *)
Lemma sys_locally_confluent : locally_confluent sstep.
Proof.
  intros [its c n s] y1 y2
    [(i1 & its1 & c1 & ? & Hc1 & ->)|(call1 & Hcall1 & ->)]%sys_step_inv
    [(i2 & its2 & c2 & ? & Hc2 & ->)|(call2 & Hcall2 & ->)]%sys_step_inv;
    simplify_eq/=.
  - rewrite (step_functional control c i2 c1 c2) by done. by eexists.
  - exists (System its1 c1 (Datatypes.S n) (deliver k call2 s)).
    split; apply rtc_once; [apply sys_consume; by eapply step_lookup|by apply sys_produce].
  - exists (System its2 c2 (Datatypes.S n) (deliver k call1 s)).
    split; apply rtc_once; [by apply sys_produce|apply sys_consume; by eapply step_lookup].
  - by eexists.
Qed.

Lemma sys_confluent : confluent sstep.
Proof. apply locally_confluent_confluent; [apply sys_sn|apply sys_locally_confluent]. Qed.

(** The states in which nothing can happen: the chain has read the source
    or halted, and the consumer has taken all that was written. *)
Lemma sys_nf sys :
  nf sstep sys <->
  (source sys = [] \/ halted (producer sys) = true) /\
  length (calls (output (producer sys))) <= received sys.
Proof.
  destruct sys as [its c n s]. cbn. split.
  - intros Hnf. split.
    + destruct its as [|i its]; [by left|]. right.
      destruct (halted c) eqn:Hc; [done|].
      destruct (step_exists control c i Hc) as [c' Hstep].
      destruct Hnf. eexists. by apply sys_produce.
    + destruct (calls (output c) !! n) as [call|] eqn:Hn; [|by apply lookup_ge_None].
      destruct Hnf. eexists. by apply sys_consume.
  - intros [Hsrc Hn] [sys'
      [(i & its' & c' & ? & Hstep & _)|(call & Hcall%lookup_lt_Some & _)]%sys_step_inv];
      simplify_eq/=; [|lia].
    destruct Hsrc as [?|Hc]; [done|]. apply step_halted in Hstep. congruence.
Qed.

(** The chain first: it reads the source for as long as it reads. *)
Lemma produce_all its c n s :
  rtc sstep (System its c n s) (System (unread control c its) (exec control c its) n s).
Proof.
  revert c. induction its as [|i its IH]; intros c; cbn; [done|].
  destruct (next control c i) as [c'|] eqn:Hnext; [|done].
  eapply rtc_l; [apply sys_produce; by apply next_step|apply IH].
Qed.

(** Then the consumer: it takes all that is in the output stream. *)
Lemma consume_all its c n s :
  rtc sstep (System its c n s)
    (System its c (n `max` length (calls (output c)))
       (delivered k (drop n (calls (output c))) s)).
Proof.
  remember (length (calls (output c)) - n) as m eqn:Hm. revert n s Hm.
  induction m as [|m IH]; intros n s Hm.
  - rewrite drop_ge by lia. by replace (n `max` _) with n by lia.
  - destruct (calls (output c) !! n) as [call|] eqn:Hn;
      [|apply lookup_ge_None in Hn; lia].
    rewrite (drop_S _ _ _ Hn). cbn.
    eapply rtc_l; [by apply sys_consume|].
    replace (n `max` _) with (Datatypes.S n `max` length (calls (output c))) by lia.
    apply IH. lia.
Qed.

Lemma sys_run_reaches sys :
  received sys <= length (calls (output (producer sys))) ->
  rtc sstep sys (sys_run control k sys).
Proof.
  destruct sys as [its c n s]. unfold sys_run; cbn. intros Hn.
  etrans; [apply produce_all|]. etrans; [apply consume_all|].
  assert (n <= length (calls (output (exec control c its)))) as Hn'.
  { etrans; [done|]. apply prefix_length, exec_calls_prefix. }
  by replace (n `max` _) with (length (calls (output (exec control c its)))) by lia.
Qed.

Lemma sys_run_nf sys : nf sstep (sys_run control k sys).
Proof. apply sys_nf. unfold sys_run; cbn. split; [apply unread_halted|done]. Qed.

End system_laws.

(** ** What the consumer has seen, at any time *)

Section invariant.
Context {E TBatch TEntry T S : Type} `{Truthy T}.
Context (control : Control E TBatch TEntry T) (k : consumer T S).
Implicit Types sys : system E TBatch TEntry T S.

Local Abbreviation sstep := (sys_step control k).

(** The consumer has taken the first [received] items of the output
    stream, in order, and nothing else. *)
Definition sys_inv (s0 : S) sys : Prop :=
  received sys <= length (calls (output (producer sys))) /\
  reader sys = delivered k (take (received sys) (calls (output (producer sys)))) s0.

Lemma sys_inv_init init its s0 : sys_inv s0 (sys_init init its s0).
Proof. split; cbn; [lia|done]. Qed.

Lemma sys_step_inv_preserved s0 sys sys' : sys_inv s0 sys -> sstep sys sys' -> sys_inv s0 sys'.
Proof.
  intros Hinv Hstep. revert Hinv.
  destruct Hstep as [i its c c' n s (cs & Hcs & _)%step_calls|its c n s call Hcall];
    intros [Hn Hs]; unfold sys_inv; cbn [received producer reader] in *.
  - rewrite Hcs, length_app, take_app_le by done. split; [lia|done].
  - split; [by apply lookup_lt_Some in Hcall|].
    by rewrite (take_S_r _ _ _ Hcall), delivered_snoc, Hs.
Qed.

Lemma sys_rtc_inv s0 sys sys' : sys_inv s0 sys -> rtc sstep sys sys' -> sys_inv s0 sys'.
Proof. intros Hinv Hrtc. induction Hrtc; eauto using sys_step_inv_preserved. Qed.

(** Every state in which nothing can happen is the state [sys_run]
    computes: the order of the steps does not matter. *)
Lemma sys_nf_run sys final :
  received sys <= length (calls (output (producer sys))) ->
  rtc sstep sys final -> nf sstep final -> final = sys_run control k sys.
Proof.
  intros Hn Hrtc Hnf.
  eapply confluent_rtc_nf;
    [apply sys_confluent|exact Hrtc|done|by apply sys_run_reaches|apply sys_run_nf].
Qed.

(** The end of the system of a run of [batchBy]. *)
Lemma sys_run_init init its s w :
  batchBy control its = Ok w -> beginWith control tt = Ok init ->
  sys_run control k (sys_init init its s) =
    System (unread control (Config (Folding init) fresh) its)
      (exec control (Config (Folding init) fresh) its)
      (length (calls w)) (delivered k (calls w) s) /\
  output (exec control (Config (Folding init) fresh) its) = w.
Proof.
  intros Hrun Hinit. rewrite (batchBy_ok _ _ _ Hinit), drive_exec in Hrun.
  injection Hrun as Hw. unfold sys_run, sys_init; cbn. by rewrite Hw.
Qed.

(** When nothing more can happen, the output stream holds the calls of
    [batchBy] and the consumer has been given all of them. *)
Lemma sys_final init its s w final :
  beginWith control tt = Ok init ->
  batchBy control its = Ok w ->
  rtc sstep (sys_init init its s) final -> nf sstep final ->
  output (producer final) = w /\
  received final = length (calls w) /\
  reader final = delivered k (calls w) s.
Proof.
  intros Hinit Hrun Hrtc Hnf.
  apply sys_nf_run in Hrtc as ->; [|cbn; lia|done].
  by destruct (sys_run_init init its s w Hrun Hinit) as [-> Hw].
Qed.

End invariant.

(** ** Theorems about the consumers *)

Section consumer_theorems.
Context {E TBatch TEntry T S : Type} `{Truthy T}.
Context (control : Control E TBatch TEntry T) (k : consumer T S).
Implicit Types sys : system E TBatch TEntry T S.
Implicit Types w : world E T.

Local Abbreviation sstep := (sys_step control k).


(** The number of steps of any schedule is bounded by three per item of
    the source still to be read, plus the items waiting in the output
    stream. *)
Lemma sys_steps_bounded n sys sys' :
  nsteps sstep n sys sys' -> n + sys_measure sys' <= sys_measure sys.
Proof.
  induction 1 as [|n sys1 sys2 sys3 Hstep%sys_step_measure _ IH]; lia.
Qed.


(** At every moment of every schedule, what the consumer has been
    given is a prefix of the calls [batchBy] makes in the end, in their
    order: it never sees a batch out of order, twice, or one that is not
    written. *)
Lemma sys_reader_prefix init its s w sys :
  beginWith control tt = Ok init ->
  batchBy control its = Ok w ->
  rtc sstep (sys_init init its s) sys ->
  received sys <= length (calls w) /\
  reader sys = delivered k (take (received sys) (calls w)) s.
Proof.
  intros Hinit Hrun Hrtc.
  destruct (sys_rtc_inv control k s _ _ (sys_inv_init k init its s) Hrtc) as [Hn Hs].
  assert (calls (output (producer sys)) `prefix_of` calls w) as [cs Hcs].
  { assert (sys_run control k sys = sys_run control k (sys_init init its s)) as Hend.
    { apply sys_nf_run; [cbn; lia| |apply sys_run_nf].
      etrans; [done|by apply sys_run_reaches]. }
    destruct (sys_run_init control k init its s w Hrun Hinit) as [Heq <-].
    rewrite Heq in Hend. injection Hend as _ <- _ _. apply exec_calls_prefix. }
  rewrite Hcs, length_app, take_app_le by done. split; [lia|done].
Qed.


End consumer_theorems.

(** ** The collecting consumer *)

Section collect_theorems.
Context {E TBatch TEntry T : Type} `{Truthy T}.
Context (control : Control E TBatch TEntry T).
Implicit Types w : world E T.

(** Over writes followed by at most one end, [collect] accumulates the
    values and resolves at the end. *)
Lemma delivered_collect (bs : list T) (e : bool) acc p :
  delivered collect ((CallWrite <$> bs) ++ (if e then [CallEnd] else [])) (acc, p) =
    (acc ++ bs, if e then Resolved (acc ++ bs) else p).
Proof.
  rewrite delivered_app.
  assert (delivered collect (CallWrite <$> bs) (acc, p) = (acc ++ bs, p)) as ->.
  { unfold delivered. revert acc. induction bs as [|b bs IH]; intros acc; cbn.
    - by rewrite app_nil_r.
    - by rewrite IH, <- app_assoc. }
  by destruct e.
Qed.

(** The promise of [output_stream.collect().toPromise(Promise)] is
    what [collect_to_promise] says, however the chain and the consumer take
    turns: when nothing more can happen, the consumer has accumulated the
    batches written, and its promise is resolved with them if the output
    was ended and unsettled if it was not. *)
Lemma collect_refines_promise init its w final :
  beginWith control tt = Ok init ->
  batchBy control its = Ok w ->
  rtc (sys_step control collect) (sys_init init its ([], Unsettled)) final ->
  nf (sys_step control collect) final ->
  reader final = (written w, collect_to_promise w).
Proof.
  intros Hinit Hrun Hrtc Hnf.
  destruct (sys_final control collect init its ([], Unsettled) w final)
    as (_ & _ & ->); [done..|].
  apply batchBy_inv in Hrun as (init' & _ & ->).
  destruct (drive_wellformed control init' its) as [-> _].
  rewrite delivered_collect. unfold collect_to_promise. by destruct (ended _).
Qed.

End collect_theorems.

(** ** A second transform as the consumer *)

Section pipeline.
Context {E TBatch TEntry T E2 TBatch2 T2 : Type} `{Truthy T} `{Truthy T2}.
Context (control : Control E TBatch TEntry T) (control2 : Control E2 TBatch2 T T2).
Implicit Types c : config E2 TBatch2 T2.

(** What a call on [output_stream] is for who reads the stream: a value, or
    the end.  An error that escaped the chain is not in the stream. *)
Definition call_item (call : out_call T) : item E2 T :=
  match call with
  | CallWrite x => Val x
  | CallEnd => Nil
  end.

(** [output_stream.through(batchBy(control2))]: the chain of the second
    transform is the consumer of the output stream of the first; its state
    is the state of its machine. *)
Definition downstream : consumer T (config E2 TBatch2 T2) :=
  Consumer (fun x c => exec control2 c [Val x]) (fun c => exec control2 c [Nil]).

Lemma exec_cons_one c i its : exec control2 (exec control2 c [i]) its = exec control2 c (i :: its).
Proof.
  cbn. destruct (next control2 c i) as [c'|] eqn:Hnext; [done|].
  by apply exec_halted, (next_None control2 c i).
Qed.

(** The second machine has read the calls handed to it as its input. *)
Lemma delivered_downstream cs c :
  delivered downstream cs c = exec control2 c (call_item <$> cs).
Proof.
  unfold delivered. revert c. induction cs as [|[x|] cs IH]; intros c; [done|..];
    cbn [foldl fmap list_fmap]; rewrite IH; apply exec_cons_one.
Qed.


End pipeline.
