(* ===== verification/Protocol.v ===== *)
(** * Protocol: policies with effects, and the calls the transform makes

    The three operations of a [Control] are JavaScript functions: they may
    have effects of their own besides returning a value.  [EControl] is the
    interface with such effects, on a world [P] that belongs to the policy;
    [e_batchBy] is the transform of lines 9-30 over it, the callbacks
    running on the pair of the policy's world and the output stream.

    An effect that does not change what the operations return is an
    observation of the calls made ([observed]).  The theorems show that an
    observing policy sees exactly the calls of the specification
    ([protocol]): [beginWith] once, [forEachEntry] on each entry in order
    with the batch the previous call returned, [end] once on the last
    batch, and nothing after a failure; and that the output is that of the
    transform over the policy without effects ([batchBy]).

    The file ends with the equivalence of two policies whose operations
    agree on every argument, and [e_batchBy] as a morphism for it, so that
    one policy is rewritten to the other under the transform. *)

From stdpp Require Import prelude.
From S2P Require Import Prelude JsValue Stream Control BatchBy.

(** [Control] (lines 3-7), its operations with effects on a world [P]. *)
Record EControl (E P TBatch TEntry TPushedBatch : Type) : Type := {
  e_beginWith : eff P (result E TBatch);
  e_forEachEntry : TBatch -> TEntry -> eff P (result E (step_result TBatch TPushedBatch));
  e_end : TBatch -> eff P (result E (end_result TPushedBatch))
}.

Arguments e_beginWith {E P TBatch TEntry TPushedBatch} _.
Arguments e_forEachEntry {E P TBatch TEntry TPushedBatch} _.
Arguments e_end {E P TBatch TEntry TPushedBatch} _.

(** ** The world of the program: the policy's and the output stream *)

Section worlds.
Context {P O : Type}.

Definition on_policy {A} (m : eff P A) : eff (P * O) A :=
  fun s => let '(a, p) := m s.1 in (a, (p, s.2)).

Definition on_output {A} (m : eff O A) : eff (P * O) A :=
  fun s => let '(a, o) := m s.2 in (a, (s.1, o)).

(** An error that escapes the chain is recorded with the output stream. *)
#[export] Instance pair_sink {E} `{!ErrorSink E O} : ErrorSink E (P * O) :=
  fun e => on_output (emit_error e).

End worlds.

(** ** The transform over a policy with effects *)

Section e_batchBy.
Context {E P TBatch TEntry TPushedBatch : Type} `{Truthy TPushedBatch}.
Implicit Types control : EControl E P TBatch TEntry TPushedBatch.
Local Open Scope eff_scope.

(** The callback of [scan] (lines 12-18). *)
Definition e_scan_callback control (batch : TBatch) (entry : TEntry)
    : eff (P * world E TPushedBatch) (result E TBatch) :=
  r <- on_policy (e_forEachEntry control batch entry) ;;
  match r with
  | Throw e => eff_ret (Throw e)
  | Ok result =>
      on_output (write_if_truthy (batch_to_push result)) ;;
      eff_ret (Ok (batch_to_update result))
  end.

(** The callback of [map] (lines 20-23). *)
Definition e_map_callback control (last_batch : TBatch)
    : eff (P * world E TPushedBatch) (result E unit) :=
  r <- on_policy (e_end control last_batch) ;;
  match r with
  | Throw e => eff_ret (Throw e)
  | Ok result =>
      on_output (write_if_truthy (end_batch_to_push result)) ;;
      eff_ret (Ok tt)
  end.

(** The callback of [done] (lines 24-26). *)
Definition e_done_callback : eff (P * world E TPushedBatch) unit :=
  on_output end_stream.

(** The chain of lines 12-26. *)
Definition e_chain control (init : TBatch) :=
  pipe (Highland.scan init (e_scan_callback control))
    (pipe Highland.last
       (pipe (Highland.map (e_map_callback control))
          (Highland.done e_done_callback))).

(** [batchBy(control)(object_stream)] (lines 9-30): the output stream, and
    the world of the policy afterwards. *)
Definition e_batchBy control (object_stream : list (item E TEntry))
    : eff P (result E (world E TPushedBatch)) :=
  fun p =>
    let '(r, p1) := e_beginWith control p in
    match r with
    | Throw e => (Throw e, p1)
    | Ok init =>
        let s := (run (e_chain control init) object_stream (p1, fresh)).2 in
        (Ok s.2, s.1)
    end.

End e_batchBy.

(** ** Effects as state passing *)

Section threaded.
Context {E P TBatch TEntry TPushedBatch : Type} `{Truthy TPushedBatch}.
Implicit Types control : EControl E P TBatch TEntry TPushedBatch.
Implicit Types w : world E TPushedBatch.
Implicit Types p : P.

(** The policy without effects that carries the world of [control] in its
    batch, from the world [p0]. *)
Definition threaded control (p0 : P) : Control E (TBatch * P) TEntry TPushedBatch :=
  {| beginWith _ :=
       let '(r, p) := e_beginWith control p0 in res_map (fun batch => (batch, p)) r;
     forEachEntry s entry :=
       let '(r, p) := e_forEachEntry control s.1 entry s.2 in
       res_map (fun x => StepResult (batch_to_update x, p) (batch_to_push x)) r;
     end_ s := (e_end control s.1 s.2).1 |}.

Lemma e_scan_callback_eq control batch entry p w :
  e_scan_callback control batch entry (p, w) =
    let '(r, p') := e_forEachEntry control batch entry p in
    match r with
    | Throw e => (Throw e, (p', w))
    | Ok x =>
        (Ok (batch_to_update x), (p', add_calls (truthy_batch (batch_to_push x)) [] None w))
    end.
Proof.
  unfold e_scan_callback, on_policy, on_output. unfold_eff. cbn.
  destruct (e_forEachEntry control batch entry p) as [[x|e] p']; [|done].
  by rewrite write_if_truthy_eq.
Qed.

Lemma e_map_callback_eq control batch p w :
  e_map_callback control batch (p, w) =
    let '(r, p') := e_end control batch p in
    match r with
    | Throw e => (Throw e, (p', w))
    | Ok x => (Ok tt, (p', add_calls (truthy_batch (end_batch_to_push x)) [] None w))
    end.
Proof.
  unfold e_map_callback, on_policy, on_output. unfold_eff. cbn.
  destruct (e_end control batch p) as [[x|e] p']; [|done].
  by rewrite write_if_truthy_eq.
Qed.

Lemma pair_sink_eq e p w :
  (emit_error e (p, w)).2 = (p, add_calls [] [] (Some e) w).
Proof. unfold emit_error, pair_sink, on_output. cbn. by rewrite <- emit_error_eq. Qed.

Lemma e_done_callback_eq p w bs :
  (e_done_callback (p, add_calls bs [] None w)).2 = (p, add_calls bs [CallEnd] None w).
Proof.
  unfold e_done_callback, on_output, end_stream, eff_modify, call, add_calls; cbn.
  by rewrite app_nil_r, <- app_assoc.
Qed.

(** The output of the loop over a policy with effects is the output of the
    loop over the policy that passes the state. *)
Lemma loop_threaded control p0 batch its p w :
  (loop_of (e_scan_callback control) (e_map_callback control) e_done_callback
     batch its (p, w)).2 = drive (threaded control p0) (batch, p) its w.
Proof.
  revert batch p w. induction its as [|[entry|e|] its IH]; intros batch p w;
    cbn [loop_of drive threaded forEachEntry end_ fst snd].
  - done.
  - rewrite e_scan_callback_eq.
    destruct (e_forEachEntry control batch entry p) as [[x|e] p'];
      [apply IH|by rewrite pair_sink_eq].
  - by rewrite pair_sink_eq.
  - rewrite e_map_callback_eq.
    destruct (e_end control batch p) as [[x|e] p'];
      by rewrite ?e_done_callback_eq, ?pair_sink_eq.
Qed.

(** The output stream of the transform over a policy with effects. *)
Lemma e_batchBy_output control its p :
  (e_batchBy control its p).1 = batchBy (threaded control p) its.
Proof.
  unfold e_batchBy, batchBy. cbn [beginWith threaded].
  destruct (e_beginWith control p) as [[init|e] p1]; [|done]. cbn [res_map fst].
  change (e_chain ?c init) with
    (chain_of (e_scan_callback c) (e_map_callback c) e_done_callback init).
  by rewrite run_chain_of, (loop_threaded _ p), run_chain.
Qed.

End threaded.

(** ** Observing policies *)

(** A call of an operation of the policy, with its arguments. *)
Inductive control_call (TBatch TEntry : Type) : Type :=
| CallBeginWith
| CallForEachEntry (batch : TBatch) (entry : TEntry)
| CallEnd_ (last_batch : TBatch).

Arguments CallBeginWith {TBatch TEntry}.
Arguments CallForEachEntry {TBatch TEntry} batch entry.
Arguments CallEnd_ {TBatch TEntry} last_batch.

Section observed.
Context {E P TBatch TEntry TPushedBatch : Type}.
Implicit Types control : Control E TBatch TEntry TPushedBatch.
Implicit Types notify : control_call TBatch TEntry -> P -> P.
Local Open Scope eff_scope.

(** The policy [control], each operation of which first notes its call in
    the world [P]. *)
Definition observed notify control : EControl E P TBatch TEntry TPushedBatch :=
  {| e_beginWith :=
       eff_modify (notify CallBeginWith) ;; eff_ret (beginWith control tt);
     e_forEachEntry batch entry :=
       eff_modify (notify (CallForEachEntry batch entry)) ;;
       eff_ret (forEachEntry control batch entry);
     e_end last_batch :=
       eff_modify (notify (CallEnd_ last_batch)) ;; eff_ret (end_ control last_batch) |}.

(** The calls the specification prescribes for the items of an input
    (section 4.2, steps 2 and 3): one [forEachEntry] per entry, each on the
    batch the previous one returned, then [end] on the last batch; nothing
    after a failure or an error of the input. *)
Fixpoint calls_of control (batch : TBatch) (its : list (item E TEntry))
    : list (control_call TBatch TEntry) :=
  match its with
  | [] => []
  | Val entry :: its' =>
      CallForEachEntry batch entry ::
        match forEachEntry control batch entry with
        | Ok r => calls_of control (batch_to_update r) its'
        | Throw _ => []
        end
  | Err _ :: _ => []
  | Nil :: _ => [CallEnd_ batch]
  end.

(** Step 1 included: [beginWith] first. *)
Definition protocol control (its : list (item E TEntry)) : list (control_call TBatch TEntry) :=
  CallBeginWith ::
    match beginWith control tt with
    | Ok init => calls_of control init its
    | Throw _ => []
    end.

(** The world of an observer after a sequence of calls. *)
Definition notified notify (cs : list (control_call TBatch TEntry)) (p : P) : P :=
  foldl (fun p c => notify c p) p cs.

End observed.

(** The observer that keeps the list of the calls. *)
Definition traced {E TBatch TEntry TPushedBatch} (control : Control E TBatch TEntry TPushedBatch)
    : EControl E (list (control_call TBatch TEntry)) TBatch TEntry TPushedBatch :=
  observed (fun c log => log ++ [c]) control.

(** The entry a call hands to [forEachEntry]. *)
Definition entry_of {TBatch TEntry} (c : control_call TBatch TEntry) : option TEntry :=
  match c with
  | CallForEachEntry _ entry => Some entry
  | _ => None
  end.

(** Whether a call is a call of [end]. *)
Definition is_end {TBatch TEntry} (c : control_call TBatch TEntry) : bool :=
  match c with
  | CallEnd_ _ => true
  | _ => false
  end.

(** ** An observing policy sees the protocol and changes nothing *)

Section observed_laws.
Context {E P TBatch TEntry TPushedBatch : Type} `{Truthy TPushedBatch}.
Context (notify : control_call TBatch TEntry -> P -> P).
Context (control : Control E TBatch TEntry TPushedBatch).
Implicit Types w : world E TPushedBatch.
Implicit Types p : P.

Lemma e_scan_callback_observed batch entry p w :
  e_scan_callback (observed notify control) batch entry (p, w) =
    match forEachEntry control batch entry with
    | Throw e => (Throw e, (notify (CallForEachEntry batch entry) p, w))
    | Ok r =>
        (Ok (batch_to_update r),
         (notify (CallForEachEntry batch entry) p,
          add_calls (truthy_batch (batch_to_push r)) [] None w))
    end.
Proof. by rewrite e_scan_callback_eq. Qed.

Lemma e_map_callback_observed batch p w :
  e_map_callback (observed notify control) batch (p, w) =
    match end_ control batch with
    | Throw e => (Throw e, (notify (CallEnd_ batch) p, w))
    | Ok r =>
        (Ok tt,
         (notify (CallEnd_ batch) p,
          add_calls (truthy_batch (end_batch_to_push r)) [] None w))
    end.
Proof. by rewrite e_map_callback_eq. Qed.

(** The loop of the chain over an observing policy: the observer is
    notified of the calls of the protocol, and the output stream is driven
    as by the policy without effects. *)
Lemma loop_observed batch its p w :
  loop_of (e_scan_callback (observed notify control))
    (e_map_callback (observed notify control)) e_done_callback batch its (p, w) =
  (notified notify (calls_of control batch its) p, drive control batch its w).
Proof.
  revert batch p w. induction its as [|[entry|e|] its IH]; intros batch p w;
    cbn [loop_of calls_of drive notified foldl].
  - done.
  - rewrite e_scan_callback_observed. case_result; [apply IH|apply pair_sink_eq].
  - apply pair_sink_eq.
  - rewrite e_map_callback_observed. case_result; [|apply pair_sink_eq].
    apply e_done_callback_eq.
Qed.

Lemma e_batchBy_observed_eq its p :
  e_batchBy (observed notify control) its p =
    (batchBy control its, notified notify (protocol control its) p).
Proof.
  unfold e_batchBy, batchBy, protocol.
  change (e_beginWith (observed notify control) p)
    with (beginWith control tt, notify CallBeginWith p).
  destruct (beginWith control tt) as [init|e]; [|done].
  change (e_chain ?c init) with
    (chain_of (e_scan_callback c) (e_map_callback c) e_done_callback init).
  by rewrite run_chain_of, loop_observed, run_chain.
Qed.

End observed_laws.

(** ** The calls of the protocol *)

Section protocol_laws.
Context {E TBatch TEntry TPushedBatch : Type}.
Context (control : Control E TBatch TEntry TPushedBatch).
Implicit Types xs : list TEntry.

Lemma notified_log (cs log : list (control_call TBatch TEntry)) :
  notified (fun c log => log ++ [c]) cs log = log ++ cs.
Proof.
  unfold notified. revert log.
  induction cs as [|c cs IH]; intros log; cbn; [by rewrite app_nil_r|].
  by rewrite IH, <- app_assoc.
Qed.

Lemma calls_of_cons batch x xs :
  calls_of control batch (Highland.of_array (x :: xs)) =
    CallForEachEntry batch x ::
      match forEachEntry control batch x with
      | Ok r => calls_of control (batch_to_update r) (Highland.of_array xs)
      | Throw _ => []
      end.
Proof. done. Qed.

(** Over a whole input on which no [forEachEntry] fails: every entry once,
    in order, and then [end] on the batch of the fold. *)
Lemma calls_of_complete emit batch xs last_batch :
  (fold_with emit control batch xs).2 = Ok last_batch ->
  omap entry_of (calls_of control batch (Highland.of_array xs)) = xs /\
  last (calls_of control batch (Highland.of_array xs)) = Some (CallEnd_ last_batch) /\
  length (calls_of control batch (Highland.of_array xs)) = S (length xs).
Proof.
  revert batch. induction xs as [|x xs IH]; intros batch; [by intros [= ->]|].
  rewrite calls_of_cons. cbn [fold_with].
  destruct (forEachEntry control batch x) as [r|e]; [|done].
  destruct (fold_with emit control _ xs) as [out res] eqn:Hfold. intros Hres.
  destruct (IH (batch_to_update r)) as (Hxs & Hlast & Hlen); [by rewrite Hfold|].
  cbn [omap entry_of length]. rewrite Hlen.
  split_and!; [by rewrite <- Hxs at 2| |done].
  rewrite <- Hlast. destruct (calls_of control _ (Highland.of_array xs)); [done|].
  apply last_cons_cons.
Qed.

(** When a [forEachEntry] fails, [end] is never called, and the entries
    handed over are a prefix of the input. *)
Lemma calls_of_failed emit batch xs e :
  (fold_with emit control batch xs).2 = Throw e ->
  (omap entry_of (calls_of control batch (Highland.of_array xs)) `prefix_of` xs) /\
  forallb (fun c => negb (is_end c)) (calls_of control batch (Highland.of_array xs)) = true.
Proof.
  revert batch. induction xs as [|x xs IH]; intros batch; [done|].
  rewrite calls_of_cons. cbn [fold_with].
  destruct (forEachEntry control batch x) as [r|e'];
    [|intros _; split; [by apply prefix_cons, prefix_nil|done]].
  destruct (fold_with emit control _ xs) as [out res] eqn:Hfold. intros Hres.
  destruct (IH (batch_to_update r)) as [Hpre Hno]; [by rewrite Hfold|].
  split; [by apply prefix_cons|done].
Qed.

End protocol_laws.

(** ** Theorems about the calls of the transform *)

Section protocol_theorems.
Context {E TBatch TEntry TPushedBatch : Type} `{Truthy TPushedBatch}.
Context (control : Control E TBatch TEntry TPushedBatch).
Implicit Types xs : list TEntry.

(** The log of the tracing policy is the protocol. *)
Lemma traced_log its : (e_batchBy (traced control) its []).2 = protocol control its.
Proof. unfold traced. rewrite e_batchBy_observed_eq. apply notified_log. Qed.

(** C15.  A policy whose effects are observations of its calls does not
    change the transform: on every input the output stream is the one of
    the policy without effects, and the observer has been notified of
    exactly the calls of the specification, in order: [beginWith], then
    [forEachEntry] on each entry with the batch the previous call returned,
    then [end] on the last batch; nothing after a failure or an error of
    the input. *)
Theorem e_batchBy_observed {P} (notify : control_call TBatch TEntry -> P -> P) its p :
  e_batchBy (observed notify control) its p =
    (batchBy control its, notified notify (protocol control its) p).
Proof. apply e_batchBy_observed_eq. Qed.

(** C14.  Effects of the policy are state passing: for every policy with
    effects, on every input and from every world of the policy, the output
    stream of the transform is the output stream of the transform over the
    policy without effects that carries that world in its batch
    ([threaded]).  What is proved of [batchBy] for all policies holds of
    policies with effects. *)
Theorem e_batchBy_threaded {P} (econtrol : EControl E P TBatch TEntry TPushedBatch) its p :
  (e_batchBy econtrol its p).1 = batchBy (threaded econtrol p) its.
Proof. apply e_batchBy_output. Qed.

(** C10.  On a finite input on which no operation fails, the transform
    calls [beginWith] first, then [forEachEntry] exactly once per entry in
    the order of the input, and [end] last, exactly once. *)
Theorem traced_complete xs :
  failure (spec_run control xs) = None ->
  let log := (e_batchBy (traced control) (Highland.of_array xs) []).2 in
  head log = Some CallBeginWith /\
  omap entry_of log = xs /\
  (exists last_batch, last log = Some (CallEnd_ last_batch)) /\
  length log = length xs + 2.
Proof.
  intros Hok log. subst log. rewrite traced_log. revert Hok. unfold spec_run, protocol.
  destruct (beginWith control tt) as [init|]; [|done].
  destruct (spec_entries control init xs) as [out [last_batch|]] eqn:Hfold; [|done].
  intros _.
  destruct (calls_of_complete control present init xs last_batch) as (Hxs & Hlast & Hlen);
    [by unfold spec_entries in Hfold; rewrite Hfold|].
  split_and!; [done|exact Hxs| |cbn [length]; lia].
  exists last_batch. rewrite <- Hlast.
  destruct (calls_of control init (Highland.of_array xs)); [done|apply last_cons_cons].
Qed.

(** C16.  When [forEachEntry] throws, [end] is never called, no entry after
    the failing one is handed to the policy, and none is skipped before
    it. *)
Theorem traced_failure xs init e :
  beginWith control tt = Ok init ->
  (spec_entries control init xs).2 = Throw e ->
  let log := (e_batchBy (traced control) (Highland.of_array xs) []).2 in
  (omap entry_of log `prefix_of` xs) /\ forallb (fun c => negb (is_end c)) log = true.
Proof.
  intros Hinit Hfold log. subst log. rewrite traced_log. unfold protocol. rewrite Hinit.
  by apply (calls_of_failed control present _ _ e).
Qed.

End protocol_theorems.

(** ** Policies with the same operations *)

(** Two policies with effects are equivalent when their operations agree
    on every argument and in every world: the transform cannot tell them
    apart, though they need not be equal as records of functions. *)
#[export] Instance econtrol_equiv {E P TBatch TEntry TPushedBatch} :
    Equiv (EControl E P TBatch TEntry TPushedBatch) := fun c1 c2 =>
  (forall p, e_beginWith c1 p = e_beginWith c2 p) /\
  (forall batch x p, e_forEachEntry c1 batch x p = e_forEachEntry c2 batch x p) /\
  (forall batch p, e_end c1 batch p = e_end c2 batch p).

#[export] Instance econtrol_equivalence {E P TBatch TEntry TPushedBatch} :
  Equivalence (≡@{EControl E P TBatch TEntry TPushedBatch}).
Proof.
  split.
  - by intros c.
  - intros c1 c2 (Hb & Hs & He). by split_and!; intros; symmetry.
  - intros c1 c2 c3 (Hb & Hs & He) (Hb' & Hs' & He').
    split_and!; intros; etrans; eauto.
Qed.

Section equal_operations.
Context {E P TBatch TEntry TPushedBatch : Type} `{Truthy TPushedBatch}.
Implicit Types c : EControl E P TBatch TEntry TPushedBatch.

Lemma loop_of_ext c1 c2 batch its (s : P * world E TPushedBatch) :
  c1 ≡ c2 ->
  loop_of (e_scan_callback c1) (e_map_callback c1) e_done_callback batch its s =
  loop_of (e_scan_callback c2) (e_map_callback c2) e_done_callback batch its s.
Proof.
  intros (_ & Hstep & Hend).
  revert batch s. induction its as [|[x|e|] its IH]; intros batch [p w];
    cbn [loop_of]; [done| |done|].
  - rewrite !e_scan_callback_eq, Hstep.
    by destruct (e_forEachEntry c2 batch x p) as [[r|e] p'].
  - by rewrite !e_map_callback_eq, Hend.
Qed.

(** The transform sees a policy through its three operations only. *)
#[export] Instance e_batchBy_proper :
  Proper ((≡) ==> (=) ==> (=) ==> (=)) (e_batchBy (E := E) (P := P) (TBatch := TBatch)
                                          (TEntry := TEntry) (TPushedBatch := TPushedBatch)).
Proof.
  intros c1 c2 Hc its _ <- p _ <-. unfold e_batchBy.
  rewrite (proj1 Hc). destruct (e_beginWith c2 p) as [[init|e] p1]; [|done].
  change (e_chain ?c init) with
    (chain_of (e_scan_callback c) (e_map_callback c) e_done_callback init).
  by rewrite !run_chain_of, (loop_of_ext c1 c2).
Qed.

End equal_operations.
