(* ===== verification/GroupSpec.v ===== *)
(** * GroupSpec: maximal runs of a list

    The abstract specification of grouping consecutive elements: [runs cut
    l] splits [l] wherever [cut] holds between two neighbours and nowhere
    else.  It is defined by recursion on the list, without an accumulator,
    and characterised by four properties ([is_runs]) that determine it.

    [runs_from] is the same split computed from left to right with the run
    under construction as an accumulator, the way a stream transform has to
    compute it; [runs_from_runs] proves that it computes [runs].  Nothing
    here depends on the program: [SamePattern] instantiates it. *)

From stdpp Require Import prelude.
From S2P Require Import Prelude.

Section runs.
Context {A : Type} (cut : A -> A -> bool).
Implicit Types l r : list A.
Implicit Types rs : list (list A).

(** The maximal runs of [l]: [x] joins the run of its right neighbour
    unless [cut] separates them. *)
Fixpoint runs l : list (list A) :=
  match l with
  | [] => []
  | x :: l' =>
      match head l', runs l' with
      | Some y, r :: rs => if cut x y then [x] :: r :: rs else (x :: r) :: rs
      | _, _ => [[x]]
      end
  end.

(** No cut between two neighbours of [r]. *)
Fixpoint linked r : bool :=
  match r with
  | x :: (y :: _) as r' => negb (cut x y) && linked r'
  | _ => true
  end.

(** A cut between the last element of each list and the first of the next. *)
Fixpoint separated rs : bool :=
  match rs with
  | r1 :: (r2 :: _) as rs' =>
      match last r1, head r2 with
      | Some x, Some y => cut x y
      | _, _ => false
      end && separated rs'
  | _ => true
  end.

(** [rs] is a split of [l] into maximal runs. *)
Definition is_runs l rs : Prop :=
  concat rs = l /\
  Forall (fun r => r <> []) rs /\
  Forall (fun r => linked r = true) rs /\
  separated rs = true.

(** The split computed from left to right: [cur ++ [y]] is the run under
    construction and [y] the element seen last. *)
Fixpoint runs_from (cur : list A) (y : A) l : list (list A) :=
  match l with
  | [] => [cur ++ [y]]
  | x :: l' =>
      if cut y x then (cur ++ [y]) :: runs_from [] x l'
      else runs_from (cur ++ [y]) x l'
  end.

(** ** [runs] is the split into maximal runs *)

(** One step of [runs], by the next element. *)
Lemma runs_step x l :
  runs (x :: l) =
    match l, runs l with
    | y :: _, r :: rs => if cut x y then [x] :: r :: rs else (x :: r) :: rs
    | _, _ => [[x]]
    end.
Proof. by destruct l. Qed.

(** [runs l] is empty, for the empty list, or starts with a run that starts
    with the first element of [l]. *)
Lemma runs_shape l :
  l = [] /\ runs l = [] \/ exists y l' r rs, l = y :: l' /\ runs l = (y :: r) :: rs.
Proof.
  destruct l as [|x l]; [by left|right]. rewrite runs_step.
  destruct l as [|y l]; [by exists x, [], [], []|].
  destruct (runs (y :: l)) as [|r rs]; [by exists x, (y :: l), [], []|].
  destruct (cut x y); by repeat eexists.
Qed.

Lemma runs_nil_inv l : runs l = [] -> l = [].
Proof. by destruct (runs_shape l) as [[-> _]|(y & l' & r & rs & -> & ->)]. Qed.

Lemma concat_runs l : concat (runs l) = l.
Proof.
  induction l as [|x l IH]; [done|]. rewrite runs_step.
  destruct l as [|y l]; [done|]. destruct (runs (y :: l)) as [|r rs]; [done|].
  destruct (cut x y); cbn in *; by rewrite IH.
Qed.

Lemma runs_nonempty l : Forall (fun r => r <> []) (runs l).
Proof.
  induction l as [|x l IH]; [constructor|]. rewrite runs_step.
  destruct l as [|y l]; [by repeat constructor|].
  destruct (runs (y :: l)) as [|r rs]; [by repeat constructor|].
  destruct (cut x y); [by constructor|].
  constructor; [done|]. by eapply Forall_inv_tail.
Qed.

Lemma runs_linked l : Forall (fun r => linked r = true) (runs l).
Proof.
  induction l as [|x l IH]; [constructor|]. rewrite runs_step.
  destruct (runs_shape l) as [[-> _]|(y & l' & r & rs & -> & Hr)];
    [by repeat constructor|].
  rewrite Hr in *. destruct (cut x y) eqn:Hcut; [by constructor|].
  constructor; [|by eapply Forall_inv_tail].
  apply Forall_inv in IH. cbn in *. by rewrite Hcut.
Qed.

Lemma runs_separated l : separated (runs l) = true.
Proof.
  induction l as [|x l IH]; [done|]. rewrite runs_step.
  destruct (runs_shape l) as [[-> _]|(y & l' & r & rs & -> & Hr)]; [done|].
  rewrite Hr in *. destruct (cut x y) eqn:Hcut; cbn in *; [by rewrite Hcut|].
  destruct rs as [|r2 rs]; [done|]. by destruct r.
Qed.

Lemma runs_is_runs l : is_runs l (runs l).
Proof.
  split_and!; auto using concat_runs, runs_nonempty, runs_linked, runs_separated.
Qed.

(** ** Runs under construction *)

Lemma linked_app_cons r y l :
  linked (r ++ y :: l) = linked (r ++ [y]) && linked (y :: l).
Proof.
  induction r as [|z r IH]; [done|].
  destruct r as [|z' r]; cbn in *; [by rewrite andb_true_r|].
  by rewrite IH, andb_assoc.
Qed.

Lemma linked_snoc r y x :
  linked (r ++ [y]) = true -> cut y x = false -> linked ((r ++ [y]) ++ [x]) = true.
Proof.
  intros Hr Hcut. rewrite <- app_assoc. cbn. rewrite linked_app_cons, Hr. cbn.
  by rewrite Hcut.
Qed.

Lemma linked_cons_inv x r : linked (x :: r) = true -> linked r = true.
Proof. destruct r; cbn; [done|]. by intros [_ ?]%andb_true_iff. Qed.

(** A linked list put in front of [y] joins the run of [y]. *)
Lemma runs_prepend_linked cur y l :
  linked (cur ++ [y]) = true ->
  runs (cur ++ y :: l) =
    match runs (y :: l) with
    | r :: rs => (cur ++ r) :: rs
    | [] => []
    end.
Proof.
  induction cur as [|z cur IH]; intros Hlinked.
  - rewrite app_nil_l. by destruct (runs (y :: l)).
  - assert (exists h t, cur ++ y :: l = h :: t /\ cut z h = false) as (h & t & Heq & Hcut).
    { destruct cur as [|h cur]; cbn in *; repeat eexists;
        by apply andb_true_iff in Hlinked as [?%negb_true_iff _]. }
    rewrite <- app_comm_cons, runs_step, Heq, <- Heq, Hcut.
    rewrite IH by by eapply linked_cons_inv.
    by destruct (runs_shape (y :: l)) as [[? _]|(? & ? & r & rs & _ & ->)].
Qed.

Lemma runs_linked_cut cur y x l :
  linked (cur ++ [y]) = true -> cut y x = true ->
  runs (cur ++ y :: x :: l) = (cur ++ [y]) :: runs (x :: l).
Proof.
  intros Hlinked Hcut. rewrite runs_prepend_linked, runs_step, Hcut by done.
  by destruct (runs_shape (x :: l)) as [[? _]|(? & ? & r & rs & _ & ->)].
Qed.

Lemma runs_linked_end cur y :
  linked (cur ++ [y]) = true -> runs (cur ++ [y]) = [cur ++ [y]].
Proof. intros. by rewrite runs_prepend_linked. Qed.

(** The left-to-right computation with an accumulator computes [runs]. *)
Lemma runs_from_runs cur y l :
  linked (cur ++ [y]) = true ->
  runs_from cur y l = runs (cur ++ y :: l).
Proof.
  revert cur y. induction l as [|x l IH]; intros cur y Hlinked; cbn [runs_from].
  - by rewrite runs_linked_end.
  - destruct (cut y x) eqn:Hcut.
    + by rewrite runs_linked_cut, IH.
    + rewrite IH, <- app_assoc by by apply linked_snoc. done.
Qed.

Lemma runs_from_nil y l : runs_from [] y l = runs (y :: l).
Proof. by apply (runs_from_runs []). Qed.

(** ** The four properties determine the split *)

Lemma is_runs_unique l rs : is_runs l rs -> rs = runs l.
Proof.
  intros (<- & Hne & Hlinked & Hsep).
  induction rs as [|r1 rs IH]; [done|].
  apply Forall_cons in Hne as [Hr1 Hne], Hlinked as [Hl1 Hlinked].
  destruct (exists_last Hr1) as (cur & y & ->).
  cbn [concat]. rewrite <- app_assoc. cbn [app].
  destruct rs as [|[|x r2] rs].
  - by rewrite runs_linked_end.
  - by apply Forall_inv in Hne.
  - cbn [separated] in Hsep. rewrite last_snoc in Hsep. cbn in Hsep.
    apply andb_true_iff in Hsep as [Hcut Hsep].
    change (concat ((x :: r2) :: rs)) with (x :: (r2 ++ concat rs)) in *.
    rewrite runs_linked_cut by done. f_equal. by apply IH.
Qed.

(** A linked list is its own single run. *)
Lemma runs_linked_id l : l <> [] -> linked l = true -> runs l = [l].
Proof.
  intros Hl. destruct (exists_last Hl) as (cur & y & ->). apply runs_linked_end.
Qed.

(** No cut between any two elements: the list is linked. *)
Lemma linked_no_cut l :
  (forall a b, a ∈ l -> b ∈ l -> cut a b = false) -> linked l = true.
Proof.
  induction l as [|x l IH]; intros Hcut; [done|].
  destruct l as [|y l]; [done|].
  change (negb (cut x y) && linked (y :: l) = true).
  rewrite (Hcut x y), IH; [done| |set_solver..].
  intros a b ??. apply Hcut; set_solver.
Qed.

(** Cut everywhere: every element is a run. *)
Lemma runs_all_cut l :
  (forall i x y, l !! i = Some x -> l !! S i = Some y -> cut x y = true) ->
  runs l = (fun x => [x]) <$> l.
Proof.
  induction l as [|x l IH]; intros Hcut; [done|].
  specialize (IH (fun i => Hcut (S i))).
  destruct l as [|y l]; [done|]. by rewrite (runs_step x), IH, (Hcut 0 x y).
Qed.

(** ** What linked and separated give *)

(** In a linked list every element is related to the last one, for any
    relation that holds between uncut neighbours and is transitive and
    reflexive on the elements. *)
Lemma linked_related (R : A -> A -> Prop) (D : A -> Prop) r y :
  (forall a b, D a -> D b -> cut a b = false -> R a b) ->
  (forall a b c, D a -> D b -> D c -> R a b -> R b c -> R a c) ->
  (forall a, D a -> R a a) ->
  Forall D r -> linked r = true -> last r = Some y ->
  Forall (fun x => R x y) r.
Proof.
  intros Hcut Htrans Hrefl HD Hlinked Hlast.
  assert (D y) as Hy.
  { apply last_Some in Hlast as [r' ->]. by apply Forall_app in HD as [_ ?%Forall_inv]. }
  induction r as [|a r IH]; [done|].
  apply Forall_cons in HD as [Ha HD]. destruct r as [|b r].
  - injection Hlast as ->. auto.
  - cbn [linked] in Hlinked. apply andb_true_iff in Hlinked as [Hab%negb_true_iff Hlinked].
    rewrite last_cons_cons in Hlast. specialize (IH HD Hlinked Hlast).
    constructor; [|done]. pose proof (Forall_inv HD) as Hb.
    apply (Htrans a b y); auto. by apply Forall_inv in IH.
Qed.

(** Between two consecutive lists of a separated split there is a cut. *)
Lemma separated_lookup rs i r1 r2 :
  separated rs = true -> rs !! i = Some r1 -> rs !! S i = Some r2 ->
  exists x y, last r1 = Some x /\ head r2 = Some y /\ cut x y = true.
Proof.
  revert i. induction rs as [|r rs IH]; intros i Hsep Hi HSi; [done|].
  destruct rs as [|r' rs]; [done|].
  cbn [separated] in Hsep. apply andb_true_iff in Hsep as [Hcut Hsep].
  destruct i as [|i]; [|by eapply IH].
  cbn in Hi, HSi. simplify_eq.
  destruct (last r1) as [x|], (head r2) as [y|]; try done. by exists x, y.
Qed.

End runs.

(** [runs] commutes with a map. *)
Lemma runs_fmap {A B} (f : A -> B) (cut : B -> B -> bool) (l : list A) :
  runs cut (f <$> l) = (fmap f : list A -> list B) <$> runs (fun a b => cut (f a) (f b)) l.
Proof.
  induction l as [|x l IH]; [done|].
  rewrite fmap_cons, !runs_step. destruct l as [|y l]; [done|].
  rewrite fmap_cons in *. rewrite IH.
  destruct (runs _ (y :: l)) as [|r rs]; [done|]. cbn. by destruct (cut (f x) (f y)).
Qed.

(** [runs] looks at [cut] between neighbours only. *)
Lemma runs_ext {A} (cut cut' : A -> A -> bool) (l : list A) :
  (forall i x y, l !! i = Some x -> l !! S i = Some y -> cut x y = cut' x y) ->
  runs cut l = runs cut' l.
Proof.
  induction l as [|x l IH]; intros Hcut; [done|].
  specialize (IH (fun i => Hcut (S i))).
  destruct l as [|y l]; [done|].
  by rewrite (runs_step cut x), (runs_step cut' x), IH, (Hcut 0 x y).
Qed.
