(* ===== verification/SamePattern.v ===== *)
(** * SamePattern: the policy that groups consecutive entries

    [samePattern({extractPattern, same})] (highland-batch-by.ts, lines
    38-80) is a [Control] whose batch is the record [TBatchSamePattern]
    (lines 33-36): the pattern of the latest entry and the entries
    accumulated so far.  An entry joins the batch when the batch has no
    pattern yet or [same] says its pattern is the batch's; otherwise the
    batch is pushed and a new one starts with the entry.

    The two callbacks may throw, so they return a [result]; a policy given
    two pure functions is [pure_config].  [accumulate_pattern] has the type
    [TPattern | null]: the model takes the whole type [P] with its null test
    ([Nullable]), since [extractPattern] may itself return [null]. *)

From stdpp Require Import prelude.
From S2P Require Import Prelude JsValue Stream Control BatchBy Partition Invariant GroupSpec.

(** [TBatchSamePattern<TPattern, TEntry>] (lines 33-36). *)
Record TBatchSamePattern (P TEntry : Type) : Type := Batch {
  accumulate_pattern : P;
  items : list TEntry
}.

Arguments Batch {P TEntry} accumulate_pattern items.
Arguments accumulate_pattern {P TEntry} _.
Arguments items {P TEntry} _.

(** A batch is an object: truthy. *)
#[export] Instance batch_truthy {P TEntry} : Truthy (TBatchSamePattern P TEntry) :=
  fun _ => true.

#[export] Instance batch_always_truthy {P TEntry} :
  AlwaysTruthy (TBatchSamePattern P TEntry).
Proof. by intros ?. Qed.

#[export] Instance batch_eq_dec `{EqDecision P, EqDecision TEntry} :
  EqDecision (TBatchSamePattern P TEntry).
Proof. solve_decision. Defined.

(** The argument of [samePattern] (lines 38-43). *)
Record pattern_config (E P TEntry : Type) : Type := PatternConfig {
  extractPattern : TEntry -> P -> result E P;
  same : P -> P -> result E bool
}.

Arguments PatternConfig {E P TEntry} extractPattern same.
Arguments extractPattern {E P TEntry} _.
Arguments same {E P TEntry} _.

Section samePattern.
Context {E P TEntry : Type} `{Nullable P}.
Implicit Types cfg : pattern_config E P TEntry.
Implicit Types batch : TBatchSamePattern P TEntry.
Local Open Scope result_scope.

(** [beginWith] (line 46). *)
Definition samePattern_beginWith (_ : unit) : result E (TBatchSamePattern P TEntry) :=
  Ok (Batch null []).

(** The test of line 50: [same] is not called on a batch with no pattern. *)
Definition joins cfg (accumulate_pattern current_pattern : P) : result E bool :=
  if is_null accumulate_pattern then Ok true
  else same cfg accumulate_pattern current_pattern.

(** [forEachEntry] (lines 47-70). *)
Definition samePattern_forEachEntry cfg batch (entry : TEntry)
    : result E (step_result (TBatchSamePattern P TEntry) (TBatchSamePattern P TEntry)) :=
  current_pattern <- extractPattern cfg entry (accumulate_pattern batch) ;;
  join <- joins cfg (accumulate_pattern batch) current_pattern ;;
  if join : bool then
    Ok {| batch_to_push := None;
          batch_to_update := Batch current_pattern (items batch ++ [entry]) |}
  else
    Ok {| batch_to_push := Some (Batch (accumulate_pattern batch) (items batch));
          batch_to_update := Batch current_pattern [entry] |}.

(** [end] (lines 71-78): the last batch is always pushed. *)
Definition samePattern_end batch : result E (end_result (TBatchSamePattern P TEntry)) :=
  Ok {| end_batch_to_push := Some (Batch (accumulate_pattern batch) (items batch)) |}.

(** [samePattern] (lines 38-80). *)
Definition samePattern cfg
    : Control E (TBatchSamePattern P TEntry) TEntry (TBatchSamePattern P TEntry) :=
  {| beginWith := samePattern_beginWith;
     forEachEntry := samePattern_forEachEntry cfg;
     end_ := samePattern_end |}.

(** A policy made of two functions that do not throw. *)
Definition pure_config (extract : TEntry -> P -> P) (eqv : P -> P -> bool)
    : pattern_config E P TEntry :=
  PatternConfig (fun entry acc => Ok (extract entry acc)) (fun a b => Ok (eqv a b)).

End samePattern.

(** ** The policy with pure callbacks, and what it groups *)

Section grouping.
Context {E P TEntry : Type} `{Nullable P}.
Context (extract : TEntry -> P -> P) (eqv : P -> P -> bool).
Implicit Types batch : TBatchSamePattern P TEntry.
Implicit Types xs : list TEntry.

(** The entries with the pattern line 49 computes for each: the pattern of
    an entry is extracted with the pattern of the entry before it (with
    [acc] for the first). *)
Fixpoint annotate (acc : P) xs : list (TEntry * P) :=
  match xs with
  | [] => []
  | x :: xs' => let p := extract x acc in (x, p) :: annotate p xs'
  end.

(** A batch ends between two entries when the pattern of the first is not
    null and is not the same as the pattern of the second (line 50). *)
Definition cut_after (a b : TEntry * P) : bool :=
  negb (is_null a.2 || eqv a.2 b.2).

(** The batch of a run: its entries, with the pattern of the last one. *)
Definition batch_of (r : list (TEntry * P)) : TBatchSamePattern P TEntry :=
  Batch (from_option snd null (last r)) (fst <$> r).

(** The batches of a list of entries: one per maximal run, and a single
    empty batch for no entry at all. *)
Definition grouped xs : list (TBatchSamePattern P TEntry) :=
  match xs with
  | [] => [Batch null []]
  | _ => batch_of <$> runs cut_after (annotate null xs)
  end.

Lemma batch_of_snoc cur y : batch_of (cur ++ [y]) = Batch y.2 ((fst <$> cur) ++ [y.1]).
Proof. unfold batch_of. by rewrite last_snoc, fmap_app. Qed.

Lemma samePattern_forEachEntry_pure batch x :
  samePattern_forEachEntry (E := E) (pure_config extract eqv) batch x =
    let p := extract x (accumulate_pattern batch) in
    Ok (if is_null (accumulate_pattern batch) || eqv (accumulate_pattern batch) p
        then StepResult (Batch p (items batch ++ [x])) None
        else StepResult (Batch p [x]) (Some batch)).
Proof.
  destruct batch as [acc its]. unfold samePattern_forEachEntry, joins; cbn.
  destruct (is_null acc); cbn; [done|]. by destruct (eqv acc _).
Qed.

(** The fold of the transform from a batch under construction: what it
    writes and the batch it ends with are the runs computed from left to
    right. *)
Lemma fold_entries_runs_from cur y xs :
  exists out last,
    fold_entries (samePattern (E := E) (pure_config extract eqv))
      (batch_of (cur ++ [y])) xs = (out, Ok last) /\
    out ++ [last] = batch_of <$> runs_from cut_after cur y (annotate y.2 xs).
Proof.
  revert cur y. induction xs as [|x xs IH]; intros cur y.
  { by exists [], (batch_of (cur ++ [y])). }
  unfold fold_entries in *. cbn [fold_with forEachEntry samePattern annotate runs_from].
  rewrite samePattern_forEachEntry_pure, batch_of_snoc. cbn [accumulate_pattern items].
  set (p := extract x y.2). unfold cut_after at 1. cbn [snd].
  destruct (is_null y.2 || eqv y.2 p); cbn [negb batch_to_update batch_to_push].
  - destruct (IH (cur ++ [y]) (x, p)) as (out & last & Hfold & Hout).
    rewrite batch_of_snoc, fmap_app in Hfold. cbn in Hfold. rewrite Hfold.
    by exists out, last.
  - destruct (IH [] (x, p)) as (out & last & Hfold & Hout).
    rewrite batch_of_snoc in Hfold. cbn in Hfold. rewrite Hfold.
    exists (Batch y.2 ((fst <$> cur) ++ [y.1]) :: out), last. split; [done|].
    cbn in Hout. by rewrite fmap_cons, batch_of_snoc, <- Hout.
Qed.

(** From the initial batch: the first entry always joins. *)
Lemma fold_entries_grouped x xs :
  exists out last,
    fold_entries (samePattern (E := E) (pure_config extract eqv)) (Batch null []) (x :: xs)
      = (out, Ok last) /\
    out ++ [last] = grouped (x :: xs).
Proof.
  unfold fold_entries, grouped. cbn [fold_with forEachEntry samePattern annotate].
  rewrite samePattern_forEachEntry_pure. cbn [accumulate_pattern items].
  rewrite is_null_null. cbn [orb batch_to_update batch_to_push app truthy_batch].
  destruct (fold_entries_runs_from [] (x, extract x null) xs)
    as (out & last & Hfold & Hout).
  unfold fold_entries in Hfold. rewrite batch_of_snoc in Hfold. cbn in Hfold.
  rewrite Hfold. exists out, last. split; [done|].
  by rewrite Hout, runs_from_nil.
Qed.

End grouping.

(** ** Theorems about the policy *)

Section theorems.
Context {E P TEntry : Type} `{Nullable P}.
Implicit Types cfg : pattern_config E P TEntry.
Implicit Types extract : TEntry -> P -> P.
Implicit Types eqv : P -> P -> bool.
Implicit Types xs : list TEntry.

Lemma annotate_fst extract acc xs : (annotate extract acc xs).*1 = xs.
Proof. revert acc. induction xs as [|x xs IH]; intros acc; cbn; by rewrite ?IH. Qed.

Lemma items_batch_of (r : list (TEntry * P)) : items (batch_of r) = r.*1.
Proof. done. Qed.

(** The batches of [grouped], put end to end, are the entries. *)
Lemma concat_grouped extract eqv xs :
  concat (items <$> grouped extract eqv xs) = xs.
Proof.
  destruct xs as [|x xs]; [done|]. unfold grouped.
  rewrite <- list_fmap_compose.
  rewrite (list_fmap_ext _ (fmap fst : list (TEntry * P) -> list TEntry) (runs _ _)) by done.
  by rewrite <- fmap_concat, concat_runs, annotate_fst.
Qed.

(** The loop over an array, for a policy with pure callbacks. *)
Lemma drive_samePattern extract eqv xs :
  drive (samePattern (E := E) (pure_config extract eqv)) (Batch null [])
    (Highland.of_array xs) fresh =
  World ((CallWrite <$> grouped extract eqv xs) ++ [CallEnd]) None.
Proof.
  rewrite drive_of_array. destruct xs as [|x xs]; [done|].
  destruct (fold_entries_grouped (E := E) extract eqv x xs) as (out & [acc its] & -> & <-).
  cbn [end_ samePattern samePattern_end end_batch_to_push truthy_batch].
  by rewrite add_calls_fresh.
Qed.

(** C2.  With callbacks that do not throw, the transform over the policy
    writes exactly the batches of the specification [grouped]: one batch
    per maximal run of consecutive entries between which line 50 finds the
    same pattern, each with the pattern of its last entry; then it ends the
    output, and no error escapes. *)
Theorem samePattern_is_grouped extract eqv xs :
  batchBy (samePattern (E := E) (pure_config extract eqv)) (Highland.of_array xs) =
    Ok (World ((CallWrite <$> grouped extract eqv xs) ++ [CallEnd]) None).
Proof. by rewrite (batchBy_ok _ _ (Batch null [])), drive_samePattern. Qed.

(** C5.  No entry is lost, duplicated or reordered: the [items] of the
    batches written, put end to end in the order of emission, are the
    entries of the input in their order. *)
Theorem samePattern_concat extract eqv xs :
  res_map (fun w => concat (items <$> written w))
    (batchBy (samePattern (E := E) (pure_config extract eqv)) (Highland.of_array xs))
  = Ok xs.
Proof.
  rewrite (batchBy_ok _ _ (Batch null [])), drive_samePattern by done.
  unfold res_map. by rewrite written_add_calls_end, concat_grouped.
Qed.

(** On an empty input the policy still emits one batch, with the null
    pattern and no item, whatever its callbacks are (they are not called). *)
Lemma samePattern_empty_input cfg :
  batchBy (samePattern cfg) (Highland.of_array []) =
    Ok (World [CallWrite (Batch null []); CallEnd] None).
Proof. done. Qed.

End theorems.

(** ** The policy keeps the entries, whatever its callbacks do *)

Section partitioning.
Context {E P TEntry : Type} `{Nullable P}.
Implicit Types cfg : pattern_config E P TEntry.
Implicit Types batch : TBatchSamePattern P TEntry.

Lemma samePattern_begin_keeps batch :
  samePattern_beginWith (E := E) tt = Ok batch -> items batch = [].
Proof. by intros [= <-]. Qed.

(** An entry goes to the end of the batch, or the batch is pushed whole and
    the entry starts the next one. *)
Lemma samePattern_step_keeps cfg batch x r :
  samePattern_forEachEntry cfg batch x = Ok r ->
  concat (items <$> present (batch_to_push r)) ++ items (batch_to_update r)
    = items batch ++ [x].
Proof.
  unfold samePattern_forEachEntry, res_bind.
  destruct (extractPattern cfg x _) as [p|]; [|done].
  destruct (joins cfg _ p) as [[]|]; intros [= <-]; cbn; [done|by rewrite app_nil_r].
Qed.

Lemma samePattern_end_keeps batch r :
  samePattern_end (E := E) batch = Ok r ->
  concat (items <$> present (end_batch_to_push r)) = items batch.
Proof. intros [= <-]. cbn. by rewrite app_nil_r. Qed.

#[export] Instance samePattern_partitioning cfg : Partitioning (samePattern cfg) :=
  Build_Partitioning _ _ _ _ (samePattern cfg) items items
    samePattern_begin_keeps (samePattern_step_keeps cfg) samePattern_end_keeps.

(** C17.  Whatever [extractPattern] and [same] do, throwing included, the
    policy loses, duplicates and reorders no entry: the transform returns
    an output stream, the items of the batches written on it, put end to
    end, are a prefix of the input, and they are the whole input when the
    output was ended. *)
Theorem samePattern_keeps_entries cfg (xs : list TEntry) :
  exists w, batchBy (samePattern cfg) (Highland.of_array xs) = Ok w /\
    (concat (items <$> written w) `prefix_of` xs) /\
    (ended w = true -> concat (items <$> written w) = xs).
Proof.
  pose proof (batchBy_ok (samePattern cfg) (Highland.of_array xs) (Batch null []) eq_refl)
    as Hrun.
  eexists. split; [exact Hrun|]. exact (partition_written (samePattern cfg) xs _ Hrun).
Qed.

End partitioning.

(** ** The null pattern marks the initial batch, when no pattern is null *)

Section sentinel.
Context {E P TEntry : Type} `{Nullable P}.
Context (cfg : pattern_config E P TEntry) (good : P -> Prop).
Implicit Types batch : TBatchSamePattern P TEntry.

(** The invariant of the batch (specification, section 3): the pattern is
    null in the initial batch, which has no items, and it is a pattern of
    an entry in every other batch, which has items. *)
Definition initial_or_filled batch : Prop :=
  (is_null (accumulate_pattern batch) = true /\ items batch = []) \/
  (good (accumulate_pattern batch) /\ items batch <> []).

(** The entries whose pattern is good, whatever the accumulated pattern. *)
Definition extracts_good (x : TEntry) : Prop :=
  forall acc p, extractPattern cfg x acc = Ok p -> good p.

Lemma samePattern_step_sentinel batch x r :
  (forall p, good p -> is_null p = false) ->
  initial_or_filled batch -> extracts_good x ->
  samePattern_forEachEntry cfg batch x = Ok r ->
  initial_or_filled (batch_to_update r) /\
  Forall initial_or_filled (present (batch_to_push r)).
Proof.
  intros Hgood Hbatch Hx. unfold samePattern_forEachEntry, joins, res_bind.
  destruct (extractPattern cfg x _) as [p|] eqn:Hp; [|done]. apply Hx in Hp.
  assert (forall its, initial_or_filled (Batch p (its ++ [x]))) as Hfilled.
  { intros its. right. split; [done|]. by destruct its. }
  destruct (is_null (accumulate_pattern batch)) eqn:Hnull.
  - intros [= <-]. split; [apply Hfilled|done].
  - destruct (same cfg _ p) as [[]|]; intros [= <-]; cbn.
    + split; [apply Hfilled|done].
    + split; [apply (Hfilled [])|]. apply Forall_singleton.
      destruct Hbatch as [[? _]|?]; [congruence|by right].
Qed.

Lemma samePattern_preserves :
  (forall p, good p -> is_null p = false) ->
  Preserves (samePattern cfg) initial_or_filled extracts_good initial_or_filled.
Proof.
  intros Hgood. split.
  - intros init [= <-]. left. split; [apply is_null_null|done].
  - intros batch x r. by apply samePattern_step_sentinel.
  - intros [acc its] r Hbatch [= <-]. by apply Forall_singleton.
Qed.

(** When no entry has a null pattern, the invariant of section 3 of
    the specification holds of every batch written, whatever else
    [extractPattern] and [same] do: a batch has the null pattern exactly
    when it has no items, and such a batch is never written by
    [forEachEntry]. *)
Lemma samePattern_sentinel (its : list (item E TEntry))
    (w : world E (TBatchSamePattern P TEntry)) :
  (forall p, good p -> is_null p = false) ->
  entries_in extracts_good its ->
  batchBy (samePattern cfg) its = Ok w ->
  Forall initial_or_filled (written w).
Proof.
  intros Hgood.
  apply (preserves_written _ initial_or_filled), samePattern_preserves, Hgood.
Qed.

End sentinel.

(** What the specification asks of [same] (section 4.3): an equivalence, on
    the patterns that occur ([dom]), none of which is null. *)
Class PatternEquiv {P : Type} `{Nullable P} (dom : P -> Prop) (eqv : P -> P -> bool)
    : Prop := {
  dom_not_null p : dom p -> is_null p = false;
  eqv_refl p : dom p -> eqv p p = true;
  eqv_sym p q : dom p -> dom q -> eqv p q = true -> eqv q p = true;
  eqv_trans p q r :
    dom p -> dom q -> dom r -> eqv p q = true -> eqv q r = true -> eqv p r = true
}.

Section by_key.
Context {E P TEntry : Type} `{Nullable P}.
Context (key : TEntry -> P) (eqv : P -> P -> bool).
Implicit Types xs r : list TEntry.

(** A policy whose [extractPattern] ignores the accumulated pattern. *)
Definition key_config : pattern_config E P TEntry :=
  pure_config (fun x _ => key x) eqv.

(** Line 50 between two neighbours. *)
Definition cut_by_key (a b : TEntry) : bool :=
  negb (is_null (key a) || eqv (key a) (key b)).

(** The batch of a run of entries. *)
Definition batch_of_run r : TBatchSamePattern P TEntry :=
  Batch (from_option key null (last r)) r.

Lemma annotate_key acc xs :
  annotate (fun x _ => key x) acc xs = (fun x => (x, key x)) <$> xs.
Proof. revert acc. induction xs as [|x xs IH]; intros acc; cbn; by rewrite ?IH. Qed.

Lemma batch_of_key r : batch_of ((fun x => (x, key x)) <$> r) = batch_of_run r.
Proof.
  unfold batch_of, batch_of_run. rewrite last_fmap, <- list_fmap_compose.
  f_equal; [by destruct (last r)|]. by rewrite (list_fmap_ext _ id r), list_fmap_id.
Qed.

Lemma grouped_by_key xs :
  xs <> [] ->
  grouped (fun x _ => key x) eqv xs = batch_of_run <$> runs cut_by_key xs.
Proof.
  destruct xs as [|x xs]; [done|]. intros _. unfold grouped.
  rewrite annotate_key, runs_fmap, <- list_fmap_compose.
  apply list_fmap_ext. intros i r _. apply batch_of_key.
Qed.

(** Every run of a list whose elements satisfy [D] is non-empty, linked,
    and made of elements that satisfy [D]. *)
Lemma runs_Forall (D : TEntry -> Prop) xs :
  Forall D xs ->
  Forall (fun r => r <> [] /\ linked cut_by_key r = true /\ Forall D r)
    (runs cut_by_key xs).
Proof.
  intros HD. rewrite <- (concat_runs cut_by_key xs), Forall_concat in HD.
  pose proof (runs_nonempty cut_by_key xs) as Hne.
  pose proof (runs_linked cut_by_key xs) as Hl.
  induction HD; [constructor|].
  apply Forall_cons in Hne as [??], Hl as [??]. constructor; auto.
Qed.

Context (dom : P -> Prop) `{!PatternEquiv dom eqv}.

(** In a run, every entry has the pattern of the last one, up to [same]. *)
Lemma run_uniform r y :
  Forall (fun x => dom (key x)) r -> linked cut_by_key r = true -> last r = Some y ->
  Forall (fun x => eqv (key x) (key y) = true) r.
Proof.
  apply (linked_related cut_by_key (fun a b => eqv (key a) (key b) = true)).
  - unfold cut_by_key. intros a b Ha Hb [Hn|?]%negb_false_iff%orb_true_iff; [|done].
    by rewrite (dom_not_null (key a)) in Hn.
  - intros a b c. apply eqv_trans.
  - intros a. apply eqv_refl.
Qed.

End by_key.

Section by_key_theorems.
Context {E P TEntry : Type} `{Nullable P}.
Context (key : TEntry -> P) (eqv : P -> P -> bool).
Context (dom : P -> Prop) `{!PatternEquiv dom eqv}.
Implicit Types xs : list TEntry.
Implicit Types w : world E (TBatchSamePattern P TEntry).

Lemma batchBy_key_config xs w :
  xs <> [] ->
  batchBy (samePattern (key_config key eqv)) (Highland.of_array xs) = Ok w ->
  written w = batch_of_run key <$> runs (cut_by_key key eqv) xs.
Proof.
  intros Hxs. unfold key_config.
  rewrite (batchBy_ok _ _ (Batch null [])), drive_samePattern by done.
  intros [= <-]. by rewrite written_add_calls_end, grouped_by_key.
Qed.

(** C31.  When [same] is an equivalence on the patterns of the entries and
    no pattern is null, every batch written for a non-empty input is
    non-empty, and every entry in it has the batch's [accumulate_pattern],
    up to [same]. *)
Theorem samePattern_batches_uniform xs w :
  xs <> [] ->
  Forall (fun x => dom (key x)) xs ->
  batchBy (samePattern (key_config key eqv)) (Highland.of_array xs) = Ok w ->
  Forall (fun b => items b <> [] /\
            Forall (fun x => eqv (key x) (accumulate_pattern b) = true) (items b))
    (written w).
Proof.
  intros Hxs Hdom ->%batchBy_key_config; [|done].
  apply Forall_fmap. eapply Forall_impl; [by apply runs_Forall|].
  intros r (Hne & Hlinked & Hr). cbn. split; [done|].
  destruct (last r) as [y|] eqn:Hlast; [|by apply last_None in Hlast].
  cbn. by eapply run_uniform.
Qed.

(** C32.  Under the same conditions, two consecutive batches never have the
    same pattern: batches are maximal. *)
Theorem samePattern_batches_maximal xs w i b1 b2 :
  xs <> [] ->
  Forall (fun x => dom (key x)) xs ->
  batchBy (samePattern (key_config key eqv)) (Highland.of_array xs) = Ok w ->
  written w !! i = Some b1 -> written w !! S i = Some b2 ->
  eqv (accumulate_pattern b1) (accumulate_pattern b2) = false.
Proof.
  intros Hxs Hdom ->%batchBy_key_config; [|done].
  rewrite !list_lookup_fmap.
  intros (r1 & Hr1 & ->)%fmap_Some (r2 & Hr2 & ->)%fmap_Some.
  destruct (separated_lookup _ _ _ _ _ (runs_separated _ xs) Hr1 Hr2)
    as (x & y & Hx & Hy & Hcut).
  pose proof (runs_Forall key eqv _ xs Hdom) as Hruns.
  rewrite Forall_lookup in Hruns.
  destruct (Hruns _ _ Hr1) as (_ & _ & Hd1), (Hruns _ _ Hr2) as (Hne2 & Hl2 & Hd2).
  unfold batch_of_run; cbn [accumulate_pattern]. rewrite Hx.
  destruct (last r2) as [z|] eqn:Hz; [|by apply last_None in Hz]. cbn.
  assert (dom (key x)) as Hdx.
  { apply last_Some in Hx as [? ->]. by apply Forall_app in Hd1 as [_ ?%Forall_inv]. }
  assert (dom (key z)) as Hdz.
  { apply last_Some in Hz as [? ->]. by apply Forall_app in Hd2 as [_ ?%Forall_inv]. }
  assert (dom (key y) /\ eqv (key y) (key z) = true) as [Hdy Hyz].
  { destruct r2 as [|y' r2]; simplify_eq/=. split; [by apply Forall_inv in Hd2|].
    pose proof (run_uniform key eqv dom _ _ Hd2 Hl2 Hz) as Hall.
    by apply Forall_inv in Hall. }
  unfold cut_by_key in Hcut. apply negb_true_iff, orb_false_iff in Hcut as [_ Hxy].
  destruct (eqv (key x) (key z)) eqn:Hxz; [|done].
  rewrite <- Hxy. symmetry. apply (eqv_trans _ (key z)); auto. by apply eqv_sym.
Qed.

End by_key_theorems.

Section pattern_is_last.
Context {E P TEntry : Type} `{Nullable P}.
Context (key : TEntry -> P) (eqv : P -> P -> bool).

(** C40.  The [accumulate_pattern] of a written batch is the pattern of the
    last entry of the batch (line 54 replaces it at every entry), not of
    the first. *)
Theorem samePattern_pattern_is_last (xs : list TEntry)
    (w : world E (TBatchSamePattern P TEntry)) :
  xs <> [] ->
  batchBy (samePattern (key_config key eqv)) (Highland.of_array xs) = Ok w ->
  Forall (fun b => key <$> last (items b) = Some (accumulate_pattern b)) (written w).
Proof.
  intros Hxs ->%batchBy_key_config; [|done].
  apply Forall_fmap. eapply Forall_impl; [apply (runs_nonempty _ xs)|].
  intros r Hr. cbn. destruct (last r) eqn:Hlast; [done|]. by apply last_None in Hlast.
Qed.

(** C33.  The batches written are the only grouping of the input into
    maximal runs: any split of a non-empty input into non-empty lists, with
    no cut of line 50 inside a list and a cut between each list and the
    next, is the list of the [items] of the batches written. *)
Theorem samePattern_unique_grouping (xs : list TEntry) (rs : list (list TEntry))
    (w : world E (TBatchSamePattern P TEntry)) :
  xs <> [] ->
  batchBy (samePattern (key_config key eqv)) (Highland.of_array xs) = Ok w ->
  is_runs (cut_by_key key eqv) xs rs ->
  items <$> written w = rs.
Proof.
  intros Hxs ->%batchBy_key_config ->%is_runs_unique; [|done].
  rewrite <- list_fmap_compose. by apply list_fmap_id.
Qed.

End pattern_is_last.

(** ** A run that has not ended *)

Section held_back.
Context {E P TEntry : Type} `{Nullable P}.

(** While the entries delivered are a single run, nothing is written and
    the output is not ended, however many entries there are: the policy
    holds them all in the batch in use. *)
Lemma samePattern_holds_back (extract : TEntry -> P -> P) eqv xs b :
  grouped extract eqv xs = [b] ->
  batchBy (samePattern (E := E) (pure_config extract eqv)) (Highland.pending xs) =
    Ok (World [] None).
Proof.
  intros Hg. rewrite (batchBy_ok _ _ (Batch null [])), drive_pending by done.
  destruct xs as [|x xs]; [done|].
  destruct (fold_entries_grouped (E := E) extract eqv x xs) as (out & last & -> & Hout).
  rewrite Hg in Hout. by destruct out as [|? [|? ?]].
Qed.

End held_back.
