(* ===== verification/Callbacks.v ===== *)
(** * Callbacks: the same-pattern policy over callbacks with effects

    [extractPattern] and [same], the arguments of [samePattern]
    (highland-batch-by.ts, lines 38-43), are JavaScript functions: they may
    read and change a state of their own, and what they return may depend on
    it.  [SamePattern] takes them as functions of their arguments that may
    throw; this file takes them as computations over a world [W] and writes
    [forEachEntry] (lines 47-70) once more over them, with the order of
    evaluation of the source: [extractPattern] on line 49, then the test of
    line 50, whose [||] calls [same] only when the accumulated pattern is
    not [null].

    The result is a policy with effects ([EControl]) for the transform of
    [Protocol].  Three things are shown: the entries are kept whatever the
    callbacks do, callbacks that only observe their calls give the policy of
    [SamePattern], and they are called in the order and with the arguments
    the specification gives (section 4.3). *)

From stdpp Require Import prelude.
From S2P Require Import Prelude JsValue Stream Control BatchBy Partition Protocol SamePattern.

(** The argument of [samePattern] (lines 38-43), with effects on [W]. *)
Record e_pattern_config (E W P TEntry : Type) : Type := EPatternConfig {
  e_extractPattern : TEntry -> P -> eff W (result E P);
  e_same : P -> P -> eff W (result E bool)
}.

Arguments EPatternConfig {E W P TEntry} e_extractPattern e_same.
Arguments e_extractPattern {E W P TEntry} _.
Arguments e_same {E W P TEntry} _.

(** A call of a callback, with its arguments. *)
Inductive callback_call (P TEntry : Type) : Type :=
| CallExtractPattern (entry : TEntry) (accumulate_pattern : P)
| CallSame (a b : P).

Arguments CallExtractPattern {P TEntry} entry accumulate_pattern.
Arguments CallSame {P TEntry} a b.

Section e_samePattern.
Context {E W P TEntry : Type} `{Nullable P}.
Implicit Types cfg : e_pattern_config E W P TEntry.
Implicit Types batch : TBatchSamePattern P TEntry.
Local Open Scope eff_scope.

(** The test of line 50: [same] is not called on a batch with no pattern. *)
Definition e_joins cfg (accumulate_pattern current_pattern : P) : eff W (result E bool) :=
  if is_null accumulate_pattern then eff_ret (Ok true)
  else e_same cfg accumulate_pattern current_pattern.

(** [forEachEntry] (lines 47-70). *)
Definition e_samePattern_forEachEntry cfg batch (entry : TEntry)
    : eff W (result E (step_result (TBatchSamePattern P TEntry) (TBatchSamePattern P TEntry))) :=
  r <- e_extractPattern cfg entry (accumulate_pattern batch) ;;
  match r with
  | Throw e => eff_ret (Throw e)
  | Ok current_pattern =>
      j <- e_joins cfg (accumulate_pattern batch) current_pattern ;;
      match j with
      | Throw e => eff_ret (Throw e)
      | Ok true =>
          eff_ret (Ok {| batch_to_push := None;
                         batch_to_update := Batch current_pattern (items batch ++ [entry]) |})
      | Ok false =>
          eff_ret (Ok {| batch_to_push := Some (Batch (accumulate_pattern batch) (items batch));
                         batch_to_update := Batch current_pattern [entry] |})
      end
  end.

(** [samePattern] (lines 38-80) over callbacks with effects; [beginWith]
    (line 46) and [end] (lines 71-78) call neither. *)
Definition e_samePattern cfg
    : EControl E W (TBatchSamePattern P TEntry) TEntry (TBatchSamePattern P TEntry) :=
  {| e_beginWith := eff_ret (samePattern_beginWith tt);
     e_forEachEntry := e_samePattern_forEachEntry cfg;
     e_end batch := eff_ret (samePattern_end batch) |}.

End e_samePattern.

(** ** Callbacks that observe their calls *)

Section observing.
Context {E W P TEntry : Type} `{Nullable P}.
Implicit Types cfg : pattern_config E P TEntry.
Implicit Types notify : callback_call P TEntry -> W -> W.
Local Open Scope eff_scope.

(** The callbacks of [cfg], each of which first notes its call in the
    world [W]. *)
Definition observing notify cfg : e_pattern_config E W P TEntry :=
  {| e_extractPattern entry acc :=
       eff_modify (notify (CallExtractPattern entry acc)) ;;
       eff_ret (extractPattern cfg entry acc);
     e_same a b :=
       eff_modify (notify (CallSame a b)) ;; eff_ret (same cfg a b) |}.

(** The calls of the callbacks for one entry (specification, section 4.3):
    [extractPattern] on the entry and the accumulated pattern, then [same]
    on the accumulated pattern and the pattern of the entry, unless the
    first call threw or the batch has no pattern yet. *)
Definition entry_callbacks cfg (acc : P) (entry : TEntry) : list (callback_call P TEntry) :=
  CallExtractPattern entry acc ::
    match extractPattern cfg entry acc with
    | Ok p => if is_null acc then [] else [CallSame acc p]
    | Throw _ => []
    end.

(** The calls of the callbacks for the items of an input: those of each
    entry with the pattern of the entry before it, up to the first call
    that throws or the first error of the input. *)
Fixpoint callbacks cfg (acc : P) (its : list (item E TEntry)) : list (callback_call P TEntry) :=
  match its with
  | Val entry :: its' =>
      entry_callbacks cfg acc entry ++
        match extractPattern cfg entry acc with
        | Ok p =>
            match joins cfg acc p with
            | Ok _ => callbacks cfg p its'
            | Throw _ => []
            end
        | Throw _ => []
        end
  | _ => []
  end.

(** The world of an observer after a sequence of calls. *)
Definition heard notify (cs : list (callback_call P TEntry)) (w : W) : W :=
  foldl (fun w c => notify c w) w cs.

End observing.

(** The observer that keeps the list of the calls. *)
Definition listening {E P TEntry} (cfg : pattern_config E P TEntry)
    : e_pattern_config E (list (callback_call P TEntry)) P TEntry :=
  observing (fun c log => log ++ [c]) cfg.

(** The arguments of a call of [extractPattern]. *)
Definition extract_of {P TEntry} (c : callback_call P TEntry) : option (TEntry * P) :=
  match c with
  | CallExtractPattern entry acc => Some (entry, acc)
  | CallSame _ _ => None
  end.

(** The arguments of a call of [same]. *)
Definition same_of {P TEntry} (c : callback_call P TEntry) : option (P * P) :=
  match c with
  | CallSame a b => Some (a, b)
  | CallExtractPattern _ _ => None
  end.

(** ** The policy keeps the entries, whatever its callbacks do *)

Section kept.
Context {E W P TEntry : Type} `{Nullable P}.
Context (cfg : e_pattern_config E W P TEntry) (w0 : W).
Implicit Types batch : TBatchSamePattern P TEntry.

(** An entry goes to the end of the batch, or the batch is pushed whole and
    the entry starts the next one, in whatever world the callbacks run and
    whatever they do to it. *)
Lemma e_samePattern_step_keeps batch x w r w' :
  e_samePattern_forEachEntry cfg batch x w = (Ok r, w') ->
  concat (items <$> present (batch_to_push r)) ++ items (batch_to_update r)
    = items batch ++ [x].
Proof.
  unfold e_samePattern_forEachEntry, e_joins. unfold_eff.
  destruct (e_extractPattern cfg x _ w) as [[p|] w1]; [|done].
  destruct (is_null _); [by intros [= <- _]|].
  destruct (e_same cfg _ p w1) as [[[]|] w2]; intros [= <- _]; cbn;
    [done|by rewrite app_nil_r].
Qed.

(** The policy that carries the world of the callbacks in its batch keeps
    the entries. *)
#[export] Instance e_samePattern_partitioning :
    Partitioning (threaded (e_samePattern cfg) w0).
Proof.
  refine (Build_Partitioning _ _ _ _ _ (fun s => items s.1) items _ _ _).
  - by intros init [= <-].
  - intros [batch w] x r. cbn.
    destruct (e_samePattern_forEachEntry cfg batch x w) as [[r'|] w'] eqn:Hstep; [|done].
    intros [= <-]. exact (e_samePattern_step_keeps _ _ _ _ _ Hstep).
  - intros [batch w] r [= <-]. cbn. by rewrite app_nil_r.
Defined.

Lemma e_samePattern_written xs :
  exists w, (e_batchBy (e_samePattern cfg) (Highland.of_array xs) w0).1 = Ok w /\
    (concat (items <$> written w) `prefix_of` xs) /\
    (ended w = true -> concat (items <$> written w) = xs).
Proof.
  rewrite e_batchBy_output.
  pose proof (batchBy_ok (threaded (e_samePattern cfg) w0) (Highland.of_array xs)
                (Batch null [], w0) eq_refl) as Hrun.
  eexists. split; [exact Hrun|].
  exact (partition_written (threaded (e_samePattern cfg) w0) xs _ Hrun).
Qed.

End kept.

(** ** Observing callbacks see the calls of section 4.3 and change nothing *)

Section observing_laws.
Context {E W P TEntry : Type} `{Nullable P}.
Context (notify : callback_call P TEntry -> W -> W) (cfg : pattern_config E P TEntry).
Implicit Types batch : TBatchSamePattern P TEntry.

Lemma heard_app cs cs' w : heard notify (cs ++ cs') w = heard notify cs' (heard notify cs w).
Proof. apply foldl_app. Qed.

(** One [forEachEntry] over observing callbacks: the result of the policy
    of [SamePattern], and the calls of the entry. *)
Lemma e_samePattern_forEachEntry_observing batch x w :
  e_samePattern_forEachEntry (observing notify cfg) batch x w =
    (samePattern_forEachEntry cfg batch x,
     heard notify (entry_callbacks cfg (accumulate_pattern batch) x) w).
Proof.
  unfold e_samePattern_forEachEntry, samePattern_forEachEntry, e_joins, joins,
    entry_callbacks. unfold_eff. cbn.
  destruct (extractPattern cfg x _) as [p|]; [|done].
  destruct (is_null _); [done|]. cbn. by destruct (same cfg _ p) as [[]|].
Qed.

(** What an observer of the calls of the policy does, to hear the calls of
    the callbacks. *)
Definition relay (c : control_call (TBatchSamePattern P TEntry) TEntry) : W -> W :=
  match c with
  | CallForEachEntry batch x => heard notify (entry_callbacks cfg (accumulate_pattern batch) x)
  | _ => id
  end.

Lemma notified_relay batch its w :
  notified relay (calls_of (samePattern cfg) batch its) w =
    heard notify (callbacks cfg (accumulate_pattern batch) its) w.
Proof.
  revert batch w. induction its as [|[x|e|] its IH]; intros batch w; [done| |done..].
  cbn [calls_of callbacks notified foldl relay]. rewrite heard_app.
  cbn [samePattern forEachEntry]. unfold samePattern_forEachEntry, res_bind.
  destruct (extractPattern cfg x _) as [p|]; [|done].
  destruct (joins cfg _ p) as [[]|]; [apply IH..|done].
Qed.

(** The policy over observing callbacks is an observing policy. *)
Lemma e_samePattern_relay :
  e_samePattern (observing notify cfg) ≡ observed relay (samePattern cfg).
Proof. split_and!; [done|apply e_samePattern_forEachEntry_observing|done]. Qed.

Lemma e_samePattern_observing its w :
  e_batchBy (e_samePattern (observing notify cfg)) its w =
    (batchBy (samePattern cfg) its, heard notify (callbacks cfg null its) w).
Proof.
  rewrite e_samePattern_relay, e_batchBy_observed_eq. f_equal.
  unfold protocol. cbn [beginWith samePattern samePattern_beginWith].
  apply (notified_relay (Batch null [])).
Qed.

End observing_laws.

(** ** The calls, with callbacks that do not throw *)

Section pure_callbacks.
Context {E P TEntry : Type} `{Nullable P}.
Context (extract : TEntry -> P -> P) (eqv : P -> P -> bool).
Implicit Types xs : list TEntry.
Local Abbreviation cfg := (pure_config (E := E) extract eqv).

Lemma heard_log (cs log : list (callback_call P TEntry)) :
  heard (fun c log => log ++ [c]) cs log = log ++ cs.
Proof.
  unfold heard. revert log.
  induction cs as [|c cs IH]; intros log; cbn; [by rewrite app_nil_r|].
  by rewrite IH, <- app_assoc.
Qed.

Lemma callbacks_cons acc x xs :
  callbacks cfg acc (Highland.of_array (x :: xs)) =
    CallExtractPattern x acc ::
      (if is_null acc then [] else [CallSame acc (extract x acc)]) ++
      callbacks cfg (extract x acc) (Highland.of_array xs).
Proof.
  change (Highland.of_array (x :: xs)) with (Val (E := E) x :: Highland.of_array xs).
  cbn [callbacks]. unfold entry_callbacks, joins. cbn. by destruct (is_null acc).
Qed.

(** The calls of [extractPattern]: every entry, with the pattern of the
    entry before it. *)
Lemma callbacks_extract acc xs :
  omap extract_of (callbacks cfg acc (Highland.of_array xs)) =
    zip xs (acc :: (annotate extract acc xs).*2).
Proof.
  revert acc. induction xs as [|x xs IH]; intros acc; [done|].
  rewrite callbacks_cons. cbn [omap list_omap extract_of]. rewrite omap_app, IH.
  cbn. by destruct (is_null acc).
Qed.

(** The calls of [same]: every entry but those that find a batch without
    pattern, on the pattern of the entry before it and its own. *)
Lemma callbacks_same acc xs :
  omap same_of (callbacks cfg acc (Highland.of_array xs)) =
    filter (fun ab => is_null ab.1 = false)
      (zip (acc :: (annotate extract acc xs).*2) (annotate extract acc xs).*2).
Proof.
  revert acc. induction xs as [|x xs IH]; intros acc; [done|].
  rewrite callbacks_cons. cbn [omap list_omap same_of]. rewrite omap_app, IH.
  cbn [annotate fmap list_fmap snd zip zip_with]. rewrite filter_cons. cbn [fst].
  by destruct (is_null acc).
Qed.

(** The calls come in pairs: [same], when it is called, right after the
    [extractPattern] of the same entry, on the pattern it returned. *)
Lemma callbacks_alternate acc xs i a b :
  callbacks cfg acc (Highland.of_array xs) !! (S i) = Some (CallSame a b) ->
  exists x, callbacks cfg acc (Highland.of_array xs) !! i = Some (CallExtractPattern x a) /\
    b = extract x a.
Proof.
  revert acc i. induction xs as [|x xs IH]; intros acc i; [done|].
  rewrite callbacks_cons. destruct (is_null acc) eqn:Hnull; cbn.
  - destruct i as [|i]; [|apply IH].
    destruct xs as [|x' xs]; [done|]. by rewrite callbacks_cons.
  - destruct i as [|i]; [intros [= <- <-]; by exists x|].
    destruct i as [|i]; [|apply IH].
    destruct xs as [|x' xs]; [done|]. by rewrite callbacks_cons.
Qed.

End pure_callbacks.

(** ** Theorems *)

Section callback_theorems.
Context {E P TEntry : Type} `{Nullable P}.
Implicit Types xs : list TEntry.

(** C18.  Whatever [extractPattern] and [same] do (change a state of their
    own, answer differently from one call to the next, throw), the policy
    loses, duplicates and reorders no entry: the transform returns an
    output stream, the items of the batches written on it, put end to end,
    are a prefix of the input, and they are the whole input when the output
    was ended. *)
Theorem e_samePattern_keeps_entries {W} (cfg : e_pattern_config E W P TEntry) xs w0 :
  exists w, (e_batchBy (e_samePattern cfg) (Highland.of_array xs) w0).1 = Ok w /\
    (concat (items <$> written w) `prefix_of` xs) /\
    (ended w = true -> concat (items <$> written w) = xs).
Proof. apply e_samePattern_written. Qed.

(** C19.  Callbacks that observe their calls and do nothing else give the
    policy of [SamePattern]: on every input the output stream is that of
    [batchBy] over [samePattern] of the callbacks without effects, and the
    observer has heard, in order, the calls of section 4.3 of the
    specification: for each entry [extractPattern] on the entry and the
    accumulated pattern, then [same] on the accumulated pattern and the
    pattern of the entry unless the accumulated pattern is [null]; nothing
    after a call that throws. *)
Theorem e_samePattern_observed {W} (notify : callback_call P TEntry -> W -> W)
    (cfg : pattern_config E P TEntry) its w :
  e_batchBy (e_samePattern (observing notify cfg)) its w =
    (batchBy (samePattern cfg) its, heard notify (callbacks cfg null its) w).
Proof. apply e_samePattern_observing. Qed.

(** C30.  With callbacks that do not throw, over a whole input:
    [extractPattern] is called exactly once per entry, in the order of the
    input, each time with the pattern the call before returned ([null] for
    the first); [same] is called once for every entry that finds a batch
    with a pattern, on that pattern and the pattern of the entry, in that
    order of arguments; and every call of [same] comes right after the
    [extractPattern] of its entry. *)
Theorem callbacks_in_order (extract : TEntry -> P -> P) (eqv : P -> P -> bool) xs :
  let log := (e_batchBy (e_samePattern (listening (pure_config (E := E) extract eqv)))
                (Highland.of_array xs) []).2 in
  let patterns := (annotate extract null xs).*2 in
  omap extract_of log = zip xs (null :: patterns) /\
  omap same_of log =
    filter (fun ab => is_null ab.1 = false) (zip (null :: patterns) patterns) /\
  (forall i a b, log !! (S i) = Some (CallSame a b) ->
     exists x, log !! i = Some (CallExtractPattern x a) /\ b = extract x a).
Proof.
  intros log patterns. subst log patterns. unfold listening.
  rewrite e_samePattern_observing, heard_log. cbn [snd app].
  split_and!; [apply callbacks_extract|apply callbacks_same|apply callbacks_alternate].
Qed.

End callback_theorems.
