(* ===== verification/SameProperty.v ===== *)
(** * SameProperty: batching by the value of a property

    [sameProperty(propName)] (highland-batch-by.ts, lines 82-89) is
    [samePattern] with the pattern of an entry being the value of its
    property [propName], compared with [===]; [batchByProp(propName)] (line
    117) is [batchBy] of it.  Entries are object literals ([object]) and
    patterns JavaScript values ([value]).  The unit test and the example
    of the doc comment (lines 97-111) are run here, the second one against
    the consumer [each_log] of [Consumer]. *)

From stdpp Require Import prelude strings gmap.
From S2P Require Import Prelude JsValue Numbers Stream Control BatchBy Machine Consumer GroupSpec SamePattern.

Section sameProperty.
Context {E : Type}.

(** The two callbacks of lines 86-87. *)
Definition property_config (propName : string) : pattern_config E value object :=
  PatternConfig
    (fun x _ => Ok (get_prop x propName))
    (fun p1 p2 => Ok (strict_eq p1 p2)).

(** [sameProperty(propName)] (lines 82-89). *)
Definition sameProperty (propName : string)
    : Control E (TBatchSamePattern value object) object (TBatchSamePattern value object) :=
  samePattern (property_config propName).

(** [batchByProp(propName)] (line 117). *)
Definition batchByProp (propName : string) (object_stream : list (item E object))
    : result E (world E (TBatchSamePattern value object)) :=
  batchBy (sameProperty propName) object_stream.

End sameProperty.

(** ** The documented example (lines 97-112) and the unit test *)

Definition order (sku : string) (order_id : Z) : object :=
  {[ "sku" := VString sku; "order_id" := VInt order_id ]}.

Definition scenario_A : list object := [order "a" 1; order "b" 1; order "c" 2].

(** The calls on the output stream for the three orders of the test: the
    batch of the first two with pattern 1, the batch of the third with
    pattern 2, and the end. *)
Definition scenario_A_output : world Empty_set (TBatchSamePattern value object) :=
  World [CallWrite (Batch (VInt 1) [order "a" 1; order "b" 1]);
         CallWrite (Batch (VInt 2) [order "c" 2]);
         CallEnd] None.

Lemma scenario_A_run :
  batchByProp (E := Empty_set) "order_id" (Highland.of_array scenario_A) = Ok scenario_A_output.
Proof. evaluate. Qed.

(** Scenario A, the unit test and the example of the documentation, as
    calls on the output stream. *)
Example batchByProp_scenario_A :
  batchByProp (E := Empty_set) "order_id" (Highland.of_array scenario_A) =
    Ok (World [CallWrite (Batch (VInt 1) [order "a" 1; order "b" 1]);
               CallWrite (Batch (VInt 2) [order "c" 2]);
               CallEnd] None).
Proof. exact scenario_A_run. Qed.

(** The example of the documentation (lines 97-103): the stream of the
    three orders through [batchByProp('order_id')], read by
    [.each(console.log).done(() => {})].  The state of the reader is what
    has been printed. *)
Definition doc_example
    : system Empty_set (TBatchSamePattern value object) object
        (TBatchSamePattern value object) (list (TBatchSamePattern value object)) :=
  sys_init (Batch VNull []) (Highland.of_array scenario_A) [].

(** The example of the documentation prints the output the
    documentation gives (lines 105-110), however the chain and the consumer
    take turns: when nothing more can happen, the two batches have been
    printed, in order. *)
Lemma doc_example_prints final :
  rtc (sys_step (sameProperty "order_id") each_log) doc_example final ->
  nf (sys_step (sameProperty "order_id") each_log) final ->
  reader final = [Batch (VInt 1) [order "a" 1; order "b" 1];
                  Batch (VInt 2) [order "c" 2]].
Proof.
  intros Hrtc Hnf.
  destruct (sys_final (sameProperty "order_id") each_log (Batch VNull [])
              (Highland.of_array scenario_A) [] scenario_A_output final)
    as (_ & _ & ->); [done|exact scenario_A_run|done..|].
  by rewrite delivered_each_log.
Qed.

(** The body of the unit test (highland-batch-by.spec.ts, lines 6-13): the
    promise the test awaits. *)
Definition should_work : result Empty_set (promise (list (TBatchSamePattern value object))) :=
  res_map collect_to_promise
    (Highland.through (batchByProp "order_id") (Highland.of_array scenario_A)).

(** The unit test passes with the output the documentation gives
    (lines 105-110): the promise resolves with the batch of the first two
    orders and the batch of the third. *)
Example should_work_resolves :
  should_work =
    Ok (Resolved [Batch (VInt 1) [order "a" 1; order "b" 1];
                  Batch (VInt 2) [order "c" 2]]).
Proof. unfold should_work, Highland.through. by rewrite scenario_A_run. Qed.

(** ** Batching by a property whose values are not [null] *)

(** The values on which [===] is an equivalence and which are not the
    sentinel of "no pattern yet". *)
Definition plain (v : value) : Prop := v <> VNull /\ v <> VNaN.

#[export] Instance plain_dec v : Decision (plain v).
Proof. unfold plain. apply _. Defined.

#[export] Instance strict_eq_equiv : PatternEquiv plain strict_eq.
Proof.
  split.
  - intros p [Hnull _]. exact (proj2 (is_null_false p) Hnull).
  - intros p [_ ?]. auto with batch.
  - intros p q _ _. by rewrite strict_eq_sym.
  - intros p q r _ _ _. eauto with batch.
Qed.

Section by_property.
Context {E : Type} (propName : string).
Implicit Types xs : list object.
Implicit Types w : world E (TBatchSamePattern value object).

(** The pattern of an entry. *)
Definition key_of (x : object) : value := get_prop x propName.

(** The specification of [batchByProp] on values other than [null]: the
    maximal runs of consecutive entries whose properties are [===], each
    with the value of its last entry. *)
Definition runs_by_property xs : list (TBatchSamePattern value object) :=
  batch_of_run key_of <$> runs (fun a b => negb (strict_eq (key_of a) (key_of b))) xs.

Lemma property_config_key : property_config (E := E) propName = key_config key_of strict_eq.
Proof. done. Qed.

Lemma cut_by_key_plain (a b : object) :
  key_of a <> VNull ->
  cut_by_key key_of strict_eq a b = negb (strict_eq (key_of a) (key_of b)).
Proof.
  intros Hnull. unfold cut_by_key.
  by pose proof (proj2 (is_null_false (key_of a)) Hnull) as ->.
Qed.

End by_property.

Section by_property_theorems.
Context {E : Type} (propName : string).
Implicit Types xs : list object.
Implicit Types w : world E (TBatchSamePattern value object).

Lemma batchByProp_ok xs :
  xs <> [] ->
  batchByProp (E := E) propName (Highland.of_array xs) =
    Ok (World ((CallWrite <$> (batch_of_run (key_of propName) <$>
                 runs (cut_by_key (key_of propName) strict_eq) xs)) ++ [CallEnd]) None).
Proof.
  intros Hxs. unfold batchByProp, sameProperty. rewrite property_config_key.
  unfold key_config.
  by rewrite (batchBy_ok _ _ (Batch null [])), drive_samePattern, grouped_by_key.
Qed.

(** C4.  When the property of no entry is [null], [batchByProp] writes the
    maximal runs of consecutive entries whose property values are [===],
    each with the value of its last entry as its pattern, then ends the
    output.  The values may be any others: [NaN], which is [===] to
    nothing, makes a batch of every entry that has it, and the two zeros
    are in one batch. *)
Theorem batchByProp_runs xs :
  xs <> [] ->
  Forall (fun x => key_of propName x <> VNull) xs ->
  batchByProp (E := E) propName (Highland.of_array xs) =
    Ok (World ((CallWrite <$> runs_by_property propName xs) ++ [CallEnd]) None).
Proof.
  intros Hxs Hnull. rewrite batchByProp_ok by done. unfold runs_by_property.
  do 5 f_equal. apply runs_ext. intros i x y Hx _.
  apply cut_by_key_plain. by eapply Forall_lookup_1 in Hnull.
Qed.

(** C27.  When the property of every entry is the literal of a safe integer
    (below [2^53] in absolute value), [batchByProp] groups by the equality
    of the integers: it writes the maximal runs of consecutive entries with
    the same integer.  From [2^53] on it need not ([unsafe_ids_merge]). *)
Theorem batchByProp_integer_keys (id : object -> Z) xs :
  xs <> [] ->
  Forall (fun x => key_of propName x = VInt (id x) /\ is_safe_integer (id x) = true) xs ->
  batchByProp (E := E) propName (Highland.of_array xs) =
    Ok (World ((CallWrite <$> (batch_of_run (key_of propName) <$>
                 runs (fun a b => bool_decide (id a <> id b)) xs)) ++ [CallEnd]) None).
Proof.
  intros Hxs Hsafe. rewrite batchByProp_ok by done.
  do 5 f_equal. apply runs_ext. intros i x y Hx Hy.
  destruct (Forall_lookup_1 _ _ _ _ Hsafe Hx) as [Hkx Hsx].
  destruct (Forall_lookup_1 _ _ _ _ Hsafe Hy) as [Hky Hsy].
  rewrite cut_by_key_plain by (by rewrite Hkx).
  by rewrite Hkx, Hky, strict_eq_VInt, bool_decide_not.
Qed.

(** Scenario B: when all the entries have the same property value (any
    value but [NaN]), exactly one batch is written, with all the entries. *)
Lemma batchByProp_single_batch xs v :
  xs <> [] -> v <> VNaN ->
  Forall (fun x => key_of propName x = v) xs ->
  batchByProp (E := E) propName (Highland.of_array xs) =
    Ok (World [CallWrite (Batch v xs); CallEnd] None).
Proof.
  intros Hxs Hv Hall. rewrite batchByProp_ok by done.
  rewrite Forall_forall in Hall.
  rewrite runs_linked_id; [|done|].
  - cbn. do 4 f_equal. unfold batch_of_run. f_equal.
    destruct (last xs) as [y|] eqn:Hlast; [|by apply last_None in Hlast].
    apply Hall. apply last_Some in Hlast as [? ->]. set_solver.
  - apply linked_no_cut. intros a b Ha Hb. unfold cut_by_key.
    rewrite (Hall a Ha), (Hall b Hb), strict_eq_refl by done.
    by rewrite orb_true_r.
Qed.

(** Scenario C: when no property value is [null] and no two entries have
    properties that are [===], one batch is written per entry, in the order
    of the input. *)
Lemma batchByProp_distinct xs :
  xs <> [] ->
  Forall (fun x => key_of propName x <> VNull) xs ->
  (forall i j x y, i <> j -> xs !! i = Some x -> xs !! j = Some y ->
     strict_eq (key_of propName x) (key_of propName y) = false) ->
  batchByProp (E := E) propName (Highland.of_array xs) =
    Ok (World ((CallWrite <$> ((fun x => Batch (key_of propName x) [x]) <$> xs))
               ++ [CallEnd]) None).
Proof.
  intros Hxs Hnull Hdistinct. rewrite batchByProp_ok by done.
  rewrite runs_all_cut; [by rewrite <- (list_fmap_compose (fun x => [x]))|].
  intros i x y Hx Hy. rewrite cut_by_key_plain by (by eapply Forall_lookup_1 in Hnull).
  rewrite (Hdistinct i (S i) x y); [done|lia|done..].
Qed.

(** C38.  Regrouping is idempotent: running [batchByProp] again on the
    entries of the batches it wrote, put end to end, writes the same
    batches. *)
Theorem batchByProp_idempotent xs w :
  batchByProp propName (Highland.of_array xs) = Ok w ->
  batchByProp propName (Highland.of_array (concat (items <$> written w))) = Ok w.
Proof.
  intros Hrun. enough (concat (items <$> written w) = xs) as -> by done.
  revert Hrun. unfold batchByProp, sameProperty. rewrite property_config_key.
  unfold key_config.
  rewrite (batchBy_ok _ _ (Batch null [])), drive_samePattern by done.
  intros [= <-]. by rewrite written_add_calls_end, concat_grouped.
Qed.

End by_property_theorems.

(** ** The values on which the policy does not group by equality *)

Definition tagged (k : value) (sku : string) : object :=
  {[ "k" := k; "sku" := VString sku ]}.

(** A [null] property value is taken for "no pattern yet" (line 50):
    the entry that follows an entry whose property is [null] joins its
    batch whatever its own value is, so a batch can hold entries with
    different property values. *)
Example null_key_merges :
  batchByProp (E := Empty_set) "k"
    (Highland.of_array [tagged (VInt 1) "a"; tagged VNull "b"; tagged (VInt 2) "c"]) =
  Ok (World [CallWrite (Batch (VInt 1) [tagged (VInt 1) "a"]);
             CallWrite (Batch (VInt 2) [tagged VNull "b"; tagged (VInt 2) "c"]);
             CallEnd] None).
Proof. evaluate. Qed.

(** Two orders whose ids are the different integers [2^53] and [2^53 + 1]
    are in one batch: the two literals are the same double. *)
Example unsafe_ids_merge :
  batchByProp (E := Empty_set) "order_id"
    (Highland.of_array [order "a" (2 ^ 53); order "b" (2 ^ 53 + 1)]) =
  Ok (World [CallWrite (Batch (VInt (2 ^ 53)) [order "a" (2 ^ 53); order "b" (2 ^ 53 + 1)]);
             CallEnd] None).
Proof. evaluate. Qed.

(** The two zeros are [===]: entries whose properties are [+0] and [-0]
    are in one batch, whose pattern is the zero of the last of them. *)
Example zero_signs_group :
  batchByProp (E := Empty_set) "k"
    (Highland.of_array [tagged VZero "a"; tagged VNegZero "b"]) =
  Ok (World [CallWrite (Batch VNegZero [tagged VZero "a"; tagged VNegZero "b"]);
             CallEnd] None).
Proof. evaluate. Qed.

(** [NaN] is not [===] to itself: consecutive entries whose property
    is [NaN] are never grouped. *)
Example nan_key_splits :
  batchByProp (E := Empty_set) "k"
    (Highland.of_array [tagged VNaN "a"; tagged VNaN "b"]) =
  Ok (World [CallWrite (Batch VNaN [tagged VNaN "a"]);
             CallWrite (Batch VNaN [tagged VNaN "b"]);
             CallEnd] None).
Proof. evaluate. Qed.
