(* ===== verification/Explicit.v ===== *)
(** * Explicit: the same-pattern policy with an explicit first state

    [samePattern] (highland-batch-by.ts, lines 38-80) marks the batch that
    has no entry yet by a [null] pattern, and tests it on line 50.  The
    design notes of the specification (section 9) describe the policy with
    a state of two variants instead, [Empty] and [Accumulating], which does
    not take a pattern that is [null] for the absence of a pattern.

    This file writes that policy ([explicit]) and shows that the code
    implements it when [extractPattern] never returns [null]
    ([Simulates], by the relation [represents] between a batch of the code
    and a state of the two variants), and that the two differ when it
    does. *)

From stdpp Require Import prelude strings gmap.
From S2P Require Import Prelude JsValue Stream Control BatchBy Invariant Machine Simulation.
From S2P Require Import GroupSpec SamePattern SameProperty.

(** The state of the policy: no entry yet, or the pattern of the latest
    entry and the entries accumulated. *)
Inductive accumulator (P TEntry : Type) : Type :=
| Empty
| Accumulating (pattern : P) (entries : list TEntry).

Arguments Empty {P TEntry}.
Arguments Accumulating {P TEntry} pattern entries.

Section explicit.
Context {E P TEntry : Type} `{Nullable P}.
Implicit Types cfg : pattern_config E P TEntry.
Implicit Types batch : TBatchSamePattern P TEntry.
Implicit Types st : accumulator P TEntry.
Local Open Scope result_scope.

Definition explicit_beginWith (_ : unit) : result E (accumulator P TEntry) := Ok Empty.

(** The first entry starts a batch; [same] decides for the others. *)
Definition explicit_forEachEntry cfg st (entry : TEntry)
    : result E (step_result (accumulator P TEntry) (TBatchSamePattern P TEntry)) :=
  match st with
  | Empty =>
      current_pattern <- extractPattern cfg entry null ;;
      Ok {| batch_to_push := None;
            batch_to_update := Accumulating current_pattern [entry] |}
  | Accumulating pattern entries =>
      current_pattern <- extractPattern cfg entry pattern ;;
      join <- same cfg pattern current_pattern ;;
      if join : bool then
        Ok {| batch_to_push := None;
              batch_to_update := Accumulating current_pattern (entries ++ [entry]) |}
      else
        Ok {| batch_to_push := Some (Batch pattern entries);
              batch_to_update := Accumulating current_pattern [entry] |}
  end.

(** The batch a state stands for. *)
Definition batch_of_state st : TBatchSamePattern P TEntry :=
  match st with
  | Empty => Batch null []
  | Accumulating pattern entries => Batch pattern entries
  end.

Definition explicit_end st : result E (end_result (TBatchSamePattern P TEntry)) :=
  Ok {| end_batch_to_push := Some (batch_of_state st) |}.

Definition explicit cfg
    : Control E (accumulator P TEntry) TEntry (TBatchSamePattern P TEntry) :=
  {| beginWith := explicit_beginWith;
     forEachEntry := explicit_forEachEntry cfg;
     end_ := explicit_end |}.

(** A batch of the code and the state it encodes: the batch is the batch
    of the state, and its pattern is [null] only in the first state. *)
Definition represents batch st : Prop :=
  batch = batch_of_state st /\
  match st with
  | Empty => True
  | Accumulating pattern _ => is_null pattern = false
  end.

(** The entries for which [extractPattern] does not return [null]. *)
Definition extracts_non_null cfg (x : TEntry) : Prop :=
  forall acc p, extractPattern cfg x acc = Ok p -> is_null p = false.

(** ** The code implements the explicit policy *)

Lemma samePattern_step_represents cfg batch st x :
  represents batch st -> extracts_non_null cfg x ->
  agree (fun r1 r2 => represents (batch_to_update r1) (batch_to_update r2) /\
                      batch_to_push r1 = batch_to_push r2)
    (samePattern_forEachEntry cfg batch x) (explicit_forEachEntry cfg st x).
Proof.
  intros [-> Hst] Hx. unfold samePattern_forEachEntry, joins.
  destruct st as [|pattern entries]; cbn.
  - rewrite is_null_null. destruct (extractPattern cfg x null) as [p|] eqn:Hp; [|done].
    cbn. split; [|done]. split; [done|]. by eapply Hx.
  - rewrite Hst. destruct (extractPattern cfg x pattern) as [p|] eqn:Hp; [|done]. cbn.
    apply Hx in Hp. by destruct (same cfg pattern p) as [[]|].
Qed.

#[export] Instance samePattern_simulates cfg :
  Simulates (samePattern cfg) (explicit cfg) represents (extracts_non_null cfg).
Proof.
  split.
  - by split.
  - intros. by apply samePattern_step_represents.
  - by intros batch [|pattern entries] [-> _].
Qed.

(** C25.  The code implements the policy with an explicit first state when
    [extractPattern] never returns [null]: on every input whose entries
    have a pattern other than [null], failing or not, [batchBy] over
    [samePattern] and over the explicit policy make the same calls on the
    output stream.  The [null] of line 46 then only encodes "no entry
    yet". *)
Theorem samePattern_refines_explicit cfg (its : list (item E TEntry)) :
  entries_in (extracts_non_null cfg) its ->
  batchBy (samePattern cfg) its = batchBy (explicit cfg) its.
Proof.
  apply (simulates_batchBy (samePattern cfg) (explicit cfg) represents
           (extracts_non_null cfg)).
Qed.

End explicit.

(** ** Where they differ *)

(** On the input of [null_key_merges], whose second entry has a [null]
    property, the explicit policy makes three batches where the code makes
    two: [null] is a pattern like another for it, different from [1] and
    from [2]. *)
Example explicit_null_key :
  batchBy (explicit (property_config (E := Empty_set) "k"))
    (Highland.of_array [tagged (VInt 1) "a"; tagged VNull "b"; tagged (VInt 2) "c"]) =
  Ok (World [CallWrite (Batch (VInt 1) [tagged (VInt 1) "a"]);
             CallWrite (Batch VNull [tagged VNull "b"]);
             CallWrite (Batch (VInt 2) [tagged (VInt 2) "c"]);
             CallEnd] None).
Proof. evaluate. Qed.
