(* ===== verification/Typing.v ===== *)
(** * Typing: the TypeScript types of the policy

    [sameProperty<TEntry, TKey extends keyof TEntry>] and [batchByProp]
    (highland-batch-by.ts, lines 82-89 and 117) are generic: the entries
    have an object type [TEntry], the property is one of its keys, and the
    batches have the type [TBatchSamePattern<TEntry[TKey], TEntry>] (lines
    33-36), whose [accumulate_pattern] is a [TEntry[TKey] | null].  The
    compiler checks this of the source; this file states it of the model:
    the types as data ([ty]), a decidable typing of values ([has_type]),
    objects and batches, and the preservation of the type of the batch by
    every operation of the policy. *)

From stdpp Require Import prelude strings gmap.
From S2P Require Import Prelude JsValue Stream Control BatchBy Invariant GroupSpec SamePattern SameProperty.

(** The types of the values of [JsValue]. *)
Inductive ty : Type :=
| TyUndefined
| TyNull
| TyBoolean
| TyNumber
| TyBigInt
| TyString
| TySymbol
| TyObject
| TyUnion (t1 t2 : ty).

#[export] Instance ty_eq_dec : EqDecision ty.
Proof. solve_decision. Defined.

(** [v : t].  [number] has [NaN]; an object reference has any object
    type. *)
Fixpoint has_type (v : value) (t : ty) : bool :=
  match t with
  | TyUndefined => bool_decide (v = VUndefined)
  | TyNull => bool_decide (v = VNull)
  | TyBoolean => match v with VBool _ => true | _ => false end
  | TyNumber => match v with VNumber _ => true | _ => false end
  | TyBigInt => match v with VBigInt _ => true | _ => false end
  | TyString => match v with VString _ => true | _ => false end
  | TySymbol => match v with VSymbol _ => true | _ => false end
  | TyObject => match v with VObject _ => true | _ => false end
  | TyUnion t1 t2 => has_type v t1 || has_type v t2
  end.

(** An object type: its properties and their types.  An object has the
    type when it has every property of the type, with a value of its type;
    it may have more. *)
Abbreviation object_ty := (gmap string ty).

Definition entry_has_type (te : object_ty) (o : object) : Prop :=
  map_Forall (fun key t => exists v, o !! key = Some v /\ has_type v t = true) te.

(** [TBatchSamePattern<tp, te>] (lines 33-36). *)
Definition batch_has_type (tp : ty) (te : object_ty)
    (batch : TBatchSamePattern value object) : Prop :=
  has_type (accumulate_pattern batch) (TyUnion tp TyNull) = true /\
  Forall (entry_has_type te) (items batch).

#[export] Instance entry_has_type_dec te o : Decision (entry_has_type te o).
Proof. apply map_Forall_dec. intros key t. destruct (o !! key) as [v|] eqn:Hv.
  - destruct (has_type v t) eqn:Ht; [left; eauto|right]. intros (v' & [= <-] & ?). congruence.
  - right. by intros (v' & ? & _).
Defined.

#[export] Instance batch_has_type_dec tp te batch : Decision (batch_has_type tp te batch).
Proof. unfold batch_has_type. apply _. Defined.

(** ** Typing of the operations *)

Section typing.
Context {E : Type} (propName : string) (tp : ty) (te : object_ty).
Context (Hkey : te !! propName = Some tp).
Implicit Types batch : TBatchSamePattern value object.

(** [x[propName]] has the type [TEntry[TKey]] (line 86). *)
Lemma get_prop_typed (x : object) :
  entry_has_type te x -> has_type (get_prop x propName) tp = true.
Proof.
  intros Hx. destruct (Hx propName tp Hkey) as (v & Hv & Ht).
  unfold get_prop. by rewrite Hv.
Qed.

(** [beginWith] returns a batch of the type (line 46). *)
Lemma beginWith_typed batch :
  beginWith (sameProperty (E := E) propName) tt = Ok batch -> batch_has_type tp te batch.
Proof. intros [= <-]. split; [apply orb_true_r|done]. Qed.

(** [forEachEntry] takes a batch and an entry of their types to batches of
    the type (lines 47-70). *)
Lemma forEachEntry_typed batch x r :
  batch_has_type tp te batch -> entry_has_type te x ->
  forEachEntry (sameProperty (E := E) propName) batch x = Ok r ->
  batch_has_type tp te (batch_to_update r) /\
  Forall (batch_has_type tp te) (present (batch_to_push r)).
Proof.
  intros [Hacc Hitems] Hx. cbn. unfold samePattern_forEachEntry, joins; cbn.
  pose proof (get_prop_typed x Hx) as Hp.
  assert (forall its, Forall (entry_has_type te) its ->
            batch_has_type tp te (Batch (get_prop x propName) (its ++ [x]))) as Hnext.
  { intros its Hits. split; cbn; [by rewrite Hp|].
    apply Forall_app. split; [done|by apply Forall_singleton]. }
  destruct (strict_eq (accumulate_pattern batch) VNull); cbn;
    [|destruct (strict_eq (accumulate_pattern batch) (get_prop x propName)); cbn];
    intros [= <-]; cbn; (split; [by apply Hnext||by apply (Hnext [])|]); [done..|].
  by apply Forall_singleton.
Qed.

(** [end] gives back the batch (lines 71-78). *)
Lemma end_typed batch r :
  batch_has_type tp te batch ->
  end_ (sameProperty (E := E) propName) batch = Ok r ->
  Forall (batch_has_type tp te) (present (end_batch_to_push r)).
Proof. intros Hbatch [= <-]. destruct batch. by apply Forall_singleton. Qed.

#[export] Instance sameProperty_typed :
  Preserves (sameProperty (E := E) propName)
    (batch_has_type tp te) (entry_has_type te) (batch_has_type tp te).
Proof. split; [apply beginWith_typed|apply forEachEntry_typed|apply end_typed]. Qed.

End typing.

(** ** Theorems about the types *)

Section typing_theorems.
Context {E : Type} (propName : string) (tp : ty) (te : object_ty).
Implicit Types w : world E (TBatchSamePattern value object).

(** C26.  [batchByProp] is well typed: when the property is a key of the
    type of the entries and every entry of the input has that type, every
    batch written has the type [TBatchSamePattern<TEntry[TKey], TEntry>]:
    its pattern is a value of the type of the property or [null], and its
    items have the type of the entries.  This holds on every input, ended
    or not, with errors or not. *)
Theorem batchByProp_well_typed its w :
  te !! propName = Some tp ->
  entries_in (entry_has_type te) its ->
  batchByProp propName its = Ok w ->
  Forall (batch_has_type tp te) (written w).
Proof.
  intros Hkey. apply (preserves_written _ (batch_has_type tp te)), sameProperty_typed, Hkey.
Qed.

(** When, moreover, [null] is not a value of the type of the property,
    the pattern of a written batch is [null] exactly when the batch has no
    items, and it is of the type of the property otherwise: the test of
    line 50 then tells the initial batch from the others. *)
Lemma batchByProp_pattern_typed its w :
  te !! propName = Some tp -> has_type VNull tp = false ->
  entries_in (entry_has_type te) its ->
  batchByProp propName its = Ok w ->
  Forall (initial_or_filled (fun p => has_type p tp = true)) (written w).
Proof.
  intros Hkey Hnull Hits.
  apply (preserves_written _ (initial_or_filled (fun p => has_type p tp = true))
           (extracts_good (property_config (E := E) propName)
              (fun p => has_type p tp = true))).
  - apply samePattern_preserves. intros [] Hp; try done. congruence.
  - eapply Forall_impl; [exact Hits|]. intros [x| |]; [|done..].
    intros Hx acc p [= <-]. by apply (get_prop_typed propName tp te).
Qed.

End typing_theorems.
