(* ===== verification/Store.v ===== *)
(** * Store: the objects of a JavaScript program, by reference

    An object literal and an array literal (highland-batch-by.ts, lines 46,
    53-56, 60-67, 73-76) each create a new object; what a variable or a
    property holds is a reference to it.  Two references may be to the same
    object, and whoever holds a reference may change the object.  The other
    files take a batch as a value; this one gives the store in which it is
    an object, for [Heap] to write the policy in.

    A store is a finite map from references ([loc]) to the objects; an
    object is never removed.  [alloc] is the evaluation of a literal.  A
    computation over a store that may throw is an [eff] that returns a
    [result]; [x <-? m ;; k] runs [k] when [m] returns.

    What code that holds only some references can do to a store is [keeps]:
    it leaves alone the objects it has no reference to. *)

From stdpp Require Import prelude gmap.
From S2P Require Import Prelude JsValue.

(** A reference to an object. *)
Record loc : Type := Loc { loc_car : nat }.

#[export] Instance loc_eq_dec : EqDecision loc.
Proof. solve_decision. Defined.

#[export] Instance loc_countable : Countable loc.
Proof. by apply (inj_countable' loc_car Loc); intros []. Defined.

#[export] Program Instance loc_infinite : Infinite loc :=
  inj_infinite Loc (fun l => Some (loc_car l)) _.
Next Obligation. done. Qed.

(** A reference to an object is truthy. *)
#[export] Instance loc_truthy : Truthy loc := fun _ => true.

#[export] Instance loc_always_truthy : AlwaysTruthy loc.
Proof. by intros ?. Qed.

(** ** Computations that may throw *)

Definition eff_try {W E A B} (m : eff W (result E A)) (k : A -> eff W (result E B))
    : eff W (result E B) :=
  fun w =>
    let '(r, w') := m w in
    match r with
    | Ok a => k a w'
    | Throw e => (Throw e, w')
    end.

Notation "x <-? m ;; k" := (eff_try m (fun x => k))
  (at level 100, m at next level, right associativity) : eff_scope.

(** ** The store *)

Section store.
Context {V : Type}.
Implicit Types h : gmap loc V.
Implicit Types O : gset loc.

(** A literal: a new object, at a reference that no object has yet. *)
Definition alloc (v : V) : eff (gmap loc V) loc :=
  fun h => let l := fresh (dom h) in (l, <[l := v]> h).

(** [h'] has the objects of [O] as [h] has them. *)
Definition keeps O h h' : Prop := forall l, l ∈ O -> h' !! l = h !! l.

Lemma alloc_spec v h : exists l, h !! l = None /\ alloc v h = (l, <[l := v]> h).
Proof.
  exists (fresh (dom h)). split; [|done]. apply not_elem_of_dom, is_fresh.
Qed.

Lemma alloc_extends v h : h ⊆ (alloc v h).2.
Proof. destruct (alloc_spec v h) as (l & Hl & ->). by apply insert_subseteq. Qed.

Lemma alloc_new v h : (alloc v h).1 ∉ dom h.
Proof. destruct (alloc_spec v h) as (l & Hl & ->). by apply not_elem_of_dom. Qed.

#[export] Instance keeps_preorder O : PreOrder (keeps O).
Proof.
  split; [done|]. intros h1 h2 h3 H12 H23 l Hl. by rewrite H23, H12.
Qed.

(** A store that extends another keeps all its objects. *)
Lemma extends_keeps h h' : h ⊆ h' -> keeps (dom h) h h'.
Proof.
  intros Hsub l [v Hl]%elem_of_dom. rewrite Hl. by eapply lookup_weaken.
Qed.

End store.

#[global] Arguments alloc : simpl never.
