(* ===== verification/Abstraction.v ===== *)
(** * Abstraction: a policy with a world that implements a policy without

    A fourth interface between the transform and its policies.  A policy
    with effects ([EControl]) keeps its batches in a world of its own (a
    store, say) and hands the transform what stands for them there.  It
    implements a policy without effects when, in every world, its
    operations do to what stands for a batch what the operations of the
    other do to the batch itself, and push what stands for what the other
    pushes.

    What stands for what depends on the world, and the world changes while
    the transform runs: the interface asks that the worlds move along a
    preorder [ext] under which what was pushed keeps standing for the same
    thing.  The transform over such a policy then makes, call for call, the
    calls of the transform over the policy it implements. *)

From stdpp Require Import prelude.
From S2P Require Import Prelude JsValue Stream Control BatchBy Invariant Machine Simulation Protocol.

(** Two calls on an output stream that correspond. *)
Definition call_shows {U1 U2} (Q : U1 -> U2 -> Prop)
    (c1 : out_call U1) (c2 : out_call U2) : Prop :=
  match c1, c2 with
  | CallWrite u1, CallWrite u2 => Q u1 u2
  | CallEnd, CallEnd => True
  | _, _ => False
  end.

(** Two output streams that correspond: the same calls in the same order,
    on values that correspond, and the same error escaped. *)
Definition shown {E U1 U2} (Q : U1 -> U2 -> Prop)
    (o1 : world E U1) (o2 : world E U2) : Prop :=
  Forall2 (call_shows Q) (calls o1) (calls o2) /\ escaped o1 = escaped o2.

(** The calls on an output stream, each written value read through [f]:
    nothing when one of them cannot be read. *)
Definition read_call {U1 U2} (f : U1 -> option U2) (c : out_call U1)
    : option (out_call U2) :=
  match c with
  | CallWrite u => CallWrite <$> f u
  | CallEnd => Some CallEnd
  end.

Definition read_output {E U1 U2} (f : U1 -> option U2) (o : world E U1)
    : option (world E U2) :=
  cs ← mapM (read_call f) (calls o); Some (World cs (escaped o)).

Lemma agree_impl {E A B} (Q Q' : A -> B -> Prop) (r1 : result E A) (r2 : result E B) :
  (forall a b, Q a b -> Q' a b) -> agree Q r1 r2 -> agree Q' r1 r2.
Proof. destruct r1, r2; cbn; auto. Qed.

Lemma option_Forall2_impl {A B} (Q Q' : A -> B -> Prop) (mx : option A) (my : option B) :
  (forall a b, Q a b -> Q' a b) -> option_Forall2 Q mx my -> option_Forall2 Q' mx my.
Proof. intros HQ [x y Hxy|]; constructor; auto. Qed.

(** A result read through a partial function. *)
Lemma agree_res_map {E A B} (f : A -> option B) (r1 : result E A) (r2 : result E B) :
  agree (fun a b => f a = Some b) r1 r2 <-> res_map f r1 = res_map Some r2.
Proof. destruct r1, r2; cbn; split; try done; congruence. Qed.

Class Implements {E W B1 B2 T U1 U2 : Type} `{Truthy U1, Truthy U2}
    (ec : EControl E W B1 T U1) (c : Control E B2 T U2)
    (ext : relation W)
    (holds : W -> B1 -> B2 -> Prop) (shows : W -> U1 -> U2 -> Prop) : Prop := {
  implements_preorder :: PreOrder ext;
  implements_stable w w' u1 u2 : ext w w' -> shows w u1 u2 -> shows w' u1 u2;
  implements_truthy w u1 u2 : shows w u1 u2 -> truthy u1 = truthy u2;
  implements_begin w :
    ext w (e_beginWith ec w).2 /\
    agree (holds (e_beginWith ec w).2) (e_beginWith ec w).1 (beginWith c tt);
  implements_step w b1 b2 x :
    holds w b1 b2 ->
    ext w (e_forEachEntry ec b1 x w).2 /\
    agree (fun s1 s2 =>
             holds (e_forEachEntry ec b1 x w).2 (batch_to_update s1) (batch_to_update s2) /\
             option_Forall2 (shows (e_forEachEntry ec b1 x w).2)
               (batch_to_push s1) (batch_to_push s2))
      (e_forEachEntry ec b1 x w).1 (forEachEntry c b2 x);
  implements_end w b1 b2 :
    holds w b1 b2 ->
    ext w (e_end ec b1 w).2 /\
    agree (fun s1 s2 =>
             option_Forall2 (shows (e_end ec b1 w).2)
               (end_batch_to_push s1) (end_batch_to_push s2))
      (e_end ec b1 w).1 (end_ c b2)
}.

(** ** Output streams that correspond *)

Section shown.
Context {E U1 U2 : Type} `{Truthy U1, Truthy U2}.
Implicit Types Q : U1 -> U2 -> Prop.

Lemma shown_fresh Q : shown (E := E) Q fresh fresh.
Proof. by split; [constructor|]. Qed.

Lemma shown_impl (Q Q' : U1 -> U2 -> Prop) (o1 : world E U1) o2 :
  (forall u1 u2, Q u1 u2 -> Q' u1 u2) -> shown Q o1 o2 -> shown Q' o1 o2.
Proof.
  intros HQ [Hcalls Herr]. split; [|done].
  eapply Forall2_impl; [done|]. intros [u1|] [u2|]; cbn; auto.
Qed.

(** Streams that correspond through a function are read through it. *)
Lemma shown_read_output (f : U1 -> option U2) (o1 : world E U1) o2 :
  shown (fun u1 u2 => f u1 = Some u2) o1 o2 <-> read_output f o1 = Some o2.
Proof.
  unfold shown, read_output. destruct o1 as [cs1 err1], o2 as [cs2 err2]; cbn.
  rewrite bind_Some. setoid_rewrite mapM_Some. split.
  - intros [Hcs ->]. exists cs2. split; [|done].
    eapply Forall2_impl; [done|]. intros [u1|] [u2|]; cbn; try done. by intros ->.
  - intros (cs & Hcs & [= -> ->]). split; [|done].
    eapply Forall2_impl; [done|]. intros [u1|] [u2|]; cbn; try done.
    + by intros [u' [? [= ->]]]%fmap_Some.
    + by intros [u' [? ?]]%fmap_Some.
Qed.

(** What the callbacks add to corresponding streams: corresponding writes,
    the same other calls, the same error. *)
Lemma shown_add_calls Q bs1 bs2 (ends : bool) err (o1 : world E U1) o2 :
  shown Q o1 o2 -> Forall2 Q bs1 bs2 ->
  shown Q (add_calls bs1 (if ends then [CallEnd] else []) err o1)
    (add_calls bs2 (if ends then [CallEnd] else []) err o2).
Proof.
  intros [Hcalls Herr] Hbs. split; cbn; [|by rewrite Herr].
  apply Forall2_app; [done|]. apply Forall2_app.
  - by apply Forall2_fmap, (Forall2_impl _ _ _ _ Hbs).
  - destruct ends; by repeat constructor.
Qed.

(** A pushed batch and what stands for it are written, or not, together. *)
Lemma shown_truthy_batch Q (p1 : option U1) (p2 : option U2) :
  (forall u1 u2, Q u1 u2 -> truthy u1 = truthy u2) ->
  option_Forall2 Q p1 p2 -> Forall2 Q (truthy_batch p1) (truthy_batch p2).
Proof.
  intros Htruthy [u1 u2 Hu|]; cbn; [|constructor].
  rewrite <- (Htruthy _ _ Hu). destruct (truthy u1); by repeat constructor.
Qed.

End shown.

(** ** The transform over a policy that implements another *)

Section implements.
Context {E W B1 B2 T U1 U2 : Type} `{Truthy U1, Truthy U2}.
Context (ec : EControl E W B1 T U1) (c : Control E B2 T U2).
Context (ext : relation W).
Context (holds : W -> B1 -> B2 -> Prop) (shows : W -> U1 -> U2 -> Prop).
Context `{!Implements ec c ext holds shows}.

Lemma shown_stable w w' (o1 : world E U1) (o2 : world E U2) :
  ext w w' -> shown (shows w) o1 o2 -> shown (shows w') o1 o2.
Proof. intros Hext. apply shown_impl. intros u1 u2. by apply implements_stable. Qed.

(** The loop over the two policies, from a world in which the batches and
    the output streams correspond: the world moves along [ext], and in the
    world it ends in the output streams correspond. *)
Lemma loop_implements b1 b2 its w o1 o2 :
  holds w b1 b2 -> shown (shows w) o1 o2 ->
  let s := loop_of (e_scan_callback ec) (e_map_callback ec) e_done_callback
             b1 its (w, o1) in
  ext w s.1 /\ shown (shows s.1) s.2 (drive c b2 its o2).
Proof.
  revert b1 b2 w o1 o2.
  induction its as [|[x|e|] its IH]; intros b1 b2 w o1 o2 Hb Ho;
    cbn [loop_of drive].
  - done.
  - rewrite e_scan_callback_eq.
    destruct (implements_step w b1 b2 x Hb) as [Hext Hstep].
    destruct (e_forEachEntry ec b1 x w) as [[s1|e1] w'],
      (forEachEntry c b2 x) as [s2|e2]; cbn in Hext, Hstep; try done.
    + destruct Hstep as [Hb' Hpush].
      destruct (IH (batch_to_update s1) (batch_to_update s2) w'
                  (add_calls (truthy_batch (batch_to_push s1)) [] None o1)
                  (add_calls (truthy_batch (batch_to_push s2)) [] None o2)) as [Hext' Hs];
        [done| |split; [by etrans|done]].
      apply (shown_add_calls _ _ _ false), shown_truthy_batch;
        [by eapply shown_stable|apply implements_truthy|done].
    + subst e2. rewrite pair_sink_eq. split; [done|].
      apply (shown_add_calls _ [] [] false); [by eapply shown_stable|constructor].
  - rewrite pair_sink_eq. split; [done|].
    by apply (shown_add_calls _ [] [] false); [|constructor].
  - rewrite e_map_callback_eq.
    destruct (implements_end w b1 b2 Hb) as [Hext Hend].
    destruct (e_end ec b1 w) as [[s1|e1] w'], (end_ c b2) as [s2|e2];
      cbn in Hext, Hend; try done.
    + rewrite e_done_callback_eq. split; [done|].
      apply (shown_add_calls _ _ _ true), shown_truthy_batch;
        [by eapply shown_stable|apply implements_truthy|done].
    + subst e2. rewrite pair_sink_eq. split; [done|].
      apply (shown_add_calls _ [] [] false); [by eapply shown_stable|constructor].
Qed.

Lemma implements_batchBy its w :
  ext w (e_batchBy ec its w).2 /\
  agree (shown (shows (e_batchBy ec its w).2)) (e_batchBy ec its w).1 (batchBy c its).
Proof.
  unfold e_batchBy, batchBy.
  destruct (implements_begin w) as [Hext Hbegin].
  destruct (e_beginWith ec w) as [[b1|e1] w1], (beginWith c tt) as [b2|e2];
    cbn in Hext, Hbegin; try done. cbn [fst snd agree].
  change (e_chain ?c b1) with
    (chain_of (e_scan_callback c) (e_map_callback c) e_done_callback b1).
  rewrite run_chain_of, run_chain.
  destruct (loop_implements b1 b2 its w1 fresh fresh Hbegin) as [Hext' Hs];
    [apply shown_fresh|]. split; [by etrans|done].
Qed.

(** C24.  The transform over a policy with a world that implements a
    policy without: from every world and on every input, the world moves
    along the preorder of the interface, and in the world the transform
    ends in, the calls on the output stream are, one for one and in
    order, the calls of the transform over the implemented policy, each
    write on what stands for the batch written there; the same error
    escapes, and [beginWith] throws the same value. *)
Theorem e_batchBy_implements its w :
  ext w (e_batchBy ec its w).2 /\
  agree (shown (shows (e_batchBy ec its w).2)) (e_batchBy ec its w).1 (batchBy c its).
Proof. apply implements_batchBy. Qed.

End implements.
