(* ===== verification/Heap.v ===== *)
(** * Heap: the same-pattern policy on objects in a store

    [SamePattern] takes a batch as a value.  In the program a batch is an
    object with two properties, the second of which refers to an array
    (highland-batch-by.ts, lines 33-36), and the policy (lines 38-80)
    builds batches with object and array literals: each creates an object,
    and a batch that is pushed shares the array of the batch it was made
    from (lines 60-63, 73-76).  This file writes the three operations once
    more over a store ([Store]), literal by literal, as a policy with
    effects ([EControl]) whose batches are references.

    [read_batch] is what a reference stands for in a store: the batch as
    [SamePattern] has it.  The operations only create objects; with that,
    the policy is an instance of [Implements] for the policy of
    [SamePattern], and the transform over it writes references that stand,
    in the store it ends in, for the batches [batchBy] writes.
    [h_sameProperty] and [h_batchByProp] are lines 82-89 and 117 over
    it. *)

From stdpp Require Import prelude strings gmap.
From S2P Require Import Prelude JsValue Stream Control BatchBy Simulation Protocol SamePattern.
From S2P Require Import SameProperty Store Abstraction.

(** The objects of the policy: a batch (lines 33-36), whose [items] is a
    reference to an array, and an array of entries. *)
Inductive cell (P TEntry : Type) : Type :=
| CBatch (accumulate_pattern : P) (items : loc)
| CArray (elements : list TEntry).

Arguments CBatch {P TEntry} accumulate_pattern items.
Arguments CArray {P TEntry} elements.

Abbreviation heap P TEntry := (gmap loc (cell P TEntry)).

Section h_samePattern.
Context {E P TEntry : Type} `{Nullable P}.
Context (type_error : E).
Implicit Types cfg : pattern_config E P TEntry.
Implicit Types h : heap P TEntry.
Local Open Scope eff_scope.

(** [batch.accumulate_pattern] (lines 48, 74).  The type of [batch] says it
    is a batch; of anything else the model makes the read throw. *)
Definition get_accumulate_pattern (batch : loc) : eff (heap P TEntry) (result E P) :=
  fun h =>
    (match h !! batch with
     | Some (CBatch accumulate_pattern _) => Ok accumulate_pattern
     | _ => Throw type_error
     end, h).

(** [batch.items] (lines 48, 75): the reference to the array. *)
Definition get_items (batch : loc) : eff (heap P TEntry) (result E loc) :=
  fun h =>
    (match h !! batch with
     | Some (CBatch _ items) => Ok items
     | _ => Throw type_error
     end, h).

(** [...items] (line 55): the elements of the array, read one after the
    other. *)
Definition spread (items : loc) : eff (heap P TEntry) (result E (list TEntry)) :=
  fun h =>
    (match h !! items with
     | Some (CArray elements) => Ok elements
     | _ => Throw type_error
     end, h).

(** [beginWith] (line 46): an array literal inside an object literal. *)
Definition h_beginWith : eff (heap P TEntry) (result E loc) :=
  items <- alloc (CArray []) ;;
  batch <- alloc (CBatch null items) ;;
  eff_ret (Ok batch).

(** [forEachEntry] (lines 47-70).  The batch pushed on line 60 is a new
    object with the array of [batch]; the batches of lines 53 and 64 have
    arrays of their own. *)
Definition h_forEachEntry cfg (batch : loc) (entry : TEntry)
    : eff (heap P TEntry) (result E (step_result loc loc)) :=
  accumulate_pattern <-? get_accumulate_pattern batch ;;
  items <-? get_items batch ;;
  current_pattern <-? eff_ret (extractPattern cfg entry accumulate_pattern) ;;
  join <-? eff_ret (joins cfg accumulate_pattern current_pattern) ;;
  if join : bool then
    elements <-? spread items ;;
    new_items <- alloc (CArray (elements ++ [entry])) ;;
    new_batch <- alloc (CBatch current_pattern new_items) ;;
    eff_ret (Ok {| batch_to_push := None; batch_to_update := new_batch |})
  else
    pushed_batch <- alloc (CBatch accumulate_pattern items) ;;
    new_items <- alloc (CArray [entry]) ;;
    new_batch <- alloc (CBatch current_pattern new_items) ;;
    eff_ret (Ok {| batch_to_push := Some pushed_batch; batch_to_update := new_batch |}).

(** [end] (lines 71-78): a new object with the pattern and the array of the
    last batch. *)
Definition h_end (last_batch : loc) : eff (heap P TEntry) (result E (end_result loc)) :=
  accumulate_pattern <-? get_accumulate_pattern last_batch ;;
  items <-? get_items last_batch ;;
  pushed_batch <- alloc (CBatch accumulate_pattern items) ;;
  eff_ret (Ok {| end_batch_to_push := Some pushed_batch |}).

(** [samePattern] (lines 38-80) on objects. *)
Definition h_samePattern cfg : EControl E (heap P TEntry) loc TEntry loc :=
  {| e_beginWith := h_beginWith;
     e_forEachEntry := h_forEachEntry cfg;
     e_end := h_end |}.

(** ** What a reference stands for *)

(** The batch an object is, in a store: its pattern and the elements of
    its array. *)
Definition read_batch h (batch : loc) : option (TBatchSamePattern P TEntry) :=
  match h !! batch with
  | Some (CBatch accumulate_pattern items) =>
      match h !! items with
      | Some (CArray elements) => Some (Batch accumulate_pattern elements)
      | _ => None
      end
  | _ => None
  end.

(** The objects a batch is made of: the object and its array. *)
Definition footprint h (batch : loc) : gset loc :=
  match h !! batch with
  | Some (CBatch _ items) => {[batch; items]}
  | _ => {[batch]}
  end.

End h_samePattern.

Section h_sameProperty.
Context {E : Type}.
Context (type_error : E).

(** [sameProperty(propName)] (lines 82-89) on objects. *)
Definition h_sameProperty (propName : string)
    : EControl E (heap value object) loc object loc :=
  h_samePattern type_error (property_config propName).

(** [batchByProp(propName)] (line 117) on objects: the output stream of
    references, and the store afterwards. *)
Definition h_batchByProp (propName : string) (object_stream : list (item E object))
    : eff (heap value object) (result E (world E loc)) :=
  e_batchBy (h_sameProperty propName) object_stream.

End h_sameProperty.

#[global] Arguments h_beginWith : simpl never.
#[global] Arguments h_forEachEntry : simpl never.
#[global] Arguments h_end : simpl never.

(** ** Reading a store *)

(** Evaluate the next literal: a reference [l] that the store does not
    have, and the store with the object at [l]. *)
Ltac alloc_step :=
  match goal with
  | |- context [alloc ?v ?h] =>
      let l := fresh "l" in
      let Hl := fresh "Hl" in
      let Heq := fresh "Heq" in
      destruct (alloc_spec v h) as (l & Hl & Heq); rewrite Heq; clear Heq; cbn;
      rewrite ?lookup_insert_None in Hl; destruct_and?
  end.

(** The store after some literals extends the store before them. *)
Ltac solve_extends :=
  repeat (apply insert_subseteq_r; [rewrite ?lookup_insert_None; by split_and?|]); done.

Section reading.
Context {P TEntry : Type}.
Implicit Types h : heap P TEntry.
Implicit Types b : TBatchSamePattern P TEntry.

Lemma read_batch_Some h l b :
  read_batch h l = Some b <->
  exists a, h !! l = Some (CBatch (accumulate_pattern b) a) /\
            h !! a = Some (CArray (items b)).
Proof.
  unfold read_batch. destruct b as [p xs]. split.
  - destruct (h !! l) as [[p' a|]|] eqn:Hl; try done.
    destruct (h !! a) as [[|xs']|] eqn:Ha; try done. intros [= -> ->]. by exists a.
  - intros (a & -> & Ha). cbn in Ha. by rewrite Ha.
Qed.

(** A batch is read in its footprint. *)
Lemma read_batch_keeps O h h' l :
  footprint h l ⊆ O -> keeps O h h' ->
  read_batch h' l = read_batch h l /\ footprint h' l = footprint h l.
Proof.
  unfold read_batch, footprint. intros HO Hk.
  rewrite (Hk l) by (destruct (h !! l) as [[]|]; set_solver).
  destruct (h !! l) as [[p a|]|]; try done. by rewrite (Hk a) by set_solver.
Qed.

Lemma footprint_dom h l b : read_batch h l = Some b -> footprint h l ⊆ dom h.
Proof.
  intros (a & Hl & Ha)%read_batch_Some. unfold footprint. rewrite Hl.
  apply elem_of_dom_2 in Hl, Ha. set_solver.
Qed.

(** What a reference stands for in a store, it stands for in every store
    that extends it, and it is made of the same objects. *)
Lemma read_batch_extends h h' l b :
  h ⊆ h' -> read_batch h l = Some b ->
  read_batch h' l = Some b /\ footprint h' l = footprint h l.
Proof.
  intros Hsub Hl.
  destruct (read_batch_keeps (dom h) h h' l) as [-> ->];
    eauto using footprint_dom, extends_keeps.
Qed.

Lemma read_batch_weaken h h' l b :
  h ⊆ h' -> read_batch h l = Some b -> read_batch h' l = Some b.
Proof. intros Hsub Hl. by apply (read_batch_extends h h' l b). Qed.

(** A batch made of two new objects. *)
Lemma read_batch_new h l a p xs :
  l <> a ->
  read_batch (<[l := CBatch p a]> (<[a := CArray xs]> h)) l = Some (Batch p xs) /\
  footprint (<[l := CBatch p a]> (<[a := CArray xs]> h)) l = {[l; a]}.
Proof. intros Hne. unfold read_batch, footprint. by simplify_map_eq. Qed.

(** A new object with an array of the store. *)
Lemma read_batch_shared h l a p xs :
  h !! l = None -> h !! a = Some (CArray xs) ->
  read_batch (<[l := CBatch p a]> h) l = Some (Batch p xs) /\
  footprint (<[l := CBatch p a]> h) l = {[l; a]}.
Proof.
  intros Hl Ha. assert (l <> a) by congruence.
  unfold read_batch, footprint. by simplify_map_eq.
Qed.

End reading.

(** ** What the operations do to a store *)

Section operations.
Context {E P TEntry : Type} `{Nullable P}.
Context (type_error : E).
Implicit Types cfg : pattern_config E P TEntry.
Implicit Types h : heap P TEntry.
Implicit Types b : TBatchSamePattern P TEntry.

(** [beginWith] makes a batch of two new objects that stands for the
    first batch of [samePattern]. *)
Lemma h_beginWith_spec h :
  h ⊆ (h_beginWith (E := E) h).2 /\
  agree (fun l b => read_batch (h_beginWith (E := E) h).2 l = Some b /\
                    footprint (h_beginWith (E := E) h).2 l ## dom h)
    (h_beginWith (E := E) h).1 (samePattern_beginWith tt).
Proof.
  unfold h_beginWith. unfold_eff. repeat alloc_step.
  destruct (read_batch_new h l0 l null []) as [-> ->]; [done|].
  split_and!; [solve_extends|done|].
  rewrite <- !not_elem_of_dom in *. set_solver.
Qed.

(** [forEachEntry] on a reference that stands for a batch does what
    [samePattern] does on the batch: the store is extended, the new batch
    is made of two new objects, and the batch that is pushed, if any, has
    no object in common with the new batch. *)
Lemma h_forEachEntry_spec cfg h l b x :
  read_batch h l = Some b ->
  h ⊆ (h_forEachEntry type_error cfg l x h).2 /\
  agree (fun s1 s2 =>
           (read_batch (h_forEachEntry type_error cfg l x h).2 (batch_to_update s1) =
              Some (batch_to_update s2) /\
            footprint (h_forEachEntry type_error cfg l x h).2 (batch_to_update s1) ## dom h) /\
           option_Forall2 (fun l' b' =>
               read_batch (h_forEachEntry type_error cfg l x h).2 l' = Some b' /\
               footprint (h_forEachEntry type_error cfg l x h).2 (batch_to_update s1) ##
                 footprint (h_forEachEntry type_error cfg l x h).2 l')
             (batch_to_push s1) (batch_to_push s2))
    (h_forEachEntry type_error cfg l x h).1 (samePattern_forEachEntry cfg b x).
Proof.
  intros Hb. pose proof Hb as (a & Hl & Ha)%read_batch_Some.
  unfold h_forEachEntry, samePattern_forEachEntry, eff_try,
    get_accumulate_pattern, get_items, spread.
  unfold_eff. rewrite Hl. cbn.
  destruct (extractPattern cfg x (accumulate_pattern b)) as [cp|e]; cbn; [|done].
  destruct (joins cfg (accumulate_pattern b) cp) as [[|]|e]; cbn; [| |done].
  - rewrite Ha. repeat alloc_step.
    destruct (read_batch_new h l1 l0 cp (items b ++ [x])) as [-> ->]; [done|].
    split_and!; [solve_extends|done| |constructor].
    rewrite <- !not_elem_of_dom in *. set_solver.
  - repeat alloc_step.
    destruct (read_batch_shared h l0 a (accumulate_pattern b) (items b)) as [Hp Hfp];
      [done..|].
    destruct (read_batch_new (<[l0:=CBatch (accumulate_pattern b) a]> h) l2 l1 cp [x])
      as [-> ->]; [done|].
    split; [solve_extends|]. split.
    { split; [done|]. clear Hp Hfp. rewrite <- !not_elem_of_dom in *. set_solver. }
    constructor.
    match goal with
    | |- read_batch ?h' l0 = _ /\ _ =>
        assert (<[l0:=CBatch (accumulate_pattern b) a]> h ⊆ h') as Hsub by solve_extends;
        destruct (read_batch_extends _ _ _ _ Hsub Hp) as [-> ->]
    end.
    rewrite Hfp. split; [by destruct b|]. clear Hp Hfp Hb Hl Hsub.
    apply elem_of_dom_2 in Ha. rewrite <- !not_elem_of_dom in *. set_solver.
Qed.

(** [end] on a reference that stands for a batch pushes a reference that
    stands for the same batch. *)
Lemma h_end_spec h l b :
  read_batch h l = Some b ->
  h ⊆ (h_end type_error l h).2 /\
  agree (fun s1 s2 =>
           option_Forall2 (fun l' b' => read_batch (h_end type_error l h).2 l' = Some b')
             (end_batch_to_push s1) (end_batch_to_push s2))
    (h_end type_error l h).1 (samePattern_end (E := E) b).
Proof.
  intros Hb. pose proof Hb as (a & Hl & Ha)%read_batch_Some.
  unfold h_end, samePattern_end, eff_try, get_accumulate_pattern, get_items.
  unfold_eff. rewrite Hl. cbn. alloc_step.
  split; [solve_extends|]. constructor.
  destruct (read_batch_shared h l0 a (accumulate_pattern b) (items b)) as [-> _];
    [done..|by destruct b].
Qed.

End operations.

(** ** The policy on objects implements the policy on values *)

Section refinement.
Context {E P TEntry : Type} `{Nullable P}.
Context (type_error : E).
Implicit Types cfg : pattern_config E P TEntry.
Implicit Types h : heap P TEntry.

(** In a store, a reference stands for a batch. *)
Definition stands_for h (l : loc) (b : TBatchSamePattern P TEntry) : Prop :=
  read_batch h l = Some b.

#[export] Instance h_samePattern_implements cfg :
  Implements (h_samePattern type_error cfg) (samePattern cfg) (⊆) stands_for stands_for.
Proof.
  split.
  - apply _.
  - intros h h' l b. apply read_batch_weaken.
  - done.
  - intros h. destruct (h_beginWith_spec (E := E) h) as [Hext Hb]. split; [done|].
    eapply agree_impl, Hb. by intros l b [? _].
  - intros h l b x Hl.
    destruct (h_forEachEntry_spec type_error cfg h l b x Hl) as [Hext Hs]. split; [done|].
    eapply agree_impl, Hs. intros s1 s2 [[? _] Hpush]. split; [done|].
    eapply option_Forall2_impl, Hpush. by intros l' b' [? _].
  - intros h l b Hl. apply (h_end_spec type_error h l b Hl).
Qed.

(** C12.  The transform over the policy on objects, from every store and
    on every input: the store it ends in extends the store it started
    from, so that no object that existed was changed; and the calls on the
    output stream, each reference read in the store at the end, are the
    calls of [batchBy] over [samePattern]: the same batches in the same
    order, the same end, the same error escaped.  A failure of a callback
    is the only failure: no read of the policy fails. *)
Theorem h_batchBy_refines cfg its h :
  h ⊆ (e_batchBy (h_samePattern type_error cfg) its h).2 /\
  res_map (read_output (read_batch (e_batchBy (h_samePattern type_error cfg) its h).2))
    (e_batchBy (h_samePattern type_error cfg) its h).1 =
  res_map Some (batchBy (samePattern cfg) its).
Proof.
  destruct (implements_batchBy (h_samePattern type_error cfg) (samePattern cfg)
              (⊆) stands_for stands_for its h) as [Hext Hout].
  split; [done|]. apply agree_res_map. eapply agree_impl, Hout.
  intros o1 o2. apply (shown_read_output (read_batch _)).
Qed.

(** Two transforms, one after the other on the same store: the second
    leaves the batches of the first as they were, and each writes what
    [batchBy] writes on its input.  No object is shared between them. *)
Corollary h_batchBy_twice cfg1 cfg2 its1 its2 h :
  let r1 := e_batchBy (h_samePattern type_error cfg1) its1 h in
  let r2 := e_batchBy (h_samePattern type_error cfg2) its2 r1.2 in
  res_map (read_output (read_batch r2.2)) r1.1 = res_map Some (batchBy (samePattern cfg1) its1) /\
  res_map (read_output (read_batch r2.2)) r2.1 = res_map Some (batchBy (samePattern cfg2) its2).
Proof.
  intros r1 r2.
  destruct (implements_batchBy (h_samePattern type_error cfg1) (samePattern cfg1)
              (⊆) stands_for stands_for its1 h) as [_ Hout1].
  destruct (implements_batchBy (h_samePattern type_error cfg2) (samePattern cfg2)
              (⊆) stands_for stands_for its2 r1.2) as [Hext Hout2].
  split; apply agree_res_map; [eapply agree_impl, Hout1|eapply agree_impl, Hout2];
    intros o1 o2 Ho; apply (shown_read_output (read_batch _)); [|done].
  by apply (shown_stable (h_samePattern type_error cfg2) (samePattern cfg2)
              (⊆) stands_for stands_for r1.2).
Qed.

End refinement.
