(* ===== verification/OpenWorld.v ===== *)
(** * OpenWorld: the policy among code that changes the objects it is given

    The transform hands the batches it writes to a consumer, by reference.
    The consumer, and any code that runs between two operations of the
    policy (inside [output_stream.write] when the consumer is served at
    once, between two items of an asynchronous source), may change the
    objects it has a reference to: the batches it was handed and their
    arrays, and every object that existed before.  It has no reference to
    the objects the policy made and did not hand over.

    [among env ec] is the policy [ec] of [Heap] with such code run before
    each of its operations: [env O h] is the store the code leaves, given
    the store [h] and the set [O] of the objects only the policy refers to,
    which it must leave as they are ([Confined]).  The store is a
    different one before each operation, since every operation creates
    objects, so the code may do something else each time.  The world keeps
    [O] up to date: the objects an operation makes are added, those of a
    batch it pushes are removed.  A batch is pushed as an [arrival]: the
    reference, and the store as the consumer finds it.  Code that only
    creates objects, such as another transform over the policy, is
    confined ([extending_confined]).

    The theorem is that the batch in use has no object in common with a
    batch that was handed over, so that whatever the other code does, every
    batch is, when it arrives, the batch [batchBy] writes. *)

From stdpp Require Import prelude gmap.
From S2P Require Import Prelude JsValue Stream Control BatchBy Simulation Protocol SamePattern.
From S2P Require Import Store Abstraction Heap.

(** A batch as the consumer receives it. *)
Record arrival (P TEntry : Type) : Type := Arrival {
  arrival_ref : loc;
  arrival_store : heap P TEntry
}.

Arguments Arrival {P TEntry} arrival_ref arrival_store.
Arguments arrival_ref {P TEntry} a.
Arguments arrival_store {P TEntry} a.

(** What arrives is a reference to an object: truthy. *)
#[export] Instance arrival_truthy {P TEntry} : Truthy (arrival P TEntry) :=
  fun a => truthy (arrival_ref a).

(** The batch the consumer reads when it is handed the reference. *)
Definition arrival_batch {P TEntry} (a : arrival P TEntry)
    : option (TBatchSamePattern P TEntry) :=
  read_batch (arrival_store a) (arrival_ref a).

(** Code that leaves alone the objects it has no reference to: those of
    the store that are in [O]. *)
Class Confined {V : Type} (env : gset loc -> gmap loc V -> gmap loc V) : Prop :=
  confined O h : keeps (O ∩ dom h) h (env O h).

(** Code that only creates objects is such code. *)
Lemma extending_confined {V} (env : gset loc -> gmap loc V -> gmap loc V) :
  (forall O h, h ⊆ env O h) -> Confined env.
Proof.
  intros Hext O h l [_ Hl]%elem_of_intersection. by apply (extends_keeps h).
Qed.

Section among.
Context {E P TEntry : Type}.
Implicit Types env : gset loc -> heap P TEntry -> heap P TEntry.
Implicit Types ec : EControl E (heap P TEntry) loc TEntry loc.
Implicit Types h : heap P TEntry.
Implicit Types O : gset loc.

(** The objects only the policy refers to, after an operation that took
    the store from [h1] to [h2] and pushed [pushed]. *)
Definition owned_after O h1 h2 (pushed : option loc) : gset loc :=
  (O ∪ (dom h2 ∖ dom h1)) ∖ from_option (footprint h2) ∅ pushed.

(** An operation, after the other code has run. *)
Definition disturbed {A B} env (m : eff (heap P TEntry) (result E A))
    (pushed : A -> option loc) (arrives : heap P TEntry -> A -> B)
    : eff (heap P TEntry * gset loc) (result E B) :=
  fun w =>
    let h1 := env w.2 w.1 in
    let '(r, h2) := m h1 in
    (res_map (arrives h2) r,
     (h2, owned_after w.2 h1 h2 (match r with Ok a => pushed a | Throw _ => None end))).

Definition among env ec : EControl E (heap P TEntry * gset loc) loc TEntry (arrival P TEntry) :=
  {| e_beginWith := disturbed env (e_beginWith ec) (fun _ => None) (fun _ l => l);
     e_forEachEntry batch entry :=
       disturbed env (e_forEachEntry ec batch entry) batch_to_push
         (fun h s => StepResult (batch_to_update s)
                       (flip Arrival h <$> batch_to_push s));
     e_end last_batch :=
       disturbed env (e_end ec last_batch) end_batch_to_push
         (fun h s => EndResult (flip Arrival h <$> end_batch_to_push s)) |}.

(** The batch in use: the reference stands for it, and only the policy
    refers to its objects. *)
Definition in_use (w : heap P TEntry * gset loc) (l : loc)
    (b : TBatchSamePattern P TEntry) : Prop :=
  read_batch w.1 l = Some b /\ footprint w.1 l ⊆ w.2.

(** What arrives stands for a batch, whatever the world has become. *)
Definition arrives_as (w : heap P TEntry * gset loc) (a : arrival P TEntry)
    (b : TBatchSamePattern P TEntry) : Prop :=
  arrival_batch a = Some b.

(** The worlds are not compared. *)
Definition any_world : relation (heap P TEntry * gset loc) := fun _ _ => True.

#[export] Instance any_world_preorder : PreOrder any_world.
Proof. by split. Qed.

End among.

(** ** The policy among other code implements the policy on values *)

Section confinement.
Context {E P TEntry : Type} `{Nullable P}.
Context (type_error : E).
Context (env : gset loc -> heap P TEntry -> heap P TEntry) `{!Confined env}.
Implicit Types cfg : pattern_config E P TEntry.
Implicit Types h : heap P TEntry.
Implicit Types O : gset loc.

(** New objects that are not handed over are the policy's. *)
Lemma owned_after_new O h1 h2 pushed (X : gset loc) :
  X ⊆ dom h2 -> X ## dom h1 -> X ## from_option (footprint h2) ∅ pushed ->
  X ⊆ owned_after O h1 h2 pushed.
Proof. unfold owned_after. set_solver. Qed.

(** The other code leaves the batch in use as it is. *)
Lemma in_use_confined h O l b :
  in_use (h, O) l b -> read_batch (env O h) l = Some b.
Proof.
  intros [Hl HO]; cbn in Hl, HO. pose proof (footprint_dom h l b Hl) as Hdom.
  destruct (read_batch_keeps (O ∩ dom h) h (env O h) l) as [-> _];
    [set_solver|apply confined|done].
Qed.

#[export] Instance among_implements cfg :
  Implements (among env (h_samePattern type_error cfg)) (samePattern cfg)
    any_world in_use arrives_as.
Proof.
  split; [apply _|done|done|..].
  - intros [h O]. split; [done|]. cbn. unfold disturbed. cbn.
    destruct (h_beginWith_spec (E := E) (env O h)) as [_ Hb].
    destruct (h_beginWith (env O h)) as [[l|e] h2]; cbn in *; [|done].
    destruct Hb as [Hl Hnew]. split; [done|]. cbn.
    apply owned_after_new; [by eapply footprint_dom|done|set_solver].
  - intros [h O] l b x Hl%in_use_confined. split; [done|]. cbn. unfold disturbed. cbn.
    destruct (h_forEachEntry_spec type_error cfg (env O h) l b x Hl) as [_ Hs].
    destruct (h_forEachEntry type_error cfg l x (env O h)) as [[s1|e] h2],
      (samePattern_forEachEntry cfg b x) as [s2|e']; cbn in *; try done.
    destruct Hs as [[Hl' Hnew] Hpush]. split.
    + split; [done|]. cbn.
      apply owned_after_new; [by eapply footprint_dom|done|].
      destruct Hpush as [l' b' [_ Hdisj]|]; [done|set_solver].
    + destruct Hpush as [l' b' [Hread _]|]; by constructor.
  - intros [h O] l b Hl%in_use_confined. split; [done|]. cbn. unfold disturbed. cbn.
    destruct (h_end_spec type_error (env O h) l b Hl) as [_ Hs].
    destruct (h_end type_error l (env O h)) as [[s1|e] h2]; cbn in *; [|done].
    destruct Hs as [l' b' Hread|]; by constructor.
Qed.

(** C13.  The policy on objects among code that may, before each operation
    of the policy, change every object but those that only the policy
    refers to: on every input and from every store, each batch is, in the
    store in which it arrives at the consumer, the batch that [batchBy]
    over [samePattern] writes there; the same calls are made in the same
    order and the same error escapes.  What the other code does to the
    batches it was handed does not reach the batch in use. *)
Theorem h_batchBy_confined cfg its h O :
  res_map (read_output arrival_batch)
    (e_batchBy (among env (h_samePattern type_error cfg)) its (h, O)).1 =
  res_map Some (batchBy (samePattern cfg) its).
Proof.
  destruct (implements_batchBy (among env (h_samePattern type_error cfg)) (samePattern cfg)
              any_world in_use arrives_as its (h, O)) as [_ Hout].
  apply agree_res_map. eapply agree_impl, Hout.
  intros o1 o2 Ho. apply (shown_read_output arrival_batch), Ho.
Qed.

End confinement.
