(* ===== verification/Allocation.v ===== *)
(** * Allocation: what the policy copies

    [items: [...items, entry]] (highland-batch-by.ts, line 55) makes, for
    every entry that joins a batch, a new array with the entries of the
    batch so far and the new one; the arrays made before stay in the store
    until they are collected.  This file counts the elements of the arrays
    of a store ([elements_stored]) and gives the number the transform adds
    to it: for each entry the length of the batch in use after it
    ([copies]), which for a batch of [k] entries sums up to
    [k (k + 1) / 2] ([triangle]).  The number of elements written is
    between the length of the input, when every entry starts a batch, and
    the triangle of it, when all the entries are in one batch. *)

From stdpp Require Import prelude gmap.
From S2P Require Import Prelude JsValue Stream Control BatchBy Simulation Protocol GroupSpec.
From S2P Require Import SamePattern Store Abstraction Heap.

(** [1 + 2 + ... + k]. *)
Fixpoint triangle (k : nat) : nat :=
  match k with
  | 0 => 0
  | S k' => S k' + triangle k'
  end.

Section copies.
Context {E P TEntry : Type} `{Nullable P}.
Implicit Types cfg : pattern_config E P TEntry.
Implicit Types h : heap P TEntry.
Implicit Types b : TBatchSamePattern P TEntry.

(** The elements an object holds: those of an array. *)
Definition array_size (c : cell P TEntry) : nat :=
  match c with
  | CArray elements => length elements
  | CBatch _ _ => 0
  end.

(** The elements of all the arrays of a store. *)
Definition elements_stored h : nat :=
  map_fold (fun _ c n => array_size c + n) 0 h.

(** The elements the policy writes for the items of an input, from a
    batch: for each entry, those of the array of the batch it leaves
    (lines 55 and 66), up to the first failure or the end. *)
Fixpoint copies cfg b (its : list (item E TEntry)) : nat :=
  match its with
  | Val entry :: its' =>
      match samePattern_forEachEntry cfg b entry with
      | Ok s => length (items (batch_to_update s)) + copies cfg (batch_to_update s) its'
      | Throw _ => 0
      end
  | _ => 0
  end.

(** The elements written for a list of batches. *)
Definition copies_of (bs : list (TBatchSamePattern P TEntry)) : nat :=
  sum_list ((fun b => triangle (length (items b))) <$> bs).

End copies.

(** ** Arithmetic of [triangle] *)

Lemma triangle_double k : 2 * triangle k = k * (k + 1).
Proof. induction k as [|k IH]; cbn [triangle]; lia. Qed.

Lemma triangle_ge k : k <= triangle k.
Proof. destruct k; cbn [triangle]; lia. Qed.

Lemma triangle_add k n : triangle k + triangle n <= triangle (k + n).
Proof.
  pose proof (triangle_double k). pose proof (triangle_double n).
  pose proof (triangle_double (k + n)). nia.
Qed.

(** ** What each operation adds to the store *)

Section operations.
Context {E P TEntry : Type} `{Nullable P}.
Context (type_error : E).
Implicit Types cfg : pattern_config E P TEntry.
Implicit Types h : heap P TEntry.
Implicit Types b : TBatchSamePattern P TEntry.

Lemma elements_stored_insert h l (c : cell P TEntry) :
  h !! l = None -> elements_stored (<[l := c]> h) = array_size c + elements_stored h.
Proof. intros Hl. unfold elements_stored. rewrite map_fold_insert_L; [done| |done]. lia. Qed.

(** Count the objects of the literals evaluated so far. *)
Ltac count_stored :=
  repeat (rewrite elements_stored_insert by (rewrite ?lookup_insert_None; by split_and?));
  cbn [array_size length]; rewrite ?length_app; cbn [length]; try lia.

Lemma h_beginWith_copies h :
  elements_stored (h_beginWith (E := E) h).2 = elements_stored h.
Proof. unfold h_beginWith. unfold_eff. repeat alloc_step. count_stored. Qed.

Lemma h_end_copies h l : elements_stored (h_end type_error l h).2 = elements_stored h.
Proof.
  unfold h_end, eff_try, get_accumulate_pattern, get_items. unfold_eff.
  destruct (h !! l) as [[p a|]|]; cbn; try done. alloc_step. count_stored.
Qed.

(** [forEachEntry] writes the elements of the array of the batch it
    leaves, and nothing when it throws. *)
Lemma h_forEachEntry_copies cfg h l b x :
  read_batch h l = Some b ->
  elements_stored (h_forEachEntry type_error cfg l x h).2 =
    elements_stored h +
    match samePattern_forEachEntry cfg b x with
    | Ok s => length (items (batch_to_update s))
    | Throw _ => 0
    end.
Proof.
  intros (a & Hl & Ha)%read_batch_Some.
  unfold h_forEachEntry, samePattern_forEachEntry, eff_try,
    get_accumulate_pattern, get_items, spread.
  unfold_eff. rewrite Hl. cbn.
  destruct (extractPattern cfg x (accumulate_pattern b)) as [cp|e]; cbn; [|lia].
  destruct (joins cfg (accumulate_pattern b) cp) as [[|]|e]; cbn; [| |lia].
  - rewrite Ha. repeat alloc_step. count_stored.
  - repeat alloc_step. count_stored.
Qed.

(** The loop of the transform adds to the store what [copies] counts. *)
Lemma loop_copies cfg l b its h (o : world E loc) :
  read_batch h l = Some b ->
  elements_stored
    (loop_of (e_scan_callback (h_samePattern type_error cfg))
       (e_map_callback (h_samePattern type_error cfg)) e_done_callback l its (h, o)).1 =
  elements_stored h + copies cfg b its.
Proof.
  revert l b h o. induction its as [|[x|e|] its IH]; intros l b h o Hl;
    cbn [loop_of copies].
  - cbn. lia.
  - rewrite e_scan_callback_eq. cbn [e_forEachEntry h_samePattern].
    pose proof (h_forEachEntry_copies cfg h l b x Hl) as Hcost.
    destruct (h_forEachEntry_spec type_error cfg h l b x Hl) as [_ Hs].
    destruct (h_forEachEntry type_error cfg l x h) as [[s1|e1] h'],
      (samePattern_forEachEntry cfg b x) as [s2|e2]; cbn in Hcost, Hs; try done.
    destruct Hs as [[Hl' _] _]. rewrite (IH _ _ _ _ Hl'). lia.
  - rewrite pair_sink_eq. cbn. lia.
  - rewrite e_map_callback_eq. cbn [e_end h_samePattern].
    pose proof (h_end_copies h l) as Hcost.
    destruct (h_end type_error l h) as [[s1|e1] h']; cbn in Hcost;
      rewrite ?e_done_callback_eq, ?pair_sink_eq; cbn; lia.
Qed.

Lemma e_batchBy_copies cfg its h :
  elements_stored (e_batchBy (h_samePattern type_error cfg) its h).2 =
    elements_stored h + copies cfg (Batch null []) its.
Proof.
  unfold e_batchBy. cbn [e_beginWith h_samePattern].
  pose proof (h_beginWith_copies h) as Hcost.
  destruct (h_beginWith_spec (E := E) h) as [_ Hb].
  destruct (h_beginWith h) as [[l|e] h1]; cbn in Hcost, Hb; [|done].
  destruct Hb as [Hl _]. cbn [snd].
  change (e_chain ?c l) with
    (chain_of (e_scan_callback c) (e_map_callback c) e_done_callback l).
  by rewrite run_chain_of, (loop_copies cfg l (Batch null [])), Hcost.
Qed.

End operations.

(** ** The count, batch by batch *)

Section closed_form.
Context {E P TEntry : Type} `{Nullable P}.
Context (type_error : E).
Context (extract : TEntry -> P -> P) (eqv : P -> P -> bool).
Implicit Types xs : list TEntry.
Implicit Types h : heap P TEntry.

Local Abbreviation cfg := (pure_config (E := E) extract eqv).

Lemma copies_cons b x xs :
  copies cfg b (Highland.of_array (x :: xs)) =
    match samePattern_forEachEntry cfg b x with
    | Ok s => length (items (batch_to_update s)) +
              copies cfg (batch_to_update s) (Highland.of_array xs)
    | Throw _ => 0
    end.
Proof. done. Qed.

(** From a run under construction: with what was written for it so far,
    what is written for the rest of the input is the sum over the runs. *)
Lemma copies_runs_from (cur : list (TEntry * P)) y xs :
  triangle (length (cur ++ [y])) + copies cfg (batch_of (cur ++ [y])) (Highland.of_array xs) =
    sum_list (triangle ∘ length <$> runs_from (cut_after eqv) cur y (annotate extract y.2 xs)).
Proof.
  revert cur y. induction xs as [|x xs IH]; intros cur y.
  { cbn. lia. }
  rewrite copies_cons, samePattern_forEachEntry_pure, batch_of_snoc.
  cbn [annotate runs_from accumulate_pattern items].
  set (p := extract x y.2). unfold cut_after at 1. cbn [snd].
  destruct (is_null y.2 || eqv y.2 p); cbn [negb batch_to_update items].
  - pose proof (IH (cur ++ [y]) (x, p)) as IH'. cbn [snd] in IH'. rewrite <- IH'.
    rewrite batch_of_snoc, fmap_app. cbn [fmap list_fmap fst snd].
    rewrite !length_app, !length_fmap. cbn [length]. rewrite !Nat.add_1_r.
    cbn [triangle]. lia.
  - rewrite fmap_cons. cbn [sum_list compose].
    pose proof (IH [] (x, p)) as IH'. cbn [snd] in IH'. rewrite <- IH'.
    rewrite batch_of_snoc. cbn. lia.
Qed.

(** With callbacks that do not throw, the elements written for an array
    are those of the triangles of its batches. *)
Lemma copies_grouped xs :
  copies cfg (Batch null []) (Highland.of_array xs) = copies_of (grouped extract eqv xs).
Proof.
  destruct xs as [|x xs]; [done|].
  rewrite copies_cons, samePattern_forEachEntry_pure. cbn [accumulate_pattern items].
  rewrite is_null_null. cbn [orb batch_to_update items app length].
  unfold copies_of, grouped. rewrite <- list_fmap_compose.
  rewrite (list_fmap_ext _ (triangle ∘ length) (runs _ _))
    by (intros i r _; cbn; by rewrite length_fmap).
  cbn [annotate]. rewrite <- runs_from_nil.
  pose proof (copies_runs_from [] (x, extract x null) xs) as Hruns.
  cbn [snd] in Hruns. rewrite <- Hruns. by rewrite batch_of_snoc.
Qed.

(** Between the length of the input and its triangle. *)
Lemma copies_of_bounds (bs : list (TBatchSamePattern P TEntry)) :
  length (concat (items <$> bs)) <= copies_of bs <= triangle (length (concat (items <$> bs))).
Proof.
  unfold copies_of. induction bs as [|b bs IH]; [done|]. cbn. rewrite length_app.
  pose proof (triangle_ge (length (items b))).
  pose proof (triangle_add (length (items b)) (length (concat (items <$> bs)))). lia.
Qed.

(** C28.  What the transform writes to the store.  With callbacks that do
    not throw, from every store and on every array, the arrays the policy
    creates hold, all together, [k (k + 1) / 2] elements for each batch of
    [k] entries that is written: every entry that joins a batch is copied
    with all the entries of the batch before it (line 55).  The total is
    at least the number of entries and at most its triangle, which it
    reaches when all the entries are in one batch. *)
Theorem h_batchBy_copies xs h :
  elements_stored
    (e_batchBy (h_samePattern type_error (pure_config extract eqv))
       (Highland.of_array xs) h).2 =
    elements_stored h + copies_of (grouped extract eqv xs) /\
  length xs <= copies_of (grouped extract eqv xs) <= triangle (length xs).
Proof.
  split; [by rewrite e_batchBy_copies, copies_grouped|].
  pose proof (copies_of_bounds (grouped extract eqv xs)) as Hb.
  by rewrite concat_grouped in Hb.
Qed.

End closed_form.
