(* ===== verification/Scenarios.v ===== *)
(** * Scenarios: the transform on concrete inputs

    The scenarios of the specification (section 8) and of the unit test
    ([highland-batch-by.spec.ts]), evaluated on the model, and the general
    theorems of [BatchBy], [Partition], [Machine] and [Protocol] applied to
    them.  Thrown values are strings here. *)

From stdpp Require Import prelude strings gmap.
From S2P Require Import Prelude JsValue Stream Control BatchBy Partition Machine Protocol.
From S2P Require Import GroupSpec SamePattern SameProperty.

(** A policy whose [extractPattern] throws on an entry without the
    property, to have a control that fails in the middle of an input. *)
Definition checked_config (propName : string) : pattern_config string value object :=
  PatternConfig
    (fun x _ =>
       match x !! propName with
       | Some v => Ok v
       | None => Throw "missing property"
       end)
    (fun p1 p2 => Ok (strict_eq p1 p2)).

(** Three orders, then an entry without [order_id], then one more order. *)
Definition broken_input : list object :=
  [order "a" 1; order "b" 2; {[ "sku" := VString "c" ]}; order "d" 3].

(** The failing run: the first order is written, the second is in the
    batch when the third entry makes [extractPattern] throw. *)
Lemma broken_run :
  batchBy (samePattern (checked_config "order_id")) (Highland.of_array broken_input) =
    Ok (World [CallWrite (Batch (VInt 1) [order "a" 1])] (Some "missing property")).
Proof. evaluate. Qed.

(** The orders of the unit test, on a stream that has not ended. *)
Lemma pending_run :
  batchBy (sameProperty (E := string) "order_id") (Highland.pending scenario_A) =
    Ok (World [CallWrite (Batch (VInt 1) [order "a" 1; order "b" 1])] None).
Proof. evaluate. Qed.

(** ** The theorems of [BatchBy] on the scenarios *)

Lemma batchBy_meets_contract_witness :
  let control := sameProperty (E := string) "order_id" in
  failure (spec_run control scenario_A) = None /\
  Forall (fun b => truthy b = true) (emitted (spec_run control scenario_A)) /\
  batchBy control (Highland.of_array scenario_A) =
    Ok (World ((CallWrite <$> emitted (spec_run control scenario_A)) ++ [CallEnd]) None).
Proof.
  assert (failure (spec_run (sameProperty (E := string) "order_id") scenario_A) = None)
    as Hf by (vm_compute; reflexivity).
  assert (Forall (fun b => truthy b = true)
            (emitted (spec_run (sameProperty (E := string) "order_id") scenario_A)))
    as Ht by (apply Forall_forall; intros; reflexivity).
  split_and!; [exact Hf|exact Ht|].
  exact (batchBy_meets_contract _ scenario_A Hf Ht).
Defined.

Lemma batchBy_failure_stops_witness :
  let control := samePattern (checked_config "order_id") in
  beginWith control tt = Ok (Batch VNull []) /\
  failure (spec_run control broken_input) = Some "missing property" /\
  batchBy control (Highland.of_array broken_input) =
    Ok (World (CallWrite <$> emitted (spec_run control broken_input))
          (Some "missing property")).
Proof.
  assert (failure (spec_run (samePattern (checked_config "order_id")) broken_input)
            = Some "missing property") as Hf by (vm_compute; reflexivity).
  assert (beginWith (samePattern (checked_config "order_id")) tt = Ok (Batch VNull []))
    as Hb by reflexivity.
  split_and!; [exact Hb|exact Hf|].
  apply (batchBy_failure_stops _ broken_input _ _ Hb Hf).
  apply Forall_forall; intros; reflexivity.
Defined.

Lemma batchBy_failure_unsettled_witness :
  let control := samePattern (checked_config "order_id") in
  res_map collect_to_promise (batchBy control (Highland.of_array broken_input)) = Ok Unsettled.
Proof.
  apply (batchBy_failure_unsettled _ broken_input (Batch VNull []) "missing property");
    [reflexivity|vm_compute; reflexivity].
Defined.

Lemma batchBy_calls_wellformed_witness :
  let w := World [CallWrite (Batch (VInt 1) [order "a" 1])] (Some "missing property") in
  batchBy (samePattern (checked_config "order_id")) (Highland.of_array broken_input) = Ok w /\
  calls w = (CallWrite <$> written w) ++ (if ended w then [CallEnd] else []) /\
  (ended w = true -> escaped w = None).
Proof.
  split; [exact broken_run|]. exact (batchBy_calls_wellformed _ _ _ broken_run).
Defined.

(** A control that pushes every entry as a batch of its own, to have
    pushed batches that are falsy values. *)
Definition echo : Control string unit value value :=
  {| beginWith _ := Ok tt;
     forEachEntry _ x := Ok (StepResult tt (Some x));
     end_ _ := Ok (EndResult None) |}.

Lemma batchBy_writes_truthy_witness :
  let xs := [VInt 1; VInt 0; VInt 2] in
  let w := World [CallWrite (VInt 1); CallWrite (VInt 2); CallEnd] None in
  batchBy echo (Highland.of_array xs) = Ok w /\
  emitted (spec_run echo xs) = xs /\
  written w = filter (fun b => truthy b) (emitted (spec_run echo xs)).
Proof.
  split_and!; [reflexivity..|].
  exact (batchBy_writes_truthy echo [VInt 1; VInt 0; VInt 2] _ eq_refl).
Defined.

Lemma batchBy_at_most_one_per_item_witness :
  let w := World [CallWrite (Batch (VInt 1) [order "a" 1])] (Some "missing property") in
  batchBy (samePattern (checked_config "order_id")) (Highland.of_array broken_input) = Ok w /\
  length (written w) <= length (Highland.of_array (E := string) broken_input).
Proof.
  split; [exact broken_run|]. exact (batchBy_at_most_one_per_item _ _ _ broken_run).
Defined.

Lemma batchBy_pending_witness :
  let control := sameProperty (E := string) "order_id" in
  let w := World [CallWrite (Batch (VInt 1) [order "a" 1; order "b" 1])] None in
  batchBy control (Highland.pending scenario_A) = Ok w /\
  ended w = false /\
  exists init, beginWith control tt = Ok init /\
    written w = (fold_entries control init scenario_A).1.
Proof.
  split; [exact pending_run|]. exact (batchBy_pending _ _ _ pending_run).
Defined.

Lemma batchBy_incremental_witness :
  let control := sameProperty (E := string) "order_id" in
  let w := World [CallWrite (Batch (VInt 1) [order "a" 1; order "b" 1])] None in
  let w' := World [CallWrite (Batch (VInt 1) [order "a" 1; order "b" 1]);
                   CallWrite (Batch (VInt 2) [order "c" 2; order "d" 2]);
                   CallEnd] None in
  batchBy control (Highland.pending scenario_A) = Ok w /\
  batchBy control (Highland.pending scenario_A ++ [Val (order "d" 2); Nil]) = Ok w' /\
  written w `prefix_of` written w'.
Proof.
  assert (batchBy (sameProperty (E := string) "order_id")
            (Highland.pending scenario_A ++ [Val (order "d" 2); Nil])
    = Ok (World [CallWrite (Batch (VInt 1) [order "a" 1; order "b" 1]);
                 CallWrite (Batch (VInt 2) [order "c" 2; order "d" 2]);
                 CallEnd] None))
    as Hrun' by (vm_compute; reflexivity).
  split_and!; [exact pending_run|exact Hrun'|].
  exact (batchBy_incremental _ _ _ _ _ pending_run Hrun').
Defined.

Lemma batchBy_source_error_witness :
  let control := sameProperty (E := string) "order_id" in
  beginWith control tt = Ok (Batch VNull []) /\
  is_ok (fold_entries control (Batch VNull []) scenario_A).2 = true /\
  batchBy control (Highland.pending scenario_A ++ Err "boom" :: [Val (order "d" 3); Nil]) =
    Ok (World (CallWrite <$> (fold_entries control (Batch VNull []) scenario_A).1)
          (Some "boom")).
Proof.
  assert (beginWith (sameProperty (E := string) "order_id") tt = Ok (Batch VNull []))
    as Hb by reflexivity.
  assert (is_ok (fold_entries (sameProperty (E := string) "order_id")
                   (Batch VNull []) scenario_A).2 = true)
    as Hf by (vm_compute; reflexivity).
  split_and!; [exact Hb|exact Hf|].
  exact (batchBy_source_error _ scenario_A "boom" _ _ Hb Hf).
Defined.

(** ** The theorems of [Partition] on the failing run *)

Lemma batchBy_partition_witness :
  let control := samePattern (checked_config "order_id") in
  let w := World [CallWrite (Batch (VInt 1) [order "a" 1])] (Some "missing property") in
  (carried control (written w) `prefix_of` broken_input) /\
  (ended w = true -> carried control (written w) = broken_input).
Proof.
  exact (batchBy_partition (samePattern (checked_config "order_id")) broken_input _ broken_run).
Defined.

Lemma batchBy_partition_pending_witness :
  let control := sameProperty (E := string) "order_id" in
  let w : world string _ :=
    World [CallWrite (Batch (VInt 1) [order "a" 1; order "b" 1])] None in
  carried control (written w) `prefix_of` scenario_A.
Proof.
  exact (batchBy_partition_pending (sameProperty "order_id") scenario_A _ pending_run).
Defined.

(** ** The theorems of [Machine] on the scenarios *)

(** The machine over one entry and the end of the input. *)
Lemma echo_steps :
  steps echo (Config (Folding tt) fresh) [Val (VInt 1); Nil]
    (Config Finished (World [CallWrite (VInt 1); CallEnd] None)).
Proof.
  econstructor; [by apply next_step|]. econstructor; [by apply next_step|]. constructor.
Qed.

Lemma batchBy_runs_machine_witness :
  let control := samePattern (checked_config "order_id") in
  let w := World [CallWrite (Batch (VInt 1) [order "a" 1])] (Some "missing property") in
  exists init consumed rest c,
    beginWith control tt = Ok init /\ Highland.of_array broken_input = consumed ++ rest /\
    steps control (Config (Folding init) fresh) consumed c /\ output c = w /\
    (rest = [] \/ halted c = true).
Proof. exact (batchBy_runs_machine _ _ _ broken_run). Defined.

Lemma machine_runs_batchBy_witness :
  batchBy echo [Val (VInt 1); Nil] = Ok (World [CallWrite (VInt 1); CallEnd] None).
Proof. exact (machine_runs_batchBy echo tt _ _ eq_refl echo_steps). Defined.

Lemma reachable_consistent_witness :
  consistent (Config (Finished (E := string) (TBatch := unit))
                (World [CallWrite (VInt 1); CallEnd] None)).
Proof.
  apply (reachable_consistent echo). exists tt, [Val (VInt 1); Nil].
  split; [reflexivity|exact echo_steps].
Defined.

Lemma step_deterministic_witness :
  let c := Config (Folding tt) (fresh : world string value) in
  let c' : config string unit value :=
    Config (Folding tt) (World [CallWrite (VInt 1)] None) in
  c' = c' /\ halted c = false.
Proof.
  refine (step_deterministic echo _ (Val (VInt 1)) _ _ _ _); by apply next_step.
Defined.

Lemma step_progress_witness :
  exists c', step echo (Config (Folding tt) fresh) (Err "boom") c'.
Proof. exact (step_progress echo (Config (Folding tt) fresh) (Err "boom") eq_refl). Defined.

(** ** The theorems of [Protocol] on the scenarios *)

Lemma traced_complete_witness :
  let log := (e_batchBy (traced echo) (Highland.of_array [VInt 1; VInt 0]) []).2 in
  head log = Some CallBeginWith /\
  omap entry_of log = [VInt 1; VInt 0] /\
  (exists last_batch, last log = Some (CallEnd_ last_batch)) /\
  length log = 2 + 2.
Proof. exact (traced_complete echo [VInt 1; VInt 0] eq_refl). Defined.

Lemma traced_failure_witness :
  let control := samePattern (checked_config "order_id") in
  let log := (e_batchBy (traced control) (Highland.of_array broken_input) []).2 in
  (omap entry_of log `prefix_of` broken_input) /\
  forallb (fun c => negb (is_end c)) log = true.
Proof.
  apply (traced_failure _ broken_input (Batch VNull []) "missing property");
    [reflexivity|vm_compute; reflexivity].
Defined.

(** A policy with a state of its own: it counts the entries in a counter
    outside the batch and pushes the batch at every second entry. *)
Definition pairs : EControl string nat (list value) value (list value) :=
  {| e_beginWith := eff_ret (Ok []);
     e_forEachEntry batch entry := fun n =>
       if decide (n = 1) then (Ok (StepResult [] (Some (batch ++ [entry]))), 0)
       else (Ok (StepResult (batch ++ [entry]) None), S n);
     e_end last_batch := eff_ret (Ok (EndResult (Some last_batch))) |}.

(** Three entries from the counter 0: a pair, then the rest; the counter
    is left at 1.  From the counter 1 the first batch has one entry, and
    the last batch, empty, is written too: an array is truthy. *)
Example pairs_run :
  e_batchBy pairs (Highland.of_array [VInt 1; VInt 2; VInt 3]) 0 =
    (Ok (World [CallWrite [VInt 1; VInt 2]; CallWrite [VInt 3]; CallEnd] None), 1) /\
  e_batchBy pairs (Highland.of_array [VInt 1; VInt 2; VInt 3]) 1 =
    (Ok (World [CallWrite [VInt 1]; CallWrite [VInt 2; VInt 3]; CallWrite [];
                CallEnd] None), 0).
Proof. split; reflexivity. Qed.
