(* ===== verification/PolicyScenarios.v ===== *)
(** * PolicyScenarios: the grouping policy on concrete inputs

    The theorems of [SamePattern] and [SameProperty] applied to the orders
    of the unit test and to inputs that show what the accumulated pattern
    of a batch is when [same] is coarser than equality. *)

From stdpp Require Import prelude strings gmap.
From S2P Require Import Prelude JsValue Numbers Stream Control BatchBy GroupSpec SamePattern SameProperty.

(** Four orders: ids 1, 1, 2, 3. *)
Definition four_orders : list object :=
  [order "a" 1; order "b" 1; order "c" 2; order "d" 3].

Lemma four_orders_plain : Forall (fun x => plain (key_of "order_id" x)) four_orders.
Proof. repeat constructor; discriminate. Qed.

Lemma four_orders_run :
  batchByProp (E := string) "order_id" (Highland.of_array four_orders) =
    Ok (World [CallWrite (Batch (VInt 1) [order "a" 1; order "b" 1]);
               CallWrite (Batch (VInt 2) [order "c" 2]);
               CallWrite (Batch (VInt 3) [order "d" 3]);
               CallEnd] None).
Proof. evaluate. Qed.

(** Numbers grouped by parity: [same] is an equivalence that is not
    equality. *)
Definition same_parity (p q : option Z) : bool :=
  bool_decide (Z.odd <$> p = Z.odd <$> q).

#[global] Instance same_parity_equiv : PatternEquiv (fun p : option Z => is_Some p) same_parity.
Proof.
  split; unfold same_parity.
  - by intros p [z ->].
  - intros p _. by apply bool_decide_eq_true.
  - intros p q _ _ Hpq%bool_decide_eq_true. by apply bool_decide_eq_true.
  - intros p q r _ _ _ Hpq%bool_decide_eq_true Hqr%bool_decide_eq_true.
    apply bool_decide_eq_true. congruence.
Qed.

Lemma parity_run :
  batchBy (samePattern (key_config (E := string) Some same_parity))
    (Highland.of_array [1; 3; 2]%Z) =
    Ok (World [CallWrite (Batch (Some 3%Z) [1; 3]%Z); CallWrite (Batch (Some 2%Z) [2%Z]);
               CallEnd] None).
Proof. evaluate. Qed.

(** ** The theorems of [SamePattern] on these inputs *)

Lemma samePattern_batches_uniform_witness :
  Forall (fun b => items b <> [] /\
            Forall (fun x => same_parity (Some x) (accumulate_pattern b) = true) (items b))
    [Batch (Some 3%Z) [1; 3]%Z; Batch (Some 2%Z) [2%Z]].
Proof.
  refine (samePattern_batches_uniform (E := string) Some same_parity
            (fun p => is_Some p) [1; 3; 2]%Z _ _ _ parity_run); [done|].
  repeat constructor; by eexists.
Defined.

Lemma samePattern_batches_maximal_witness :
  same_parity (Some 3%Z) (Some 2%Z) = false.
Proof.
  refine (samePattern_batches_maximal (E := string) Some same_parity
            (fun p => is_Some p) [1; 3; 2]%Z _ 0
            (Batch (Some 3%Z) [1; 3]%Z) (Batch (Some 2%Z) [2%Z]) _ _ parity_run
            eq_refl eq_refl); [done|].
  repeat constructor; by eexists.
Defined.

Lemma samePattern_pattern_is_last_witness :
  Forall (fun b : TBatchSamePattern (option Z) Z =>
            Some <$> last (items b) = Some (accumulate_pattern b))
    [Batch (Some 3%Z) [1; 3]%Z; Batch (Some 2%Z) [2%Z]].
Proof.
  exact (samePattern_pattern_is_last (E := string) Some same_parity [1; 3; 2]%Z _
           ltac:(done) parity_run).
Defined.

Lemma samePattern_unique_grouping_witness :
  items <$> [Batch (Some 3%Z) [1; 3]%Z; Batch (Some 2%Z) [2%Z]] = [[1; 3]; [2]]%Z.
Proof.
  refine (samePattern_unique_grouping (E := string) Some same_parity [1; 3; 2]%Z _ _
            _ parity_run _); [done|].
  split_and!; [reflexivity|by repeat constructor..|reflexivity].
Defined.

(** ** The theorems of [SameProperty] on the orders *)

Lemma batchByProp_runs_witness :
  batchByProp (E := string) "order_id" (Highland.of_array four_orders) =
    Ok (World ((CallWrite <$> runs_by_property "order_id" four_orders) ++ [CallEnd]) None).
Proof.
  apply (batchByProp_runs (E := string) "order_id" four_orders); [done|].
  exact (Forall_impl _ _ _ four_orders_plain (fun x Hx => proj1 Hx)).
Defined.

Lemma batchByProp_single_batch_witness :
  batchByProp (E := string) "order_id" (Highland.of_array [order "a" 7; order "b" 7]) =
    Ok (World [CallWrite (Batch (VInt 7) [order "a" 7; order "b" 7]); CallEnd] None).
Proof.
  refine (batchByProp_single_batch (E := string) "order_id" [order "a" 7; order "b" 7]
            (VInt 7) _ _ _); [done..|].
  by repeat constructor.
Defined.

Lemma batchByProp_distinct_witness :
  let xs := [order "a" 1; order "b" 2; order "c" 3] in
  batchByProp (E := string) "order_id" (Highland.of_array xs) =
    Ok (World ((CallWrite <$> ((fun x => Batch (key_of "order_id" x) [x]) <$> xs))
               ++ [CallEnd]) None).
Proof.
  refine (batchByProp_distinct (E := string) "order_id"
            [order "a" 1; order "b" 2; order "c" 3] _ _ _); [done| |].
  - repeat constructor; discriminate.
  - intros [|[|[|i]]] [|[|[|j]]] x y Hij Hx Hy; cbn in Hx, Hy; simplify_eq;
      try done; vm_compute; reflexivity.
Defined.

Lemma batchByProp_idempotent_witness :
  let w := World [CallWrite (Batch (VInt 1) [order "a" 1; order "b" 1]);
                  CallWrite (Batch (VInt 2) [order "c" 2]);
                  CallWrite (Batch (VInt 3) [order "d" 3]);
                  CallEnd] None in
  batchByProp (E := string) "order_id" (Highland.of_array (concat (items <$> written w))) = Ok w.
Proof.
  exact (batchByProp_idempotent (E := string) "order_id" four_orders _ four_orders_run).
Defined.

(** ** Integer keys *)

(** The integer an order has for [order_id]. *)
Definition id_of (x : object) : Z :=
  match x !! "order_id" with
  | Some (VNumber f) => default 0%Z (to_Z f)
  | _ => 0%Z
  end.


Lemma batchByProp_integer_keys_witness :
  batchByProp (E := string) "order_id" (Highland.of_array four_orders) =
    Ok (World ((CallWrite <$> (batch_of_run (key_of "order_id") <$>
                 runs (fun a b => bool_decide (id_of a <> id_of b)) four_orders))
               ++ [CallEnd]) None).
Proof.
  apply (batchByProp_integer_keys (E := string) "order_id" id_of four_orders); [done|].
  repeat apply Forall_cons_2; try apply Forall_nil_2; split; vm_compute; reflexivity.
Defined.
