(* ===== verification/ConsumerScenarios.v ===== *)
(** * ConsumerScenarios: the output stream and its readers on concrete inputs

    The theorems of [Consumer] applied to the inputs of [Scenarios]: the
    orders of the unit test read by [each_log] and by a second transform,
    and the input on which the policy fails. *)

From stdpp Require Import prelude strings gmap relations.
From S2P Require Import Prelude JsValue Stream Control BatchBy Machine Consumer.
From S2P Require Import GroupSpec SamePattern SameProperty Scenarios.

Lemma scenario_A_run_string :
  batchByProp (E := string) "order_id" (Highland.of_array scenario_A) =
    Ok (World [CallWrite (Batch (VInt 1) [order "a" 1; order "b" 1]);
               CallWrite (Batch (VInt 2) [order "c" 2]);
               CallEnd] None).
Proof. evaluate. Qed.

(** ** The theorems of [Consumer] *)

(** The failing run, read by [each_log]. *)
Definition broken_system
    : system string (TBatchSamePattern value object) object
        (TBatchSamePattern value object) (list (TBatchSamePattern value object)) :=
  sys_init (Batch VNull []) (Highland.of_array broken_input) [].


Lemma sys_reader_prefix_witness :
  let control := samePattern (checked_config "order_id") in
  let w := World [CallWrite (Batch (VInt 1) [order "a" 1])] (Some "missing property") in
  let sys := sys_run control each_log broken_system in
  received sys <= length (calls w) /\
  reader sys = delivered each_log (take (received sys) (calls w)) [].
Proof.
  apply (sys_reader_prefix (samePattern (checked_config "order_id")) each_log
           (Batch VNull []) (Highland.of_array broken_input) []);
    [reflexivity|exact broken_run|].
  apply sys_run_reaches. cbn. lia.
Defined.


Lemma collect_refines_promise_witness :
  let control := samePattern (checked_config "order_id") in
  let w := World [CallWrite (Batch (VInt 1) [order "a" 1])] (Some "missing property") in
  let final :=
    sys_run control collect
      (sys_init (Batch VNull []) (Highland.of_array broken_input) ([], Unsettled)) in
  reader final = (written w, collect_to_promise w).
Proof.
  apply (collect_refines_promise (samePattern (checked_config "order_id"))
           (Batch VNull []) (Highland.of_array broken_input));
    [reflexivity|exact broken_run| |apply sys_run_nf].
  apply sys_run_reaches. cbn. lia.
Defined.

Lemma doc_example_prints_witness :
  reader (sys_run (sameProperty "order_id") each_log doc_example) =
    [Batch (VInt 1) [order "a" 1; order "b" 1]; Batch (VInt 2) [order "c" 2]].
Proof.
  apply doc_example_prints; [|apply sys_run_nf].
  apply sys_run_reaches. cbn. lia.
Defined.

(** ** Two transforms in a row *)

(** A second policy, over the batches of the first: consecutive batches
    with the same number of items are put together. *)
Definition by_size
    : Control string (TBatchSamePattern value (TBatchSamePattern value object))
        (TBatchSamePattern value object)
        (TBatchSamePattern value (TBatchSamePattern value object)) :=
  samePattern
    (pure_config (fun batch _ => VInt (Z.of_nat (length (items batch)))) strict_eq).

