(* ===== verification/InvariantScenarios.v ===== *)
(** * InvariantScenarios: invariants, types and callbacks on concrete inputs

    The theorems of [Invariant], [Simulation], [Explicit] and [Typing] and
    the sentinel invariant of [SamePattern] applied to the orders of the unit test and to the input
    on which the policy fails; the policy of [Callbacks] run with a
    callback that answers differently at every call. *)

From stdpp Require Import prelude strings gmap.
From S2P Require Import Prelude JsValue Stream Control BatchBy Invariant Protocol.
From S2P Require Import Machine Simulation GroupSpec SamePattern Callbacks SameProperty Explicit Typing.
From S2P Require Import Scenarios.
From S2P Require Import ConsumerScenarios.

(** The type of the orders: [{ sku: string; order_id: number }]. *)
Definition order_ty : object_ty := {[ "sku" := TyString; "order_id" := TyNumber ]}.

Lemma scenario_A_typed :
  entries_in (E := string) (entry_has_type order_ty) (Highland.of_array scenario_A).
Proof.
  repeat apply Forall_cons_2; try exact I; try apply Forall_nil_2;
    apply (bool_decide_unpack _); vm_compute; exact I.
Qed.

(** ** The theorems of [Invariant], [SamePattern] and [Typing] *)

Lemma batchByProp_well_typed_witness :
  Forall (batch_has_type TyNumber order_ty)
    [Batch (VInt 1) [order "a" 1; order "b" 1]; Batch (VInt 2) [order "c" 2]].
Proof.
  exact (batchByProp_well_typed (E := string) "order_id" TyNumber order_ty _ _
           eq_refl scenario_A_typed scenario_A_run_string).
Defined.


(** The entries of the failing input have a pattern other than [null], or
    none at all. *)
Lemma broken_input_good :
  entries_in (E := string)
    (extracts_good (checked_config "order_id") (fun p : value => p <> VNull))
    (Highland.of_array broken_input).
Proof.
  repeat apply Forall_cons_2; try exact I; try apply Forall_nil_2;
    intros acc p; vm_compute; by intros [= <-].
Qed.

Lemma samePattern_sentinel_witness :
  Forall (initial_or_filled (fun p : value => p <> VNull))
    [Batch (VInt 1) [order "a" 1]].
Proof.
  refine (samePattern_sentinel (checked_config "order_id") (fun p => p <> VNull)
            (Highland.of_array broken_input) _ _ broken_input_good broken_run).
  intros p Hp. by apply is_null_false.
Defined.

(** ** The theorems of [Simulation] and [Explicit] *)

Lemma broken_input_non_null :
  entries_in (E := string) (extracts_non_null (checked_config "order_id"))
    (Highland.of_array broken_input).
Proof.
  repeat apply Forall_cons_2; try exact I; try apply Forall_nil_2;
    intros acc p; vm_compute; by intros [= <-].
Qed.

Lemma scenario_A_non_null :
  entries_in (E := string) (extracts_non_null (property_config (E := string) "order_id"))
    (Highland.of_array scenario_A).
Proof.
  repeat apply Forall_cons_2; try exact I; try apply Forall_nil_2;
    intros acc p; vm_compute; by intros [= <-].
Qed.


Lemma samePattern_refines_explicit_witness :
  batchBy (samePattern (property_config (E := string) "order_id"))
    (Highland.of_array scenario_A) =
  batchBy (explicit (property_config "order_id")) (Highland.of_array scenario_A).
Proof.
  exact (samePattern_refines_explicit (property_config (E := string) "order_id") _ scenario_A_non_null).
Defined.

(** ** A callback with a state *)

(** An [extractPattern] that numbers its calls: the pattern of an entry is
    the number of entries seen before it. *)
Definition counting : e_pattern_config string nat value object :=
  EPatternConfig
    (fun _ _ n => (Ok (VInt (Z.of_nat n)), S n))
    (fun a b => eff_ret (Ok (strict_eq a b))).

(** No two entries have the same pattern then: every entry is a batch of
    its own, whatever its [order_id], and the callback has been called
    three times. *)
Example counting_splits :
  e_batchBy (e_samePattern counting) (Highland.of_array scenario_A) 0 =
    (Ok (World [CallWrite (Batch (VInt 0) [order "a" 1]);
                CallWrite (Batch (VInt 1) [order "b" 1]);
                CallWrite (Batch (VInt 2) [order "c" 2]);
                CallEnd] None), 3).
Proof. evaluate. Qed.
