(* ===== verification/HeapScenarios.v ===== *)
(** * HeapScenarios: the policy on objects, on the input of the unit test

    The theorems of [Abstraction], [Heap] and [OpenWorld] applied to the
    three orders of the unit test, from the empty store; the references
    the transform writes and the store it leaves; and code that overwrites
    every object it can reach ([scramble]), under which the batches still
    arrive as they should while the store at the end no longer holds
    them. *)

From stdpp Require Import prelude strings gmap.
From S2P Require Import Prelude JsValue Numbers Stream Control BatchBy Simulation Protocol.
From S2P Require Import SamePattern SameProperty Store Abstraction Heap OpenWorld Allocation.

(** In the scenarios what is thrown is a string, and a read of something
    that is not a batch would throw ["TypeError"]. *)
Abbreviation run_A :=
  (h_batchByProp "TypeError" "order_id" (Highland.of_array scenario_A) ∅).

(** The three orders of the test, from the empty store: three calls on the
    output stream, with the references of the two batches. *)
Example scenario_A_references :
  run_A.1 =
    Ok (World [CallWrite (Loc 6); CallWrite (Loc 9); CallEnd] None).
Proof. evaluate. Qed.

(** The store at the end: every batch the policy went through is still
    there, and the batch pushed first (at 6) has the array (at 4) of the
    batch the second order was folded into (at 5). *)
Example scenario_A_store :
  run_A.2 =
    list_to_map
    [(Loc 0, CArray []);
     (Loc 1, CBatch VNull (Loc 0));
     (Loc 2, CArray [order "a" 1]);
     (Loc 3, CBatch (VInt 1) (Loc 2));
     (Loc 4, CArray [order "a" 1; order "b" 1]);
     (Loc 5, CBatch (VInt 1) (Loc 4));
     (Loc 6, CBatch (VInt 1) (Loc 4));
     (Loc 7, CArray [order "c" 2]);
     (Loc 8, CBatch (VInt 2) (Loc 7));
     (Loc 9, CBatch (VInt 2) (Loc 7))].
Proof. evaluate. Qed.

(** The calls of the test (as [scenario_A_output]), with [string] for the
    type of what is thrown. *)
Definition scenario_A_output' : world string (TBatchSamePattern value object) :=
  World [CallWrite (Batch (VInt 1) [order "a" 1; order "b" 1]);
         CallWrite (Batch (VInt 2) [order "c" 2]);
         CallEnd] None.

(** The references read in that store are the batches of the test. *)
Example scenario_A_read :
  res_map (read_output (read_batch run_A.2))
    run_A.1 =
    Ok (Some scenario_A_output').
Proof. evaluate. Qed.

(** The arrays of that store hold four elements: three for the batch of
    two orders, one for the batch of one. *)
Example scenario_A_copies : elements_stored run_A.2 = 4.
Proof. evaluate. Qed.

(** Four orders with the same key are one batch, for which ten elements
    are written; four orders with different keys are four batches, for
    which four are. *)
Example one_batch_copies :
  elements_stored
    (h_batchByProp "TypeError" "order_id"
       (Highland.of_array [order "a" 1; order "b" 1; order "c" 1; order "d" 1]) ∅).2 = 10 /\
  elements_stored
    (h_batchByProp "TypeError" "order_id"
       (Highland.of_array [order "a" 1; order "b" 2; order "c" 3; order "d" 4]) ∅).2 = 4.
Proof. evaluate. Qed.

Lemma e_batchBy_implements_witness :
  let ec := h_sameProperty "TypeError" "order_id" in
  let its := Highland.of_array scenario_A in
  ∅ ⊆ (e_batchBy ec its ∅).2 /\
  agree (shown (stands_for (e_batchBy ec its ∅).2)) (e_batchBy ec its ∅).1
    (batchBy (samePattern (property_config "order_id")) its).
Proof.
  apply (e_batchBy_implements (h_samePattern "TypeError" (property_config "order_id"))
           (samePattern (property_config "order_id")) (⊆) stands_for stands_for).
Defined.

(** ** Code that overwrites what it can reach *)

(** Every object but those that only the policy refers to becomes an empty
    array. *)
Definition scramble (O : gset loc) (h : heap value object) : heap value object :=
  map_imap (fun l c => Some (if decide (l ∈ O) then c else CArray [])) h.

#[export] Instance scramble_confined : Confined scramble.
Proof.
  intros O h l [Hl _]%elem_of_intersection. unfold scramble. rewrite map_lookup_imap.
  destruct (h !! l); cbn; [by rewrite decide_True|done].
Qed.

Lemma h_batchBy_confined_witness :
  res_map (read_output arrival_batch)
    (e_batchBy (among scramble (h_sameProperty "TypeError" "order_id"))
       (Highland.of_array scenario_A) (∅, ∅)).1 =
  res_map Some
    (batchBy (samePattern (property_config "order_id")) (Highland.of_array scenario_A)).
Proof. apply (h_batchBy_confined "TypeError" scramble). Defined.

(** Among that code the batches arrive as the test expects them, the
    references are those of the run without it, and in the store at the end
    the first of them is no longer a batch. *)
Example scrambled_run :
  let r := e_batchBy (among scramble (h_sameProperty "TypeError" "order_id"))
             (Highland.of_array scenario_A) (∅, ∅) in
  res_map (read_output arrival_batch) r.1 = Ok (Some scenario_A_output') /\
  res_map (fun o => arrival_ref <$> written o) r.1 = Ok [Loc 6; Loc 9] /\
  read_batch r.2.1 (Loc 6) = None.
Proof. evaluate. Qed.

(** ** Another transform on the same store *)

(** A whole run of [batchByProp] on three other orders, between every two
    operations. *)
Definition other_run (_ : gset loc) (h : heap value object) : heap value object :=
  (h_batchByProp "TypeError" "sku"
     (Highland.of_array [order "x" 7; order "x" 8; order "y" 9]) h).2.

#[export] Instance other_run_confined : Confined other_run.
Proof. apply extending_confined. intros O h. apply h_batchBy_refines. Qed.

(** The batches of the test arrive as they should, at other references,
    and are still there at the end. *)
Example among_other_runs :
  let r := e_batchBy (among other_run (h_sameProperty "TypeError" "order_id"))
             (Highland.of_array scenario_A) (∅, ∅) in
  res_map (read_output arrival_batch) r.1 = Ok (Some scenario_A_output') /\
  res_map (fun o => arrival_ref <$> written o) r.1 = Ok [Loc 46; Loc 59] /\
  res_map (read_output (fun a => read_batch r.2.1 (arrival_ref a))) r.1 =
    Ok (Some scenario_A_output').
Proof. evaluate. Qed.
